(** * Reliable message channel, data block receiver and DNS resolver

    A shallow embedding of [ReliableMessageChannel.h], [DataBlockReceiver.cpp]
    and [DNSResolver.cpp] of the network protocol library, with the
    properties of the channel's send/receive windows, of the packet packing
    loop, of fragment reassembly and of the resolver's callback discipline.
    The modules [ChannelRuns], [ReceiverStates] and [ResolverLookups] follow
    the three classes over whole runs of calls: what a host sees of a
    channel, what a receiver does with the fragments of any peer, and what
    becomes of the lookups of a resolver, [DNSResolve_Blocking] included.

    Conventions.  Unsigned 16-bit values ([uint16_t], the [: 16] bit
    fields) are integers in [Z] with the wrap-around written as [wrap16];
    the 15-bit field [measuredBits] is wrapped by [wrap15]; the 64-bit
    counters by [wrap64].  Plain [int] values are integers in [Z]; signed
    overflow is undefined behaviour in the source and is not modelled.
    [double] times are values of an ordered type with addition (class
    [Clock]); only the order and the addition the source uses are needed.
    A [shared_ptr<Message>] is an [option Message] where the source can
    hold [nullptr], a [Message] otherwise.  [assert] is live: an
    assertion that does not hold ends the run ([Aborted]).  The
    header only compiles with assertions enabled, since [SendMessage]
    uses the variable [entry] that it declares under [#ifndef NDEBUG]. *)

From stdpp Require Import base list gmap strings.
From Stdlib Require Import ZArith Lia Ascii.

Local Open Scope Z_scope.

(** ** Sequence arithmetic *)

Definition wrap16 (z : Z) : Z := z mod 65536.
Definition wrap15 (z : Z) : Z := z mod 32768.
Definition wrap64 (z : Z) : Z := z mod 18446744073709551616.

(** Modelled from the spec: [sequence_less_than] is declared outside the
    given sources.  "less_than(a,b) is true iff (b - a) mod 2^16 lies in
    (0, 2^15)". *)
Definition sequence_less_than (a b : Z) : bool :=
  let d := wrap16 (b - a) in (0 <? d) && (d <? 32768).

(** Modelled from the spec: [sequence_greater_than], the mirror image of
    [sequence_less_than] under 16-bit wrap-around. *)
Definition sequence_greater_than (a b : Z) : bool := sequence_less_than b a.

(** Modelled from the spec: [bits_required( 0, max )] is declared outside
    the given sources; the number of bits of a value in [0, max] is
    "ceil(log2(max+1))". *)
Definition bits_required (lo hi : Z) : Z := Z.log2_up (hi - lo + 1).

(** ** SlidingWindow<T> *)

(** What the window template needs from its entry type: the [valid] bit,
    the 16-bit [sequence] field, and the default-constructed entry. *)
Class WindowEntry (T : Type) := {
  entry_valid : T → bool;
  entry_sequence : T → Z;
  entry_default : T;
  entry_stamp : Z → T → T;
  entry_stamp_valid : ∀ q e, entry_valid (entry_stamp q e) = true;
  entry_stamp_sequence : ∀ q e, entry_sequence (entry_stamp q e) = wrap16 q;
  entry_default_valid : entry_valid entry_default = false
}.

Module SlidingWindow.

(** Modelled from the spec: the class [SlidingWindow<T>] is declared
    outside the given sources.  "Internally a contiguous array of N slots
    plus per-slot valid flag and stored sequence"; "Physical slot index is
    seq mod N". *)
Record t (T : Type) := Make { m_size : Z; m_entries : list T }.
Arguments Make {T} _ _.
Arguments m_size {T} _.
Arguments m_entries {T} _.

Section Ops.
Context {T : Type} {WE : WindowEntry T}.

Definition create (size : Z) : t T :=
  Make size (replicate (Z.to_nat size) entry_default).

Definition index (w : t T) (seq : Z) : nat := Z.to_nat (seq mod m_size w).

Definition slot (w : t T) (seq : Z) : option T := m_entries w !! index w seq.

(** Writing through a handle that [Find] or [InsertFast] returned. *)
Definition store (w : t T) (seq : Z) (e : T) : t T :=
  Make (m_size w) (<[index w seq := e]> (m_entries w)).

(** Modelled from the spec: "HasSlotAvailable(seq): true iff !slot.valid
    || seq - slot.seq >= N modulo 2^16". *)
Definition HasSlotAvailable (w : t T) (seq : Z) : bool :=
  match slot w seq with
  | Some e => negb (entry_valid e) || (m_size w <=? wrap16 (seq - entry_sequence e))
  | None => false
  end.

(** Modelled from the spec: "Insert(seq, v): if HasSlotAvailable(seq),
    writes slot and returns success; else failure without mutation". *)
Definition Insert (w : t T) (e : T) : bool * t T :=
  if HasSlotAvailable w (entry_sequence e)
  then (true, store w (entry_sequence e) e)
  else (false, w).

(** Modelled from the spec: "InsertFast(seq): unconditionally writes a
    fresh entry at seq mod N and returns a mutable handle". *)
Definition InsertFast (w : t T) (seq : Z) : t T :=
  store w seq (entry_stamp seq entry_default).

(** Modelled from the spec: "Find(seq): returns handle iff slot is valid
    and its stored sequence equals seq; otherwise null". *)
Definition Find (w : t T) (seq : Z) : option T :=
  match slot w seq with
  | Some e => if entry_valid e && (entry_sequence e =? seq) then Some e else None
  | None => None
  end.

(** The window has a slot for every sequence number. *)
Definition has_slots (w : t T) : Prop := ∀ seq, is_Some (slot w seq).

End Ops.
End SlidingWindow.

(** ** Time *)

(** The [double] times of the source: the order [<=], the addition and the
    conversion of an integer literal. *)
Class Clock (Time : Type) := {
  t_le : Time → Time → bool;
  t_add : Time → Time → Time;
  t_lit : Z → Time
}.

(** Times counted in milliseconds; the literal [n] is [n] seconds. *)
#[export] Instance Z_clock : Clock Z :=
  {| t_le := Z.leb; t_add := Z.add; t_lit := fun z => 1000 * z |}.

(** ** Messages *)

(** A message as the channel sees it: the type tag, the mutable 16-bit id
    and the bits its own [Serialize] writes. *)
Record Message := {
  msg_type : Z;
  msg_id : Z;
  msg_body : list bool
}.

Definition GetId (m : Message) : Z := wrap16 (msg_id m).

Definition SetId (m : Message) (id : Z) : Message :=
  {| msg_type := msg_type m; msg_id := wrap16 id; msg_body := msg_body m |}.

(** [stream.GetBits()] after [message->Serialize( stream )]. *)
Definition serialized_bits (m : Message) : Z := Z.of_nat (length (msg_body m)).

(** ** ReliableMessageChannel *)

Module ReliableMessageChannel.

Inductive Counters :=
  | MessagesSent
  | MessagesWritten
  | MessagesRead
  | MessagesReceived
  | MessagesDiscardedLate
  | MessagesDiscardedEarly.

#[export] Instance Counters_eq_dec : EqDecision Counters.
Proof. solve_decision. Defined.

Definition counter_index (c : Counters) : nat :=
  match c with
  | MessagesSent => 0
  | MessagesWritten => 1
  | MessagesRead => 2
  | MessagesReceived => 3
  | MessagesDiscardedLate => 4
  | MessagesDiscardedEarly => 5
  end%nat.

Definition NumCounters : nat := 6.

(** The two [runtime_error]s the channel throws. *)
Inductive Error := QueueOverflow | EarlyMessage.

(** How many messages of a payload pass a test. *)
Definition count_of (f : Message → bool) (data : list Message) : Z :=
  Z.of_nat (length (filter (fun m => f m = true) data)).

(** How a call ends: it returns, it throws (the state is the one at the
    [throw]), or it is aborted: an assertion fails or an array is written
    out of bounds. *)
Inductive outcome (St A : Type) :=
  | Returned (a : A) (s : St)
  | Raised (e : Error) (s : St)
  | Aborted.
Arguments Returned {St A} _ _.
Arguments Raised {St A} _ _.
Arguments Aborted {St A}.

Section Channel.
Context {Time : Type} {clock : Clock Time}.

Record ReliableMessageChannelConfig := {
  resendRate : Time;
  sendQueueSize : Z;
  receiveQueueSize : Z;
  sentPacketsSize : Z;
  maxMessagesPerPacket : Z;
  maxMessageSize : Z;
  maxSmallBlockSize : Z;
  packetBudget : Z;
  giveUpBits : Z;
  (** [messageFactory->GetMaxType()] *)
  maxType : Z
}.

Record SendQueueEntry := {
  sq_message : option Message;
  sq_sequence : Z;
  sq_valid : bool;
  sq_measuredBits : Z;
  sq_timeLastSent : Time
}.

(** [SendQueueEntry( _message, _sequence )] *)
Definition SendQueueEntry_new (m : Message) (seq : Z) : SendQueueEntry :=
  {| sq_message := Some m; sq_sequence := wrap16 seq; sq_valid := true;
     sq_measuredBits := 0; sq_timeLastSent := t_lit (-1) |}.

Record SentPacketEntry := {
  sp_sequence : Z;
  sp_acked : bool;
  sp_valid : bool;
  sp_timeSent : Time;
  sp_messageIds : list Z
}.

Record ReceiveQueueEntry := {
  rq_message : option Message;
  rq_sequence : Z;
  rq_valid : bool;
  rq_timeReceived : Time
}.

(** [ReceiveQueueEntry( _message, _sequence, _timeReceived )] *)
Definition ReceiveQueueEntry_new (m : Message) (seq : Z) (now : Time) : ReceiveQueueEntry :=
  {| rq_message := Some m; rq_sequence := wrap16 seq; rq_valid := true;
     rq_timeReceived := now |}.

(** The default constructors set [valid(0)] only; the other fields are
    given fixed values here. *)
#[export] Program Instance SendQueueEntry_window : WindowEntry SendQueueEntry := {|
  entry_valid := sq_valid;
  entry_sequence := sq_sequence;
  entry_default := {| sq_message := None; sq_sequence := 0; sq_valid := false;
                      sq_measuredBits := 0; sq_timeLastSent := t_lit 0 |};
  entry_stamp q e := {| sq_message := sq_message e; sq_sequence := wrap16 q;
                        sq_valid := true; sq_measuredBits := sq_measuredBits e;
                        sq_timeLastSent := sq_timeLastSent e |}
|}.
Solve All Obligations with done.

#[export] Program Instance SentPacketEntry_window : WindowEntry SentPacketEntry := {|
  entry_valid := sp_valid;
  entry_sequence := sp_sequence;
  entry_default := {| sp_sequence := 0; sp_acked := false; sp_valid := false;
                      sp_timeSent := t_lit 0; sp_messageIds := [] |};
  entry_stamp q e := {| sp_sequence := wrap16 q; sp_acked := sp_acked e;
                        sp_valid := true; sp_timeSent := sp_timeSent e;
                        sp_messageIds := sp_messageIds e |}
|}.
Solve All Obligations with done.

#[export] Program Instance ReceiveQueueEntry_window : WindowEntry ReceiveQueueEntry := {|
  entry_valid := rq_valid;
  entry_sequence := rq_sequence;
  entry_default := {| rq_message := None; rq_sequence := 0; rq_valid := false;
                      rq_timeReceived := t_lit 0 |};
  entry_stamp q e := {| rq_message := rq_message e; rq_sequence := wrap16 q;
                        rq_valid := true; rq_timeReceived := rq_timeReceived e |}
|}.
Solve All Obligations with done.

Record Channel := {
  m_timeBase : Time;
  m_sendMessageId : Z;
  m_receiveMessageId : Z;
  m_sendQueue : SlidingWindow.t SendQueueEntry;
  m_sentPackets : SlidingWindow.t SentPacketEntry;
  m_receiveQueue : SlidingWindow.t ReceiveQueueEntry;
  m_counters : list Z
}.

Variable m_config : ReliableMessageChannelConfig.

(** [m_messageOverheadBits], computed by the constructor. *)
Definition MessageIdBits : Z := 16.
Definition MessageTypeBits : Z := bits_required 0 (maxType m_config).
Definition m_messageOverheadBits : Z := MessageIdBits + MessageTypeBits.

(** The constructor; [m_timeBase] starts at time zero. *)
Definition init : Channel :=
  {| m_timeBase := t_lit 0;
     m_sendMessageId := 0;
     m_receiveMessageId := 0;
     m_sendQueue := SlidingWindow.create (sendQueueSize m_config);
     m_sentPackets := SlidingWindow.create (sentPacketsSize m_config);
     m_receiveQueue := SlidingWindow.create (receiveQueueSize m_config);
     m_counters := replicate NumCounters 0 |}.

Definition set_sendQueue (q : SlidingWindow.t SendQueueEntry) (s : Channel) : Channel :=
  {| m_timeBase := m_timeBase s; m_sendMessageId := m_sendMessageId s;
     m_receiveMessageId := m_receiveMessageId s; m_sendQueue := q;
     m_sentPackets := m_sentPackets s; m_receiveQueue := m_receiveQueue s;
     m_counters := m_counters s |}.

Definition set_sentPackets (q : SlidingWindow.t SentPacketEntry) (s : Channel) : Channel :=
  {| m_timeBase := m_timeBase s; m_sendMessageId := m_sendMessageId s;
     m_receiveMessageId := m_receiveMessageId s; m_sendQueue := m_sendQueue s;
     m_sentPackets := q; m_receiveQueue := m_receiveQueue s;
     m_counters := m_counters s |}.

Definition set_receiveQueue (q : SlidingWindow.t ReceiveQueueEntry) (s : Channel) : Channel :=
  {| m_timeBase := m_timeBase s; m_sendMessageId := m_sendMessageId s;
     m_receiveMessageId := m_receiveMessageId s; m_sendQueue := m_sendQueue s;
     m_sentPackets := m_sentPackets s; m_receiveQueue := q;
     m_counters := m_counters s |}.

Definition set_sendMessageId (id : Z) (s : Channel) : Channel :=
  {| m_timeBase := m_timeBase s; m_sendMessageId := id;
     m_receiveMessageId := m_receiveMessageId s; m_sendQueue := m_sendQueue s;
     m_sentPackets := m_sentPackets s; m_receiveQueue := m_receiveQueue s;
     m_counters := m_counters s |}.

Definition set_receiveMessageId (id : Z) (s : Channel) : Channel :=
  {| m_timeBase := m_timeBase s; m_sendMessageId := m_sendMessageId s;
     m_receiveMessageId := id; m_sendQueue := m_sendQueue s;
     m_sentPackets := m_sentPackets s; m_receiveQueue := m_receiveQueue s;
     m_counters := m_counters s |}.

Definition set_counters (c : list Z) (s : Channel) : Channel :=
  {| m_timeBase := m_timeBase s; m_sendMessageId := m_sendMessageId s;
     m_receiveMessageId := m_receiveMessageId s; m_sendQueue := m_sendQueue s;
     m_sentPackets := m_sentPackets s; m_receiveQueue := m_receiveQueue s;
     m_counters := c |}.

Definition set_timeBase (now : Time) (s : Channel) : Channel :=
  {| m_timeBase := now; m_sendMessageId := m_sendMessageId s;
     m_receiveMessageId := m_receiveMessageId s; m_sendQueue := m_sendQueue s;
     m_sentPackets := m_sentPackets s; m_receiveQueue := m_receiveQueue s;
     m_counters := m_counters s |}.

(** [GetCounter( index )] *)
Definition GetCounter (c : Counters) (s : Channel) : Z :=
  default 0 (m_counters s !! counter_index c).

(** [m_counters[c] += n] on [uint64_t]. *)
Definition add_counter (c : Counters) (n : Z) (s : Channel) : Channel :=
  set_counters (<[counter_index c := wrap64 (GetCounter c s + n)]> (m_counters s)) s.

(** [CanSendMessage()] *)
Definition CanSendMessage (s : Channel) : bool :=
  SlidingWindow.HasSlotAvailable (m_sendQueue s) (m_sendMessageId s).

Definition set_measuredBits (bits : Z) (e : SendQueueEntry) : SendQueueEntry :=
  {| sq_message := sq_message e; sq_sequence := sq_sequence e; sq_valid := sq_valid e;
     sq_measuredBits := wrap15 bits; sq_timeLastSent := sq_timeLastSent e |}.

(** [SendMessage( message )] *)
Definition SendMessage (message : Message) (s : Channel) : outcome Channel Message :=
  if negb (SlidingWindow.HasSlotAvailable (m_sendQueue s) (m_sendMessageId s))
  then Raised QueueOverflow s
  else
    let message := SetId message (m_sendMessageId s) in
    let '(result, q) :=
      SlidingWindow.Insert (m_sendQueue s) (SendQueueEntry_new message (m_sendMessageId s)) in
    if negb result then Aborted
    else
      match SlidingWindow.Find q (m_sendMessageId s) with
      | None => Aborted
      | Some entry =>
          if negb (sq_valid entry && (sq_sequence entry =? m_sendMessageId s)
                   && match sq_message entry with
                      | Some m => GetId m =? m_sendMessageId s
                      | None => false
                      end)
          then Aborted
          else
            let entry := set_measuredBits (serialized_bits message + m_messageOverheadBits) entry in
            let q := SlidingWindow.store q (m_sendMessageId s) entry in
            Returned message
              (set_sendMessageId (wrap16 (m_sendMessageId s + 1))
                 (add_counter MessagesSent 1 (set_sendQueue q s)))
      end.

Definition rq_release (e : ReceiveQueueEntry) : ReceiveQueueEntry :=
  {| rq_message := None; rq_sequence := rq_sequence e; rq_valid := false;
     rq_timeReceived := rq_timeReceived e |}.

(** [ReceiveMessage()] *)
Definition ReceiveMessage (s : Channel) : outcome Channel (option Message) :=
  match SlidingWindow.Find (m_receiveQueue s) (m_receiveMessageId s) with
  | None => Returned None s
  | Some entry =>
      match rq_message entry with
      | None => Aborted
      | Some message =>
          if negb (GetId message =? m_receiveMessageId s) then Aborted
          else
            let q := SlidingWindow.store (m_receiveQueue s) (m_receiveMessageId s)
                       (rq_release entry) in
            Returned (Some message)
              (set_receiveMessageId (wrap16 (m_receiveMessageId s + 1))
                 (add_counter MessagesReceived 1 (set_receiveQueue q s)))
      end
  end.

(** [GetData]: the scan for the oldest message id in the send queue. *)
Definition oldest_step (s : Channel) (baseId : Z) (acc : bool * Z) (i : Z) : bool * Z :=
  let '(foundMessage, oldestMessageId) := acc in
  let messageId := wrap16 (baseId + i) in
  match SlidingWindow.Find (m_sendQueue s) messageId with
  | Some _ =>
      if negb foundMessage || sequence_less_than messageId oldestMessageId
      then (true, messageId)
      else acc
  | None => acc
  end.

Definition find_oldest (s : Channel) : bool * Z :=
  let baseId := wrap16 (m_sendMessageId s - sendQueueSize m_config) in
  foldl (oldest_step s baseId) (false, 0) (seqZ 0 (sendQueueSize m_config)).

Definition set_timeLastSent (now : Time) (e : SendQueueEntry) : SendQueueEntry :=
  {| sq_message := sq_message e; sq_sequence := sq_sequence e; sq_valid := sq_valid e;
     sq_measuredBits := sq_measuredBits e; sq_timeLastSent := now |}.

(** The test of line 291: the entry may go into this packet. *)
Definition may_include (now : Time) (availableBits : Z) (entry : SendQueueEntry) : bool :=
  t_le (t_add (sq_timeLastSent entry) (resendRate m_config)) now
  && (0 <=? availableBits - sq_measuredBits entry).

(** [GetData]: the loop that gathers message ids, over the remaining
    values of [i].  [None]: [messageIds] is written past its end. *)
Fixpoint gather (now : Time) (oldestMessageId : Z) (todo : list Z)
    (availableBits : Z) (messageIds : list Z) (q : SlidingWindow.t SendQueueEntry)
    : option (Z * list Z * SlidingWindow.t SendQueueEntry) :=
  match todo with
  | [] => Some (availableBits, messageIds, q)
  | i :: todo =>
      if availableBits <? giveUpBits m_config then Some (availableBits, messageIds, q)
      else
        let messageId := wrap16 (oldestMessageId + i) in
        let step :=
          match SlidingWindow.Find q messageId with
          | Some entry =>
              if may_include now availableBits entry
              then
                if Z.of_nat (length messageIds) <? maxMessagesPerPacket m_config
                then Some (availableBits - sq_measuredBits entry,
                           messageIds ++ [messageId],
                           SlidingWindow.store q messageId (set_timeLastSent now entry))
                else None
              else Some (availableBits, messageIds, q)
          | None => Some (availableBits, messageIds, q)
          end in
        match step with
        | None => None
        | Some (availableBits, messageIds, q) =>
            if Z.of_nat (length messageIds) =? maxMessagesPerPacket m_config
            then Some (availableBits, messageIds, q)
            else gather now oldestMessageId todo availableBits messageIds q
        end
  end.

Definition set_sentPacket (now : Time) (ids : list Z) (e : SentPacketEntry) : SentPacketEntry :=
  {| sp_sequence := sp_sequence e; sp_acked := false; sp_valid := sp_valid e;
     sp_timeSent := now; sp_messageIds := ids |}.

(** [GetData]: the messages of the payload, [None] when an assertion of
    the last loop fails. *)
Fixpoint payload (q : SlidingWindow.t SendQueueEntry) (ids : list Z) : option (list Message) :=
  match ids with
  | [] => Some []
  | id :: ids =>
      match SlidingWindow.Find q id with
      | Some entry =>
          match sq_message entry, payload q ids with
          | Some m, Some ms => Some (m :: ms)
          | _, _ => None
          end
      | None => None
      end
  end.

(** [GetData( sequence )]; the payload is the list [data->messages]. *)
Definition GetData (sequence : Z) (s : Channel) : outcome Channel (option (list Message)) :=
  let '(foundMessage, oldestMessageId) := find_oldest s in
  if negb foundMessage then Returned None s
  else
    let availableBits := packetBudget m_config * 8 in
    match gather (m_timeBase s) oldestMessageId (seqZ 0 (receiveQueueSize m_config))
            availableBits [] (m_sendQueue s) with
    | None => Aborted
    | Some (_, messageIds, q) =>
        let numMessageIds := Z.of_nat (length messageIds) in
        if negb (numMessageIds <=? maxMessagesPerPacket m_config) then Aborted
        else
          let s := set_sendQueue q s in
          if numMessageIds =? 0 then Returned None s
          else
            let packets := SlidingWindow.InsertFast (m_sentPackets s) sequence in
            match SlidingWindow.slot packets sequence with
            | None => Aborted
            | Some sentPacketData =>
                let packets :=
                  SlidingWindow.store packets sequence
                    (set_sentPacket (m_timeBase s) messageIds sentPacketData) in
                let s := add_counter MessagesWritten numMessageIds (set_sentPackets packets s) in
                match payload (m_sendQueue s) messageIds with
                | None => Aborted
                | Some messages => Returned (Some messages) s
                end
            end
    end.

(** [ProcessData]: the body of the loop over [data.messages]. *)
Definition process_message (minMessageId maxMessageId : Z)
    (acc : option (bool * Channel)) (message : Message) : option (bool * Channel) :=
  match acc with
  | None => None
  | Some (earlyMessage, s) =>
      let messageId := GetId message in
      let r :=
        if sequence_less_than messageId minMessageId
        then Some (earlyMessage, add_counter MessagesDiscardedLate 1 s)
        else if sequence_greater_than messageId maxMessageId
        then Some (true, add_counter MessagesDiscardedEarly 1 s)
        else
          let '(result, q) :=
            SlidingWindow.Insert (m_receiveQueue s)
              (ReceiveQueueEntry_new message messageId (m_timeBase s)) in
          if result then Some (earlyMessage, set_receiveQueue q s) else None in
      match r with
      | None => None
      | Some (earlyMessage, s) => Some (earlyMessage, add_counter MessagesRead 1 s)
      end
  end.

(** [ProcessData( sequence, channelData )] *)
Definition ProcessData (sequence : Z) (data : list Message) (s : Channel) : outcome Channel unit :=
  let minMessageId := m_receiveMessageId s in
  let maxMessageId := wrap16 (m_receiveMessageId s + receiveQueueSize m_config - 1) in
  match foldl (process_message minMessageId maxMessageId) (Some (false, s)) data with
  | None => Aborted
  | Some (earlyMessage, s) =>
      if earlyMessage then Raised EarlyMessage s else Returned () s
  end.

(** [ProcessData] with [m_receiveQueue->Insert] as a parameter: the class
    [SlidingWindow] is declared outside the given sources, and what its
    [Insert] does with a slot that is taken decides what becomes of a
    message that arrives twice. *)
Definition process_message_with
    (insert : SlidingWindow.t ReceiveQueueEntry → ReceiveQueueEntry
              → bool * SlidingWindow.t ReceiveQueueEntry)
    (minMessageId maxMessageId : Z)
    (acc : option (bool * Channel)) (message : Message) : option (bool * Channel) :=
  match acc with
  | None => None
  | Some (earlyMessage, s) =>
      let messageId := GetId message in
      let r :=
        if sequence_less_than messageId minMessageId
        then Some (earlyMessage, add_counter MessagesDiscardedLate 1 s)
        else if sequence_greater_than messageId maxMessageId
        then Some (true, add_counter MessagesDiscardedEarly 1 s)
        else
          let '(result, q) :=
            insert (m_receiveQueue s)
              (ReceiveQueueEntry_new message messageId (m_timeBase s)) in
          if result then Some (earlyMessage, set_receiveQueue q s) else None in
      match r with
      | None => None
      | Some (earlyMessage, s) => Some (earlyMessage, add_counter MessagesRead 1 s)
      end
  end.

Definition ProcessData_with
    (insert : SlidingWindow.t ReceiveQueueEntry → ReceiveQueueEntry
              → bool * SlidingWindow.t ReceiveQueueEntry)
    (sequence : Z) (data : list Message) (s : Channel) : outcome Channel unit :=
  let minMessageId := m_receiveMessageId s in
  let maxMessageId := wrap16 (m_receiveMessageId s + receiveQueueSize m_config - 1) in
  match foldl (process_message_with insert minMessageId maxMessageId) (Some (false, s)) data with
  | None => Aborted
  | Some (earlyMessage, s) =>
      if earlyMessage then Raised EarlyMessage s else Returned () s
  end.

Definition sq_release (e : SendQueueEntry) : SendQueueEntry :=
  {| sq_message := None; sq_sequence := sq_sequence e; sq_valid := false;
     sq_measuredBits := sq_measuredBits e; sq_timeLastSent := sq_timeLastSent e |}.

(** [ProcessAck]: the body of the loop over [sentPacket->messageIds]. *)
Definition ack_message (acc : option (SlidingWindow.t SendQueueEntry)) (messageId : Z)
    : option (SlidingWindow.t SendQueueEntry) :=
  match acc with
  | None => None
  | Some q =>
      match SlidingWindow.Find q messageId with
      | Some sendQueueEntry =>
          match sq_message sendQueueEntry with
          | Some m =>
              if GetId m =? messageId
              then Some (SlidingWindow.store q messageId (sq_release sendQueueEntry))
              else None
          | None => None
          end
      | None => Some q
      end
  end.

Definition set_acked (e : SentPacketEntry) : SentPacketEntry :=
  {| sp_sequence := sp_sequence e; sp_acked := true; sp_valid := sp_valid e;
     sp_timeSent := sp_timeSent e; sp_messageIds := sp_messageIds e |}.

(** [ProcessAck( ack )] *)
Definition ProcessAck (ack : Z) (s : Channel) : outcome Channel unit :=
  match SlidingWindow.Find (m_sentPackets s) ack with
  | None => Returned () s
  | Some sentPacket =>
      if sp_acked sentPacket then Returned () s
      else
        match foldl ack_message (Some (m_sendQueue s)) (sp_messageIds sentPacket) with
        | None => Aborted
        | Some q =>
            Returned ()
              (set_sentPackets (SlidingWindow.store (m_sentPackets s) ack (set_acked sentPacket))
                 (set_sendQueue q s))
        end
  end.

(** [Update( timeBase )] *)
Definition Update (timeBase : Time) (s : Channel) : outcome Channel unit :=
  Returned () (set_timeBase timeBase s).

(** *** The host's calls *)

(** The calls a host makes; a 16-bit argument is converted at the call. *)
Inductive Op :=
  | CallSendMessage (message : Message)
  | CallReceiveMessage
  | CallGetData (sequence : Z)
  | CallProcessData (sequence : Z) (data : list Message)
  | CallProcessAck (ack : Z)
  | CallUpdate (timeBase : Time).

(** What the host sees of a call: the message [SendMessage] queued (with
    its id), the payload [GetData] returned and the time of the call, the
    message [ReceiveMessage] returned. *)
Inductive Event :=
  | Queued (message : Message)
  | Packet (now : Time) (messages : list Message)
  | Delivered (message : Message).

(** One call.  The host catches what the call throws and goes on with the
    channel as the [throw] left it; [None] when the call is aborted. *)
Definition call (op : Op) (s : Channel) : option (list Event * Channel) :=
  match op with
  | CallSendMessage message =>
      match SendMessage message s with
      | Returned m s' => Some ([Queued m], s')
      | Raised _ s' => Some ([], s')
      | Aborted => None
      end
  | CallReceiveMessage =>
      match ReceiveMessage s with
      | Returned (Some m) s' => Some ([Delivered m], s')
      | Returned None s' | Raised _ s' => Some ([], s')
      | Aborted => None
      end
  | CallGetData sequence =>
      match GetData (wrap16 sequence) s with
      | Returned (Some ms) s' => Some ([Packet (m_timeBase s) ms], s')
      | Returned None s' | Raised _ s' => Some ([], s')
      | Aborted => None
      end
  | CallProcessData sequence data =>
      match ProcessData (wrap16 sequence) data s with
      | Returned _ s' | Raised _ s' => Some ([], s')
      | Aborted => None
      end
  | CallProcessAck ack =>
      match ProcessAck (wrap16 ack) s with
      | Returned _ s' | Raised _ s' => Some ([], s')
      | Aborted => None
      end
  | CallUpdate timeBase =>
      match Update timeBase s with
      | Returned _ s' | Raised _ s' => Some ([], s')
      | Aborted => None
      end
  end.

(** A sequence of calls: the events up to the end or to the call that is
    aborted, and the channel at the end ([None] after an abort). *)
Fixpoint run (ops : list Op) (s : Channel) : list Event * option Channel :=
  match ops with
  | [] => ([], Some s)
  | op :: ops =>
      match call op s with
      | None => ([], None)
      | Some (evs, s') => let '(rest, final) := run ops s' in (evs ++ rest, final)
      end
  end.

(** The messages [ReceiveMessage] returned, in order. *)
Definition delivered (evs : list Event) : list Message :=
  omap (fun ev => match ev with Delivered m => Some m | _ => None end) evs.

(** The channel a sequence of calls leads to. *)
Definition exec (ops : list Op) (s : Channel) : option Channel := (run ops s).2.

(** *** Well-formed queues *)

(** Every valid entry of the send queue owns a message with the entry's
    id, and every field is in the range of its bit field. *)
Definition sq_entry_ok (e : SendQueueEntry) : Prop :=
  sq_valid e = true →
  ∃ m, sq_message e = Some m ∧ GetId m = sq_sequence e.

Definition rq_entry_ok (e : ReceiveQueueEntry) : Prop :=
  rq_valid e = true →
  ∃ m, rq_message e = Some m ∧ GetId m = rq_sequence e.

(** The counters are the [NumCounters] 64-bit values. *)
Definition counters_ok (s : Channel) : Prop :=
  length (m_counters s) = NumCounters
  ∧ Forall (fun c => 0 <= c < 18446744073709551616) (m_counters s).

Definition channel_ok (s : Channel) : Prop :=
  Forall sq_entry_ok (SlidingWindow.m_entries (m_sendQueue s))
  ∧ Forall rq_entry_ok (SlidingWindow.m_entries (m_receiveQueue s))
  ∧ 0 <= m_receiveMessageId s < 65536
  ∧ 0 <= m_sendMessageId s < 65536
  ∧ counters_ok s.

(** The ids [0, 1, 2, ...] of the first [n] messages, under 16-bit
    wrap-around. *)
Definition ids_from (start : Z) (n : nat) : list Z :=
  (fun k => wrap16 (start + k)) <$> seqZ 0 (Z.of_nat n).

(** [GetData] changes an entry of the send queue by [timeLastSent] at
    most, and only when the entry passed the resend test. *)
Definition touched (now : Time) (q q' : SlidingWindow.t SendQueueEntry) : Prop :=
  SlidingWindow.m_size q' = SlidingWindow.m_size q
  ∧ Forall2 (fun e e' =>
               e' = e
               ∨ (e' = set_timeLastSent now e
                  ∧ t_le (t_add (sq_timeLastSent e) (resendRate m_config)) now = true))
      (SlidingWindow.m_entries q) (SlidingWindow.m_entries q').

(** The measured bits of the entries of the given ids. *)
Definition measured (q : SlidingWindow.t SendQueueEntry) (ids : list Z) : Z :=
  foldr (fun id acc =>
           match SlidingWindow.Find q id with
           | Some e => sq_measuredBits e + acc
           | None => acc
           end) 0 ids.

(** What the gathering loop of [GetData] did, when it selected [sel]:
    the queue is touched only; the selected entries fit the budget, had
    passed the resend test, and carry the time of the call afterwards; the
    slots of no selected id are as they were. *)
Definition gathered (now : Time) (q : SlidingWindow.t SendQueueEntry) (sel : list Z)
    (q' : SlidingWindow.t SendQueueEntry) : Prop :=
  touched now q q'
  ∧ (sel ≠ [] → measured q sel <= packetBudget m_config * 8)
  ∧ Forall (fun id => ∃ e, SlidingWindow.Find q id = Some e
              ∧ t_le (t_add (sq_timeLastSent e) (resendRate m_config)) now = true) sel
  ∧ Forall (fun id => ∃ e', SlidingWindow.Find q' id = Some e' ∧ sq_timeLastSent e' = now) sel
  ∧ (sel = [] → q' = q)
  ∧ (∀ k, (∀ id, id ∈ sel → SlidingWindow.index q id ≠ k) →
          SlidingWindow.m_entries q' !! k = SlidingWindow.m_entries q !! k).

(** *** The receive window, as [ProcessData] tests it *)

(** The id is below [m_receiveMessageId] under wrap-around. *)
Definition is_late (s : Channel) (m : Message) : bool :=
  sequence_less_than (GetId m) (m_receiveMessageId s).

(** The id is above [m_receiveMessageId + receiveQueueSize - 1]. *)
Definition is_above (s : Channel) (m : Message) : bool :=
  sequence_greater_than (GetId m)
    (wrap16 (m_receiveMessageId s + receiveQueueSize m_config - 1)).

Definition is_early (s : Channel) (m : Message) : bool :=
  negb (is_late s m) && is_above s m.

Definition in_window (s : Channel) (m : Message) : bool :=
  negb (is_late s m) && negb (is_above s m).

(** The slot of the receive queue the message would go to is there and
    holds no valid entry. *)
Definition slot_free (s : Channel) (m : Message) : Prop :=
  ∃ e, SlidingWindow.slot (m_receiveQueue s) (GetId m) = Some e ∧ rq_valid e = false.

(** The in-window messages of a payload fall on free slots, each on its
    own. *)
Definition lands_free (s : Channel) (data : list Message) : Prop :=
  (∀ m, m ∈ data → in_window s m = true → slot_free s m)
  ∧ NoDup (SlidingWindow.index (m_receiveQueue s) <$> (GetId <$> filter (fun m => in_window s m = true) data)).

(** *** Resend spacing *)

(** The laws of the clock that the spacing of resends rests on: the order
    is transitive and adding the resend rate does not go back in time. *)
Definition clock_ok : Prop :=
  (∀ a b c : Time, t_le a b = true → t_le b c = true → t_le a c = true)
  ∧ (∀ x : Time, t_le x (t_add x (resendRate m_config)) = true).

(** The entry of [id], when there is one, passes the resend test only at
    times that are [resendRate] past [t]. *)
Definition cooling (id : Z) (t : Time) (s : Channel) : Prop :=
  ∀ e, SlidingWindow.Find (m_sendQueue s) id = Some e →
  ∀ now, t_le (t_add (sq_timeLastSent e) (resendRate m_config)) now = true →
         t_le (t_add t (resendRate m_config)) now = true.

(** The ids of the messages of a payload. *)
Definition packet_ids (ms : list Message) : list Z := GetId <$> ms.

(** The event is a message queued under the id. *)
Definition queues (id : Z) (ev : Event) : Prop :=
  match ev with
  | Queued m => GetId m = id
  | _ => False
  end.

(** The event is a packet at time [now] that carries the id. *)
Definition carries (id : Z) (now : Time) (ev : Event) : Prop :=
  match ev with
  | Packet t ms => t = now ∧ id ∈ packet_ids ms
  | _ => False
  end.

(** *** What a run shows *)

(** The messages [SendMessage] queued, in order. *)
Definition queued_of (evs : list Event) : list Message :=
  omap (fun ev => match ev with Queued m => Some m | _ => None end) evs.

(** The messages of the packets, packet after packet. *)
Definition sent_in (evs : list Event) : list Message :=
  concat (omap (fun ev => match ev with Packet _ ms => Some ms | _ => None end) evs).

(** The messages of the payloads given to [ProcessData]. *)
Definition arrived (ops : list Op) : list Message :=
  concat (omap (fun op => match op with CallProcessData _ data => Some data | _ => None end) ops).

(** Every message of the send queue is one of [Q]; every message of the
    receive queue is one of [A]. *)
Definition sends_of (Q : list Message) (s : Channel) : Prop :=
  ∀ id e m, SlidingWindow.Find (m_sendQueue s) id = Some e → sq_message e = Some m → m ∈ Q.

Definition receives_of (A : list Message) (s : Channel) : Prop :=
  ∀ id e m, SlidingWindow.Find (m_receiveQueue s) id = Some e → rq_message e = Some m → m ∈ A.

(** The send queue holds one message only: the entry [e], under the id
    before [m_sendMessageId]. *)
Definition lone (e : SendQueueEntry) (s : Channel) : Prop :=
  ∀ id, SlidingWindow.Find (m_sendQueue s) id
        = if decide (id = wrap16 (m_sendMessageId s - 1)) then Some e else None.

(** A configuration with room to send and to receive: windows that are
    not empty, a receive window of 2^15 ids at most, packets that take a
    message, and a budget above the give-up mark. *)
Definition config_ok : Prop :=
  0 < sendQueueSize m_config
  ∧ 0 < sentPacketsSize m_config
  ∧ 0 < receiveQueueSize m_config <= 32768
  ∧ 0 < maxMessagesPerPacket m_config
  ∧ giveUpBits m_config <= packetBudget m_config * 8.

(** The measured bits of the message fit the packet budget. *)
Definition fits (message : Message) : Prop :=
  wrap15 (serialized_bits message + m_messageOverheadBits)
  <= packetBudget m_config * 8.

End Channel.
End ReliableMessageChannel.

(** ** DataBlockReceiver *)

Module DataBlockReceiver.

Definition DATA_BLOCK_RECEIVER_ERROR_BLOCK_TOO_LARGE : Z := 1.

(** The receiver; [m_acks] records the calls of the virtual [SendAck], in
    order.  [m_receivedFragment] holds one flag per fragment. *)
Record t := Make {
  m_data : list Byte.byte;
  m_maxBlockSize : Z;
  m_fragmentSize : Z;
  m_maxFragments : Z;
  m_receivedFragment : list bool;
  m_blockSize : Z;
  m_numFragments : Z;
  m_numReceivedFragments : Z;
  m_error : Z;
  m_acks : list Z
}.

(** [Clear()] *)
Definition Clear (r : t) : t :=
  {| m_data := m_data r;
     m_maxBlockSize := m_maxBlockSize r;
     m_fragmentSize := m_fragmentSize r;
     m_maxFragments := m_maxFragments r;
     m_receivedFragment := replicate (Z.to_nat (m_maxFragments r)) false;
     m_blockSize := 0;
     m_numFragments := 0;
     m_numReceivedFragments := 0;
     m_error := 0;
     m_acks := m_acks r |}.

(** The constructor; [memory] is what [allocator.Allocate( maxBlockSize )]
    hands out, with whatever bytes it holds. *)
Definition create (memory : list Byte.byte) (fragmentSize maxBlockSize : Z) : t :=
  let maxFragments :=
    maxBlockSize / fragmentSize + (if maxBlockSize mod fragmentSize =? 0 then 0 else 1) in
  Clear {| m_data := memory;
           m_maxBlockSize := maxBlockSize;
           m_fragmentSize := fragmentSize;
           m_maxFragments := maxFragments;
           m_receivedFragment := [];
           m_blockSize := 0;
           m_numFragments := 0;
           m_numReceivedFragments := 0;
           m_error := 0;
           m_acks := [] |}.

Definition set_error (e : Z) (r : t) : t :=
  {| m_data := m_data r; m_maxBlockSize := m_maxBlockSize r;
     m_fragmentSize := m_fragmentSize r; m_maxFragments := m_maxFragments r;
     m_receivedFragment := m_receivedFragment r; m_blockSize := m_blockSize r;
     m_numFragments := m_numFragments r;
     m_numReceivedFragments := m_numReceivedFragments r;
     m_error := e; m_acks := m_acks r |}.

Definition set_blockSize (n : Z) (r : t) : t :=
  {| m_data := m_data r; m_maxBlockSize := m_maxBlockSize r;
     m_fragmentSize := m_fragmentSize r; m_maxFragments := m_maxFragments r;
     m_receivedFragment := m_receivedFragment r; m_blockSize := n;
     m_numFragments := m_numFragments r;
     m_numReceivedFragments := m_numReceivedFragments r;
     m_error := m_error r; m_acks := m_acks r |}.

Definition set_numFragments (n : Z) (r : t) : t :=
  {| m_data := m_data r; m_maxBlockSize := m_maxBlockSize r;
     m_fragmentSize := m_fragmentSize r; m_maxFragments := m_maxFragments r;
     m_receivedFragment := m_receivedFragment r; m_blockSize := m_blockSize r;
     m_numFragments := n;
     m_numReceivedFragments := m_numReceivedFragments r;
     m_error := m_error r; m_acks := m_acks r |}.

(** [SendAck( fragmentId )] *)
Definition SendAck (fragmentId : Z) (r : t) : t :=
  {| m_data := m_data r; m_maxBlockSize := m_maxBlockSize r;
     m_fragmentSize := m_fragmentSize r; m_maxFragments := m_maxFragments r;
     m_receivedFragment := m_receivedFragment r; m_blockSize := m_blockSize r;
     m_numFragments := m_numFragments r;
     m_numReceivedFragments := m_numReceivedFragments r;
     m_error := m_error r; m_acks := m_acks r ++ [fragmentId] |}.

(** [memcpy( m_data + start, fragmentData, fragmentBytes )] *)
Definition memcpy (data : list Byte.byte) (start : Z) (src : list Byte.byte) (n : Z)
    : list Byte.byte :=
  take (Z.to_nat start) data ++ take (Z.to_nat n) src
    ++ drop (Z.to_nat (start + n)) data.

(** Lines 95 to 104: the fragment is stored when it is new. *)
Definition store_fragment (fragmentId start fragmentBytes : Z)
    (fragmentData : list Byte.byte) (r : t) : t :=
  {| m_data := memcpy (m_data r) start fragmentData fragmentBytes;
     m_maxBlockSize := m_maxBlockSize r;
     m_fragmentSize := m_fragmentSize r; m_maxFragments := m_maxFragments r;
     m_receivedFragment := <[Z.to_nat fragmentId := true]> (m_receivedFragment r);
     m_blockSize := m_blockSize r;
     m_numFragments := m_numFragments r;
     m_numReceivedFragments := m_numReceivedFragments r + 1;
     m_error := m_error r; m_acks := m_acks r |}.

(** [ProcessFragment].  [None]: the call leaves defined behaviour (the
    flag array or the buffer is accessed out of bounds) or, with
    [asserts] set, a [PROTOCOL_ASSERT] fails.  The macro is declared
    outside the given sources, so whether it checks is a parameter. *)
Definition ProcessFragment (asserts : bool)
    (blockSize numFragments fragmentId fragmentBytes : Z)
    (fragmentData : list Byte.byte) (r : t) : option t :=
  if m_maxBlockSize r <? blockSize
  then Some (set_error DATA_BLOCK_RECEIVER_ERROR_BLOCK_TOO_LARGE r)
  else if negb (m_error r =? 0) then Some r
  else
    let r := if m_blockSize r =? 0 then set_blockSize blockSize r else r in
    if negb (m_blockSize r =? blockSize) then Some r
    else if m_maxFragments r <? m_numFragments r then Some r
    else
      let r := if m_numFragments r =? 0 then set_numFragments numFragments r else r in
      if negb (m_numFragments r =? numFragments) then Some r
      else if m_numFragments r <=? fragmentId then Some r
      else
        let start := fragmentId * m_fragmentSize r in
        let finish := start + fragmentBytes in
        if asserts && negb (finish <=? m_blockSize r) then None
        else if m_blockSize r <? finish then Some r
        else
          let r := SendAck fragmentId r in
          match (if 0 <=? fragmentId then m_receivedFragment r !! Z.to_nat fragmentId
                 else None) with
          | None => None
          | Some true => Some r
          | Some false =>
              if asserts && negb ((0 <=? m_numReceivedFragments r + 1)
                                  && (m_numReceivedFragments r + 1 <=? m_numFragments r))
              then None
              else if (0 <=? start) && (0 <=? fragmentBytes)
                      && (finish <=? Z.of_nat (length (m_data r)))
                      && (fragmentBytes <=? Z.of_nat (length fragmentData))
              then Some (store_fragment fragmentId start fragmentBytes fragmentData r)
              else None
          end.

(** Modelled from the spec: [ReceiveCompleted()] is declared outside the
    given sources; "all num_fragments are received", by the counter
    [num_received_fragments] of the state. *)
Definition ReceiveCompleted (r : t) : bool :=
  m_numReceivedFragments r =? m_numFragments r.

(** [GetBlock()]: the block is a view of the first [m_blockSize] bytes of
    [m_data]. *)
Definition GetBlock (r : t) : option (list Byte.byte) :=
  if ReceiveCompleted r && (0 <? m_blockSize r)
  then Some (take (Z.to_nat (m_blockSize r)) (m_data r))
  else None.

(** One call of the sender's side: fragment [fragmentId] of [block], cut
    at multiples of [fragmentSize]. *)
Definition num_fragments_of (fragmentSize blockSize : Z) : Z :=
  blockSize / fragmentSize + (if blockSize mod fragmentSize =? 0 then 0 else 1).

Definition fragment_bytes (fragmentSize blockSize fragmentId : Z) : Z :=
  Z.min fragmentSize (blockSize - fragmentId * fragmentSize).

Definition fragment_data (fragmentSize : Z) (block : list Byte.byte) (fragmentId : Z)
    : list Byte.byte :=
  take (Z.to_nat (fragment_bytes fragmentSize (Z.of_nat (length block)) fragmentId))
    (drop (Z.to_nat (fragmentId * fragmentSize)) block).

Definition deliver (asserts : bool) (fragmentSize : Z) (block : list Byte.byte)
    (acc : option t) (fragmentId : Z) : option t :=
  match acc with
  | None => None
  | Some r =>
      let blockSize := Z.of_nat (length block) in
      ProcessFragment asserts blockSize (num_fragments_of fragmentSize blockSize) fragmentId
        (fragment_bytes fragmentSize blockSize fragmentId)
        (fragment_data fragmentSize block fragmentId) r
  end.

(** The receiver after the fragments with the given ids arrived in order. *)
Definition deliver_all (asserts : bool) (fragmentSize : Z) (block : list Byte.byte)
    (ids : list Z) (r : t) : option t :=
  foldl (deliver asserts fragmentSize block) (Some r) ids.

(** The receiver while the fragments [seen] of [block] have arrived, in
    this order: the flags and the counter agree with [seen], the bytes of
    the fragments seen are in place, and every call was acked. *)
Definition assembling (fragmentSize maxBlockSize : Z) (block : list Byte.byte)
    (acks0 seen : list Z) (r : t) : Prop :=
  let blockSize := Z.of_nat (length block) in
  m_maxBlockSize r = maxBlockSize
  ∧ m_fragmentSize r = fragmentSize
  ∧ m_maxFragments r = num_fragments_of fragmentSize maxBlockSize
  ∧ length (m_data r) = Z.to_nat maxBlockSize
  ∧ length (m_receivedFragment r) = Z.to_nat (m_maxFragments r)
  ∧ m_error r = 0
  ∧ (seen = [] → m_blockSize r = 0 ∧ m_numFragments r = 0)
  ∧ (seen ≠ [] → m_blockSize r = blockSize
                 ∧ m_numFragments r = num_fragments_of fragmentSize blockSize)
  ∧ (∀ k, 0 <= k → m_receivedFragment r !! Z.to_nat k = Some true ↔ k ∈ seen)
  ∧ (∃ L, NoDup L ∧ (∀ k, k ∈ L ↔ k ∈ seen)
          ∧ m_numReceivedFragments r = Z.of_nat (length L))
  ∧ (∀ k j, k ∈ seen →
       k * fragmentSize <= j < k * fragmentSize + fragment_bytes fragmentSize blockSize k →
       m_data r !! Z.to_nat j = block !! Z.to_nat j)
  ∧ m_acks r = acks0 ++ seen.

(** A fragment as it comes off the wire: the arguments of one
    [ProcessFragment] call. *)
Record Fragment := {
  frag_blockSize : Z;
  frag_numFragments : Z;
  frag_fragmentId : Z;
  frag_fragmentBytes : Z;
  frag_fragmentData : list Byte.byte
}.

Definition receive (asserts : bool) (acc : option t) (f : Fragment) : option t :=
  match acc with
  | None => None
  | Some r =>
      ProcessFragment asserts (frag_blockSize f) (frag_numFragments f) (frag_fragmentId f)
        (frag_fragmentBytes f) (frag_fragmentData f) r
  end.

(** The receiver after the given fragments, one call after the other. *)
Definition receive_all (asserts : bool) (fs : list Fragment) (r : t) : option t :=
  foldl (receive asserts) (Some r) fs.

(** The buffers are as the constructor allocates them: [m_data] of
    [m_maxBlockSize] bytes and one flag for each of the [m_maxFragments]
    fragments of a block of that size. *)
Definition allocated (r : t) : Prop :=
  0 < m_fragmentSize r
  ∧ 0 < m_maxBlockSize r
  ∧ m_maxFragments r = num_fragments_of (m_fragmentSize r) (m_maxBlockSize r)
  ∧ length (m_data r) = Z.to_nat (m_maxBlockSize r)
  ∧ length (m_receivedFragment r) = Z.to_nat (m_maxFragments r).

End DataBlockReceiver.

(** ** DNSResolver *)

Module DNSResolver.

Inductive ResolveStatus :=
  | RESOLVE_IN_PROGRESS
  | RESOLVE_SUCCEEDED
  | RESOLVE_FAILED.

(** An address, and the result of a lookup: the addresses found. *)
Definition Address : Type := Z.
Record ResolveResult := { addresses : list Address }.

(** A [ResolveCallback] is known by a number; [None] is the empty
    [std::function]. *)
Definition ResolveCallback : Type := nat.

(** One call [callback( name, result )]; the result is [nullptr] when the
    lookup failed. *)
Record Invocation := {
  inv_callback : ResolveCallback;
  inv_name : string;
  inv_result : option ResolveResult
}.

(** A [ResolveEntry].  The [future] of the entry is the lookup running on
    another thread; when it is ready and what it returns is not decided by
    the resolver, and is an argument of [Update]. *)
Record ResolveEntry := {
  status : ResolveStatus;
  result : option ResolveResult;
  callbacks : list ResolveCallback
}.

(** The resolver.  [map] and [in_progress] hold pointers to entries that
    [Resolve] allocates with [new]; both maps point to the same entry, so
    the entries live in [heap] and the maps hold their addresses. *)
Record t := Make {
  heap : gmap nat ResolveEntry;
  next : nat;
  map : gmap string nat;
  in_progress : gmap string nat
}.

Definition create : t := Make ∅ 0%nat ∅ ∅.

(** [Resolve( name, callback )]: the resolver afterwards and the callbacks
    called during the call. *)
Definition Resolve (name : string) (callback : option ResolveCallback) (r : t)
    : t * list Invocation :=
  match map r !! name with
  | Some p =>
      match heap r !! p with
      | Some entry =>
          match status entry with
          | RESOLVE_IN_PROGRESS =>
              match callback with
              | Some cb =>
                  (Make (<[p := {| status := status entry; result := result entry;
                                   callbacks := callbacks entry ++ [cb] |}]> (heap r))
                        (next r) (map r) (in_progress r), [])
              | None => (r, [])
              end
          | RESOLVE_SUCCEEDED | RESOLVE_FAILED =>
              match callback with
              | Some cb =>
                  (r, [{| inv_callback := cb; inv_name := name; inv_result := result entry |}])
              | None => (r, [])
              end
          end
      | None => (r, [])
      end
  | None =>
      let entry :=
        {| status := RESOLVE_IN_PROGRESS; result := None;
           callbacks := match callback with Some cb => [cb] | None => [] end |} in
      let p := next r in
      (Make (<[p := entry]> (heap r)) (S p) (<[name := p]> (map r))
            (<[name := p]> (in_progress r)), [])
  end.

(** [Update]: the body of the loop, for the entry of [name].  [ready name]
    is [Some res] when the future of [name] is ready with the value [res]
    ([None] in it is [nullptr]). *)
Definition update_entry (ready : string → option (option ResolveResult))
    (acc : t * list Invocation) (item : string * nat) : t * list Invocation :=
  let '(r, invoked) := acc in
  let '(name, p) := item in
  match heap r !! p, ready name with
  | Some entry, Some res =>
      let entry' :=
        {| status := match res with Some _ => RESOLVE_SUCCEEDED | None => RESOLVE_FAILED end;
           result := res; callbacks := callbacks entry |} in
      (Make (<[p := entry']> (heap r)) (next r) (map r) (delete name (in_progress r)),
       invoked ++ List.map (fun cb => {| inv_callback := cb; inv_name := name;
                                         inv_result := res |}) (callbacks entry))
  | _, _ => acc
  end.

(** [Update( timeBase )]: the entries of [in_progress] are visited once
    each; the order between different names is that of [map_to_list]. *)
Definition Update (ready : string → option (option ResolveResult)) (r : t)
    : t * list Invocation :=
  foldl (update_entry ready) (r, []) (map_to_list (in_progress r)).

(** [GetEntry( name )] *)
Definition GetEntry (name : string) (r : t) : option ResolveEntry :=
  match map r !! name with
  | Some p => heap r !! p
  | None => None
  end.

(** The resolver's maps agree: a name in progress is a name of [map] with
    the same entry, the entries of [map] were allocated (below [next]),
    one per name, and an entry of [map] that is in progress is in
    [in_progress]. *)
Definition resolver_ok (r : t) : Prop :=
  (∀ name p, in_progress r !! name = Some p → map r !! name = Some p)
  ∧ (∀ name p, map r !! name = Some p → (p < next r)%nat)
  ∧ (∀ name1 name2 p, map r !! name1 = Some p → map r !! name2 = Some p → name1 = name2)
  ∧ (∀ name p e, map r !! name = Some p → heap r !! p = Some e →
       status e = RESOLVE_IN_PROGRESS → in_progress r !! name = Some p)
  ∧ (∀ name p, map r !! name = Some p → is_Some (heap r !! p)).

(** The callback waits for the lookup of the name. *)
Definition queued (name : string) (callback : ResolveCallback) (r : t) : Prop :=
  ∃ p e, in_progress r !! name = Some p ∧ heap r !! p = Some e
         ∧ status e = RESOLVE_IN_PROGRESS ∧ callback ∈ callbacks e.

(** The lookup of the name has completed, with the entry [e]. *)
Definition completed (name : string) (e : ResolveEntry) (r : t) : Prop :=
  GetEntry name r = Some e ∧ status e ≠ RESOLVE_IN_PROGRESS.

(** The calls of a host and what they invoke, in order. *)
Inductive Op :=
  | CallResolve (name : string) (callback : option ResolveCallback)
  | CallUpdate (ready : string → option (option ResolveResult)).

Definition call (op : Op) (r : t) : t * list Invocation :=
  match op with
  | CallResolve name callback => Resolve name callback r
  | CallUpdate ready => Update ready r
  end.

Definition run (ops : list Op) (r : t) : t :=
  foldl (fun r op => (call op r).1) r ops.

(** [Clear()]: [map.clear()] and nothing else; the entries and
    [in_progress] stay as they are. *)
Definition Clear (r : t) : t := Make (heap r) (next r) ∅ (in_progress r).

(** The calls [callback( name, entry->result )] of lines 125 and 126 for
    one entry of [in_progress], when its lookup is ready. *)
Definition calls (ready : string → option (option ResolveResult)) (r : t)
    (item : string * nat) : list Invocation :=
  match heap r !! item.2, ready item.1 with
  | Some entry, Some res =>
      (fun cb => {| inv_callback := cb; inv_name := item.1; inv_result := res |})
        <$> callbacks entry
  | _, _ => []
  end.

(** The calls made for the name. *)
Definition calls_for (name : string) (invoked : list Invocation) : list Invocation :=
  filter (fun inv => inv_name inv = name) invoked.

(** The entries agree with their status: an entry holds a result exactly
    when it succeeded, and the entries of [in_progress] are in progress. *)
Definition heap_settled (r : t) : Prop :=
  (∀ p e, heap r !! p = Some e → status e = RESOLVE_SUCCEEDED ↔ is_Some (result e))
  ∧ (∀ name p e, in_progress r !! name = Some p → heap r !! p = Some e →
       status e = RESOLVE_IN_PROGRESS).

(** The entry of a lookup that is ready with [res]. *)
Definition completed_with (res : option ResolveResult) (e : ResolveEntry) : ResolveEntry :=
  {| status := match res with Some _ => RESOLVE_SUCCEEDED | None => RESOLVE_FAILED end;
     result := res; callbacks := callbacks e |}.

(** What a sequence of calls invokes, in order. *)
Fixpoint invocations (ops : list Op) (r : t) : list Invocation :=
  match ops with
  | [] => []
  | op :: ops => (call op r).2 ++ invocations ops (call op r).1
  end.

(** The call is not an [Update] that finds the lookup of the name ready. *)
Definition waits (name : string) (op : Op) : Prop :=
  match op with
  | CallResolve _ _ => True
  | CallUpdate ready => ready name = None
  end.

(** The resolvers that [Resolve], [Update] and [Clear()] calls lead to. *)
Inductive reached : t → Prop :=
  | reached_create : reached create
  | reached_call op r : reached r → reached (call op r).1
  | reached_Clear r : reached r → reached (Clear r).

(** What holds of the maps with [Clear()] among the calls: the entries
    were allocated (below [next]), the names in progress have an entry
    each, an entry of [map] that is in progress is in [in_progress], and
    [map] points to entries. *)
Definition resolver_wf (r : t) : Prop :=
  (∀ name p, map r !! name = Some p → (p < next r)%nat)
  ∧ (∀ name p, in_progress r !! name = Some p → (p < next r)%nat)
  ∧ (∀ name1 name2 p,
       in_progress r !! name1 = Some p → in_progress r !! name2 = Some p → name1 = name2)
  ∧ (∀ name p e, map r !! name = Some p → heap r !! p = Some e →
       status e = RESOLVE_IN_PROGRESS → in_progress r !! name = Some p)
  ∧ (∀ name p, map r !! name = Some p → is_Some (heap r !! p)).

(** The callback waits in the entry of the name, which both maps hold. *)
Definition pending (name : string) (callback : ResolveCallback) (r : t) : Prop :=
  ∃ p e, map r !! name = Some p ∧ in_progress r !! name = Some p
         ∧ heap r !! p = Some e ∧ status e = RESOLVE_IN_PROGRESS ∧ callback ∈ callbacks e.

(** *** DNSResolve_Blocking *)

(** The C string that starts at the first character: it ends before the
    first NUL. *)
Fixpoint c_str (s : string) : string :=
  match s with
  | EmptyString => EmptyString
  | String c s' => if decide (c = Ascii.zero) then EmptyString else String c (c_str s')
  end.

(** The loop of lines 24 to 32: the characters before the first [':'],
    and the characters after it when there is one. *)
Fixpoint split_port (name : string) : string * option string :=
  match name with
  | EmptyString => (EmptyString, None)
  | String c rest =>
      if decide (c = ":"%char) then (EmptyString, Some rest)
      else let '(hostname, digits) := split_port rest in (String c hostname, digits)
  end.

Section Blocking.
(** What the C library and the class [Address] give: [getaddrinfo] with
    the hints [family] and [socktype] ([None] when it fails), [atoi], the
    constructor [Address( p )], [IsValid()] and [SetPort( port )]. *)
Variable addrinfo : Type.
Variable getaddrinfo : string → Z → Z → option (list addrinfo).
Variable atoi : string → Z.
Variable Address_of : addrinfo → Address.
Variable IsValid : Address → bool.
Variable SetPort : Z → Address → Address.

(** [hostname] and [port] as [getaddrinfo] and the loop over the results
    see them. *)
Definition hostname_of (name : string) : string := c_str (split_port name).1.

Definition port_of (name : string) : Z :=
  match (split_port name).2 with
  | Some digits => wrap16 (atoi (c_str digits))
  | None => 0
  end.

(** [DNSResolve_Blocking( name, family, socktype )] *)
Definition DNSResolve_Blocking (name : string) (family socktype : Z) : option ResolveResult :=
  let port := port_of name in
  match getaddrinfo (hostname_of name) family socktype with
  | None => None
  | Some res =>
      let addresses :=
        omap (fun p =>
                let address := Address_of p in
                if IsValid address
                then Some (if port =? 0 then address else SetPort port address)
                else None) res in
      if Z.of_nat (length addresses) =? 0 then None
      else Some {| addresses := addresses |}
  end.

End Blocking.

End DNSResolver.

(** ** Scenarios *)

(** Concrete channels, payloads, blocks and resolver calls, with times in
    milliseconds. *)
Module Scenarios.
Import ReliableMessageChannel.

(** Windows of four entries; the other values are the defaults of
    [ReliableMessageChannelConfig()]. *)
Definition config : ReliableMessageChannelConfig (Time:=Z) :=
  {| resendRate := 100; sendQueueSize := 4; receiveQueueSize := 4; sentPacketsSize := 4;
     maxMessagesPerPacket := 32; maxMessageSize := 64; maxSmallBlockSize := 64;
     packetBudget := 128; giveUpBits := 64; maxType := 15 |}.

(** The defaults of [ReliableMessageChannelConfig()], with 16 message
    types. *)
Definition config_default : ReliableMessageChannelConfig (Time:=Z) :=
  {| resendRate := 100; sendQueueSize := 1024; receiveQueueSize := 256;
     sentPacketsSize := 256; maxMessagesPerPacket := 32; maxMessageSize := 64;
     maxSmallBlockSize := 64; packetBudget := 128; giveUpBits := 64; maxType := 15 |}.

(** The small windows with a resend rate of two seconds. *)
Definition config_slow : ReliableMessageChannelConfig (Time:=Z) :=
  {| resendRate := 2000; sendQueueSize := 4; receiveQueueSize := 4; sentPacketsSize := 4;
     maxMessagesPerPacket := 32; maxMessageSize := 64; maxSmallBlockSize := 64;
     packetBudget := 128; giveUpBits := 64; maxType := 15 |}.

(** The small windows with room for messages of 8 kilobytes. *)
Definition config_large : ReliableMessageChannelConfig (Time:=Z) :=
  {| resendRate := 100; sendQueueSize := 4; receiveQueueSize := 4; sentPacketsSize := 4;
     maxMessagesPerPacket := 32; maxMessageSize := 8192; maxSmallBlockSize := 64;
     packetBudget := 128; giveUpBits := 64; maxType := 15 |}.

(** A message of type 1 with [n] bits of payload, and one as it arrives
    with the id [id]. *)
Definition message (n : nat) : Message :=
  {| msg_type := 1; msg_id := 0; msg_body := replicate n true |}.

Definition arriving (id : Z) : Message := SetId (message 24) id.

Definition after (o : option (Channel (Time:=Z))) : Channel := default (init config) o.

(** Two messages queued, and the first [GetData]. *)
Definition two_queued : Channel :=
  after (exec config [CallSendMessage (message 24); CallSendMessage (message 24)] (init config)).

Definition first_packet : list Message :=
  match GetData config 0 two_queued with
  | Returned (Some ms) _ => ms
  | _ => []
  end.

Definition two_sent : Channel :=
  match GetData config 0 two_queued with
  | Returned _ s => s
  | _ => two_queued
  end.

(** One message queued, and the first [GetData]. *)
Definition one_queued : Channel :=
  after (exec config [CallSendMessage (message 24)] (init config)).

Definition one_sent : Channel :=
  after (exec config [CallSendMessage (message 24); CallGetData 0] (init config)).

(** One message queued at time zero, when resends are two seconds apart. *)
Definition slow_queued : Channel :=
  after (exec config_slow [CallSendMessage (message 24)] (init config_slow)).

(** The default channel after a payload with the message 32800 arrived. *)
Definition far_received : Channel :=
  after (exec config_default [CallProcessData 0 [arriving 32800]] (init config_default)).

(** A payload with an in-window, an early, a late and another in-window
    message, for a fresh channel with the window [0, 3]. *)
Definition mixed_payload : list Message :=
  [arriving 0; arriving 10; arriving 65535; arriving 2].

(** The channel after the payload with message 0 arrived once. *)
Definition once_received : Channel :=
  after (exec config [CallProcessData 0 [arriving 0]] (init config)).

(** The channel of [once_received] five milliseconds later. *)
Definition later_received : Channel (Time:=Z) :=
  after (exec config [CallProcessData 0 [arriving 0]; CallUpdate 5]
           (init config)).

(** One message sent in packet [sequence] and acked. *)
Definition round (sequence : Z) : list (Op (Time:=Z)) :=
  [CallSendMessage (message 24); CallGetData sequence; CallProcessAck sequence].

(** 65535 messages, each sent in packet 1 and acked. *)
Definition rounds : list (Op (Time:=Z)) := concat (replicate (N.to_nat 65535) (round 1)).

(** The calls of [wrap_around] after the first packet. *)
Definition wrap_around_rest : list (Op (Time:=Z)) :=
  [CallProcessAck 0] ++ rounds ++ [CallSendMessage (message 24)].

(** Message 0 goes out in packet 0 and is acked; 65535 more messages go
    out in packet 1, each acked; then one more message is queued, which
    gets the id 0 again.  No [Update]: all of it at time 0. *)
Definition wrap_around : list (Op (Time:=Z)) :=
  [CallSendMessage (message 24); CallGetData 0] ++ wrap_around_rest.

(** One message sent at time 0 and sent again at 100 ms. *)
Definition resend : list (Op (Time:=Z)) :=
  [CallSendMessage (message 24); CallGetData 0; CallUpdate 100; CallGetData 1].

Definition wrapped : Channel :=
  Eval vm_compute in
    after (N.iter 65535 (fun o => o ≫= exec config (round 1)) (exec config (round 0) (init config))
           ≫= exec config [CallSendMessage (message 24)]).

(** The channel after [wrap_around] and one more [GetData]. *)
Definition wrapped_sent : Channel :=
  match GetData config 2 wrapped with
  | Returned _ s => s
  | _ => wrapped
  end.

(** A block of five bytes in fragments of two, for a receiver of blocks of
    eight bytes at most; the fragments arrive as 2, 0, 1, 0. *)
Definition block : list Byte.byte := [Byte.x01; Byte.x02; Byte.x03; Byte.x04; Byte.x05].
Definition memory : list Byte.byte := replicate 8 Byte.x00.
Definition arrival : list Z := [2; 0; 1; 0].

(** Every lookup is ready, with one address. *)
Definition all_ready : string → option (option DNSResolver.ResolveResult) :=
  fun _ => Some (Some {| DNSResolver.addresses := [1] |}).

(** A resolver in which the lookup of the name has completed. *)
Definition resolved : DNSResolver.t :=
  DNSResolver.run
    [DNSResolver.CallResolve "localhost" (Some 1%nat); DNSResolver.CallUpdate all_ready]
    DNSResolver.create.

(** A resolver with a lookup in progress and an empty cache. *)
Definition cleared : DNSResolver.t :=
  DNSResolver.Clear (DNSResolver.Resolve "localhost" (Some 1%nat) DNSResolver.create).1.

(** No lookup is ready. *)
Definition none_ready : string → option (option DNSResolver.ResolveResult) := fun _ => None.

(** The channel after [resend]. *)
Definition resent : Channel := after (exec config resend (init config)).

(** Three messages that arrive as 2, 0, 1. *)
Definition shuffled : list Message := [arriving 2; arriving 0; arriving 1].

(** The last fragment of [block], and a fragment of a block of nine bytes,
    one more than the receiver takes. *)
Definition last_fragment : DataBlockReceiver.Fragment :=
  {| DataBlockReceiver.frag_blockSize := 5; DataBlockReceiver.frag_numFragments := 3;
     DataBlockReceiver.frag_fragmentId := 2; DataBlockReceiver.frag_fragmentBytes := 1;
     DataBlockReceiver.frag_fragmentData := [Byte.x05] |}.

Definition oversized : DataBlockReceiver.Fragment :=
  {| DataBlockReceiver.frag_blockSize := 9; DataBlockReceiver.frag_numFragments := 5;
     DataBlockReceiver.frag_fragmentId := 0; DataBlockReceiver.frag_fragmentBytes := 2;
     DataBlockReceiver.frag_fragmentData := [Byte.x01; Byte.x02] |}.

(** The first fragment of [block], and a fragment that claims two bytes
    where the block has one left. *)
Definition first_fragment : DataBlockReceiver.Fragment :=
  {| DataBlockReceiver.frag_blockSize := 5; DataBlockReceiver.frag_numFragments := 3;
     DataBlockReceiver.frag_fragmentId := 0; DataBlockReceiver.frag_fragmentBytes := 2;
     DataBlockReceiver.frag_fragmentData := [Byte.x01; Byte.x02] |}.

Definition overlong : DataBlockReceiver.Fragment :=
  {| DataBlockReceiver.frag_blockSize := 5; DataBlockReceiver.frag_numFragments := 3;
     DataBlockReceiver.frag_fragmentId := 2; DataBlockReceiver.frag_fragmentBytes := 2;
     DataBlockReceiver.frag_fragmentData := [Byte.x05; Byte.x06] |}.

(** A fragment with an id past the last fragment of the block. *)
Definition stray : DataBlockReceiver.Fragment :=
  {| DataBlockReceiver.frag_blockSize := 5; DataBlockReceiver.frag_numFragments := 3;
     DataBlockReceiver.frag_fragmentId := 7; DataBlockReceiver.frag_fragmentBytes := 1;
     DataBlockReceiver.frag_fragmentData := [Byte.x07] |}.

(** A receiver that has seen the last fragment of another block. *)
Definition used : DataBlockReceiver.t :=
  default (DataBlockReceiver.create memory 2 8)
    (DataBlockReceiver.receive_all true [last_fragment] (DataBlockReceiver.create memory 2 8)).

(** Two callbacks wait for one name. *)
Definition asked_twice : list DNSResolver.Op :=
  [DNSResolver.CallResolve "localhost" (Some 1%nat);
   DNSResolver.CallResolve "localhost" (Some 2%nat)].

(** A name server that knows one host, with three addresses of which the
    second is not valid; an [atoi] that reads 8080; addresses that are
    valid when they are not 0 and take the port in their upper bits. *)
Definition known_host (hostname : string) (family socktype : Z) : option (list Z) :=
  if decide (hostname = "localhost") then Some [1; 0; 2] else None.

Definition reads_8080 (digits : string) : Z := 8080.

Definition valid_address (a : DNSResolver.Address) : bool := negb (a =? 0).

Definition with_port (port : Z) (a : DNSResolver.Address) : DNSResolver.Address :=
  a + 256 * port.

End Scenarios.

(** * Properties *)

(** ** The sliding window *)

Module WindowFacts.
Import SlidingWindow.

Section Facts.
Context {T : Type} {WE : WindowEntry T}.

Lemma Find_Some (w : t T) seq e :
  Find w seq = Some e ↔
  slot w seq = Some e ∧ entry_valid e = true ∧ entry_sequence e = seq.
Proof.
  unfold Find. destruct (slot w seq) as [x|].
  - destruct (entry_valid x) eqn:Hv; simpl.
    + destruct (Z.eqb_spec (entry_sequence x) seq) as [Hq|Hq].
      * split; [intros [= <-]; done|]. by intros [[= <-] _].
      * split; [done|]. intros [[= <-] [_ ?]]. done.
    + split; [done|]. intros [[= <-] [? _]]. congruence.
  - split; [done|]. by intros [? _].
Qed.

Lemma Find_None_slot (w : t T) seq : slot w seq = None → Find w seq = None.
Proof. unfold Find. by intros ->. Qed.

Lemma size_store (w : t T) seq e : m_size (store w seq e) = m_size w.
Proof. done. Qed.

Lemma index_store (w : t T) seq e seq' : index (store w seq e) seq' = index w seq'.
Proof. done. Qed.

Lemma length_store (w : t T) seq e :
  length (m_entries (store w seq e)) = length (m_entries w).
Proof. apply length_insert. Qed.

Lemma slot_store_same (w : t T) seq e seq' :
  index w seq' = index w seq → is_Some (slot w seq) →
  slot (store w seq e) seq' = Some e.
Proof.
  unfold slot, store; simpl. intros Hi [x Hx]. unfold index in *; simpl.
  rewrite Hi. apply list_lookup_insert_eq. by eapply lookup_lt_Some.
Qed.

Lemma slot_store_other (w : t T) seq e seq' :
  index w seq' ≠ index w seq →
  slot (store w seq e) seq' = slot w seq'.
Proof.
  unfold slot, store; simpl. intros Hi. unfold index in *; simpl.
  by apply list_lookup_insert_ne.
Qed.

(** Writing back an entry that keeps the [valid] bit and the sequence of
    the entry found: only the lookup of that sequence changes. *)
Lemma Find_store_found (w : t T) seq e e' seq' :
  Find w seq = Some e →
  entry_valid e' = true → entry_sequence e' = seq →
  Find (store w seq e') seq' = if decide (seq' = seq) then Some e' else Find w seq'.
Proof.
  intros [Hs [Hv Hq]]%Find_Some Hv' Hq'.
  destruct (decide (index w seq' = index w seq)) as [Hi|Hi].
  - unfold Find at 1. rewrite slot_store_same; [|done|by eexists].
    rewrite Hv', Hq'. simpl. case_decide as Hd.
    + subst seq'. by rewrite Z.eqb_refl.
    + destruct (Z.eqb_spec seq seq'); [congruence|].
      symmetry. unfold Find, slot. rewrite Hi. unfold slot in Hs. rewrite Hs.
      rewrite Hv, Hq. simpl. by destruct (Z.eqb_spec seq seq'); [congruence|].
  - unfold Find at 1. rewrite slot_store_other by done.
    case_decide; [congruence|done].
Qed.

(** Clearing the [valid] bit of the entry found. *)
Lemma Find_store_released (w : t T) seq e e' seq' :
  Find w seq = Some e →
  entry_valid e' = false →
  Find (store w seq e') seq' = if decide (seq' = seq) then None else Find w seq'.
Proof.
  intros [Hs [Hv Hq]]%Find_Some Hv'.
  destruct (decide (index w seq' = index w seq)) as [Hi|Hi].
  - unfold Find at 1. rewrite slot_store_same; [|done|by eexists].
    rewrite Hv'. simpl. case_decide as Hd; [done|].
    symmetry. unfold Find, slot. rewrite Hi. unfold slot in Hs. rewrite Hs.
    rewrite Hv, Hq. simpl. by destruct (Z.eqb_spec seq seq'); [congruence|].
  - unfold Find at 1. rewrite slot_store_other by done.
    case_decide; [congruence|done].
Qed.

Lemma Forall_store (P : T → Prop) (w : t T) seq e :
  Forall P (m_entries w) → P e → Forall P (m_entries (store w seq e)).
Proof. intros. by apply Forall_insert. Qed.

Lemma Forall_slot (P : T → Prop) (w : t T) seq e :
  Forall P (m_entries w) → slot w seq = Some e → P e.
Proof. intros HP Hs. eapply Forall_lookup_1; eauto. Qed.

Lemma Forall_Find (P : T → Prop) (w : t T) seq e :
  Forall P (m_entries w) → Find w seq = Some e → P e.
Proof. intros HP [Hs _]%Find_Some. by eapply Forall_slot. Qed.

Lemma Insert_true (w : t T) e w' :
  Insert w e = (true, w') → w' = store w (entry_sequence e) e ∧ is_Some (slot w (entry_sequence e)).
Proof.
  unfold Insert. destruct (HasSlotAvailable w (entry_sequence e)) eqn:Ha; [|done].
  intros [= <-]. split; [done|]. unfold HasSlotAvailable in Ha.
  destruct (slot w (entry_sequence e)); [by eexists|done].
Qed.

Lemma Insert_false (w : t T) e w' : Insert w e = (false, w') → w' = w.
Proof. unfold Insert. destruct (HasSlotAvailable _ _); by intros [= <-]. Qed.

Lemma Forall_create (P : T → Prop) size : P entry_default → Forall P (m_entries (create size)).
Proof. intros. by apply Forall_replicate. Qed.

Lemma Find_store_ne (w : t T) seq e seq' x :
  entry_sequence e ≠ seq' →
  Find (store w seq e) seq' = Some x → Find w seq' = Some x.
Proof.
  intros Hne (Hs & Hv & Hq)%Find_Some.
  destruct (decide (index w seq' = index w seq)) as [Hi|Hi].
  - unfold slot, store in Hs; simpl in Hs. unfold index in *; simpl in *. rewrite Hi in Hs.
    destruct (decide (Z.to_nat (seq mod m_size w) < length (m_entries w))%nat).
    + rewrite list_lookup_insert_eq in Hs by done. congruence.
    + rewrite list_insert_ge in Hs by lia. rewrite lookup_ge_None_2 in Hs by lia. done.
  - rewrite slot_store_other in Hs by done. by apply Find_Some.
Qed.

End Facts.
End WindowFacts.

(** ** The reliable message channel *)

Module ChannelFacts.
Import SlidingWindow WindowFacts ReliableMessageChannel.

Lemma wrap16_range z : 0 <= wrap16 z < 65536.
Proof. unfold wrap16. apply Z.mod_pos_bound. lia. Qed.

Lemma wrap16_idem z : wrap16 (wrap16 z) = wrap16 z.
Proof. unfold wrap16. apply Z.mod_mod. lia. Qed.

Lemma wrap16_small z : 0 <= z < 65536 → wrap16 z = z.
Proof. unfold wrap16. intros. by apply Z.mod_small. Qed.

Lemma GetId_SetId m id : GetId (SetId m id) = wrap16 id.
Proof. unfold GetId, SetId; simpl. apply wrap16_idem. Qed.

Ltac range16 :=
  first [ lia
        | match goal with
          | |- context [wrap16 ?z] => pose proof (wrap16_range z); lia
          end ].

Ltac split_ok :=
  unfold channel_ok; simpl; split; [|split; [|split; [|split]]]; try done; try range16.

Section Facts.
Context {Time : Type} {clock : Clock Time}.
Local Abbreviation Config := (@ReliableMessageChannelConfig Time).
Local Abbreviation Channel := (@Channel Time).
Local Abbreviation SendQueue := (t (@SendQueueEntry Time)).
Variable m_config : Config.

(** *** The queues stay well formed *)

Lemma sq_entry_ok_default : sq_entry_ok (entry_default (T:=SendQueueEntry)).
Proof. by intros ?. Qed.

Lemma rq_entry_ok_default : rq_entry_ok (entry_default (T:=ReceiveQueueEntry)).
Proof. by intros ?. Qed.

Lemma channel_ok_init : channel_ok (init m_config).
Proof.
  split_ok.
  - apply Forall_replicate, sq_entry_ok_default.
  - apply Forall_replicate, rq_entry_ok_default.
  - split; [done|]. repeat constructor; lia.
Qed.

Lemma wrap64_range z : 0 <= wrap64 z < 18446744073709551616.
Proof. unfold wrap64. apply Z.mod_pos_bound. lia. Qed.

Lemma counters_ok_add_counter c n (s : Channel) :
  counters_ok s → counters_ok (add_counter c n s).
Proof.
  intros [Hl Hr]. split; simpl.
  - by rewrite length_insert.
  - apply Forall_insert; [done|]. apply wrap64_range.
Qed.

Lemma channel_ok_add_counter c n (s : Channel) :
  channel_ok s → channel_ok (add_counter c n s).
Proof.
  intros (Hsq & Hrq & Hr & Hs & Hc). split_ok.
  by apply counters_ok_add_counter.
Qed.

Lemma GetCounter_add_counter c c' n (s : Channel) :
  counters_ok s →
  GetCounter c (add_counter c' n s)
  = if decide (c = c') then wrap64 (GetCounter c s + n) else GetCounter c s.
Proof.
  intros [Hl _]. unfold GetCounter, add_counter; simpl.
  case_decide as Hd.
  - subst c'. rewrite list_lookup_insert_eq; [done|].
    rewrite Hl. destruct c; compute; lia.
  - rewrite list_lookup_insert_ne; [done|]. by destruct c, c'.
Qed.

Lemma GetCounter_range c (s : Channel) :
  counters_ok s → 0 <= GetCounter c s < 18446744073709551616.
Proof.
  intros [Hl Hr]. unfold GetCounter.
  destruct (m_counters s !! counter_index c) as [v|] eqn:Hv; simpl; [|lia].
  eapply Forall_lookup_1 in Hr; eauto.
Qed.

Lemma wrap64_add_l a b : wrap64 (wrap64 a + b) = wrap64 (a + b).
Proof. unfold wrap64. apply Zplus_mod_idemp_l. Qed.

Lemma wrap64_small z : 0 <= z < 18446744073709551616 → wrap64 z = z.
Proof. intros. unfold wrap64. by apply Z.mod_small. Qed.

Lemma SendMessage_ok message (s : Channel) :
  channel_ok s →
  match SendMessage m_config message s with
  | Returned _ s' | Raised _ s' =>
      channel_ok s' ∧ m_receiveMessageId s' = m_receiveMessageId s
  | Aborted => True
  end.
Proof.
  intros Hok. unfold SendMessage.
  destruct (negb (HasSlotAvailable _ _)); [done|].
  destruct (Insert _ _) as [[] q] eqn:Hins; simpl; [|done].
  apply Insert_true in Hins as [-> _].
  destruct (Find _ _) as [entry|] eqn:Hf; [|done].
  destruct (negb _); [done|].
  destruct Hok as (Hsq & Hrq & Hr & Hs & Hc). split; [|done].
  split_ok; [|by apply counters_ok_add_counter].
  assert (Hnew : Forall sq_entry_ok (m_entries (store (m_sendQueue s)
      (entry_sequence (SendQueueEntry_new (SetId message (m_sendMessageId s)) (m_sendMessageId s)))
      (SendQueueEntry_new (SetId message (m_sendMessageId s)) (m_sendMessageId s))))).
  { apply Forall_store; [done|]. intros _. eexists. split; [done|]. simpl.
    apply GetId_SetId. }
  apply Forall_store; [done|].
  eapply Forall_Find in Hf; [|exact Hnew]. exact Hf.
Qed.

(** [ReceiveMessage] on a well-formed channel: it returns, and a message
    it returns is the one stored under [m_receiveMessageId], carries that
    id, and moves [m_receiveMessageId] on by one. *)
Lemma ReceiveMessage_spec (s : Channel) :
  channel_ok s →
  ∃ r s', ReceiveMessage s = Returned r s'
    ∧ channel_ok s'
    ∧ match r with
      | None => s' = s ∧ Find (m_receiveQueue s) (m_receiveMessageId s) = None
      | Some m =>
          GetId m = m_receiveMessageId s
          ∧ (∃ entry, Find (m_receiveQueue s) (m_receiveMessageId s) = Some entry
                      ∧ rq_message entry = Some m)
          ∧ m_receiveMessageId s' = wrap16 (m_receiveMessageId s + 1)
          ∧ Find (m_receiveQueue s') (m_receiveMessageId s) = None
          ∧ GetCounter MessagesReceived s' = wrap64 (GetCounter MessagesReceived s + 1)
      end.
Proof.
  intros Hok. pose proof Hok as (Hsq & Hrq & Hr & Hs & Hc). unfold ReceiveMessage.
  destruct (Find _ _) as [entry|] eqn:Hf; [|by exists None, s].
  pose proof (Forall_Find _ _ _ _ Hrq Hf) as Hentry.
  pose proof Hf as (_ & Hv & Hq)%Find_Some.
  destruct (Hentry Hv) as (m & Hm & Hid). rewrite Hm. simpl in Hq.
  rewrite Hid, Hq, Z.eqb_refl. simpl.
  eexists (Some m), _. split; [done|]. split.
  { split_ok; [|by apply counters_ok_add_counter].
    apply Forall_store; [done|]. by intros ?. }
  simpl. split_and!; try done; try congruence.
  - eauto.
  - rewrite (Find_store_released _ _ entry) by done. by rewrite decide_True.
  - change (GetCounter ?c (set_receiveMessageId ?i ?x)) with (GetCounter c x).
    rewrite GetCounter_add_counter by done. by rewrite decide_True.
Qed.

(** *** What [GetData] does to the send queue *)

Lemma touched_refl now (q : SendQueue) : touched m_config now q q.
Proof.
  split; [done|]. apply Forall2_same_length_lookup. split; [done|].
  intros i x y Hx Hy. left. congruence.
Qed.

Lemma touched_trans now (q1 q2 q3 : SendQueue) :
  touched m_config now q1 q2 → touched m_config now q2 q3 → touched m_config now q1 q3.
Proof.
  intros [Hs1 H1] [Hs2 H2]. split; [congruence|].
  revert H2. generalize (m_entries q3). induction H1 as [|e e' l l' He _ IH]; intros l3 H2.
  - by inversion H2.
  - inversion H2 as [|? e'' ? l'' He' Hl']; subst. constructor; [|by apply IH].
    destruct He as [->|[-> Hle]], He' as [->|[-> Hle']]; auto.
Qed.

Lemma touched_store now (q : SendQueue) id e :
  Find q id = Some e →
  t_le (t_add (sq_timeLastSent e) (resendRate m_config)) now = true →
  touched m_config now q (store q id (set_timeLastSent now e)).
Proof.
  intros (Hs & _)%Find_Some Hle. split; [done|]. simpl. unfold slot in Hs.
  apply Forall2_same_length_lookup. split; [by rewrite length_insert|].
  intros i x y Hx Hy. destruct (decide (i = index q id)) as [->|Hne].
  - rewrite list_lookup_insert_eq in Hy by (by eapply lookup_lt_Some).
    right. split; congruence.
  - rewrite list_lookup_insert_ne in Hy by done. left. congruence.
Qed.

Lemma touched_Find now (q q' : SendQueue) id e :
  touched m_config now q q' → Find q id = Some e →
  ∃ e', Find q' id = Some e'
        ∧ (e' = e
           ∨ (e' = set_timeLastSent now e
              ∧ t_le (t_add (sq_timeLastSent e) (resendRate m_config)) now = true)).
Proof.
  intros [Hs Hall] (Hsl & Hv & Hq)%Find_Some. unfold slot in Hsl.
  destruct (Forall2_lookup_l _ _ _ _ _ Hall Hsl) as (e' & He' & Hrel).
  exists e'. split; [|done]. apply Find_Some. unfold slot, index. rewrite Hs.
  split; [done|]. by destruct Hrel as [->|[-> _]].
Qed.

Lemma touched_Find_inv now (q q' : SendQueue) id e' :
  touched m_config now q q' → Find q' id = Some e' →
  ∃ e, Find q id = Some e
       ∧ (e' = e
          ∨ (e' = set_timeLastSent now e
             ∧ t_le (t_add (sq_timeLastSent e) (resendRate m_config)) now = true)).
Proof.
  intros [Hs Hall] (Hsl & Hv & Hq)%Find_Some. unfold slot, index in Hsl. rewrite Hs in Hsl.
  destruct (Forall2_lookup_r _ _ _ _ _ Hall Hsl) as (e & He & Hrel).
  exists e. split; [|done]. apply Find_Some. unfold slot, index.
  split; [done|]. by destruct Hrel as [->|[-> _]].
Qed.

Lemma touched_Find_None now (q q' : SendQueue) id :
  touched m_config now q q' → Find q id = None → Find q' id = None.
Proof.
  intros Ht Hn. destruct (Find q' id) as [e'|] eqn:Hf; [|done].
  destruct (touched_Find_inv _ _ _ _ _ Ht Hf) as (e & He & _). congruence.
Qed.

Lemma touched_measured now (q q' : SendQueue) ids :
  touched m_config now q q' → measured q' ids = measured q ids.
Proof.
  intros Ht. induction ids as [|id ids IH]; [done|]. simpl. rewrite IH.
  destruct (Find q id) as [e|] eqn:Hf.
  - destruct (touched_Find _ _ _ _ _ Ht Hf) as (e' & -> & [->|[-> _]]); done.
  - by rewrite (touched_Find_None _ _ _ _ Ht Hf).
Qed.

Lemma touched_ok now (q q' : SendQueue) :
  touched m_config now q q' → Forall sq_entry_ok (m_entries q) → Forall sq_entry_ok (m_entries q').
Proof.
  intros [_ Hall] Hok. induction Hall as [|e e' l l' He _ IH]; [done|].
  inversion Hok; subst. constructor; [|by apply IH].
  by destruct He as [->|[-> _]].
Qed.

Lemma measured_app (q : SendQueue) ids1 ids2 :
  measured q (ids1 ++ ids2) = measured q ids1 + measured q ids2.
Proof.
  induction ids1 as [|id ids1 IH]; simpl; [done|].
  rewrite IH. destruct (Find q id); lia.
Qed.

(** The gathering loop: the queue is touched only, and every id it adds
    names an entry that passed the resend test, fits the bits left, and
    carries the time of the call afterwards. *)
Lemma gather_spec now oldest todo avail ids q avail' ids' q' :
  gather m_config now oldest todo avail ids q = Some (avail', ids', q') →
  touched m_config now q q'
  ∧ ∃ sel, ids' = ids ++ sel
      ∧ avail' = avail - measured q sel
      ∧ (sel ≠ [] → 0 <= avail')
      ∧ (Z.of_nat (length ids) <= maxMessagesPerPacket m_config →
         Z.of_nat (length ids') <= maxMessagesPerPacket m_config)
      ∧ Forall (fun id => ∃ e, Find q id = Some e
                  ∧ t_le (t_add (sq_timeLastSent e) (resendRate m_config)) now = true) sel
      ∧ Forall (fun id => ∃ e', Find q' id = Some e' ∧ sq_timeLastSent e' = now) sel
      ∧ (sel = [] → q' = q)
      ∧ (∀ k, (∀ id, id ∈ sel → index q id ≠ k) → m_entries q' !! k = m_entries q !! k).
Proof.
  revert avail ids q. induction todo as [|i todo IH]; intros avail ids q Hg; simpl in Hg.
  { injection Hg as <- <- <-. split; [apply touched_refl|].
    exists []. rewrite app_nil_r. simpl. split_and!; try done; lia. }
  destruct (avail <? giveUpBits m_config).
  { injection Hg as <- <- <-. split; [apply touched_refl|].
    exists []. rewrite app_nil_r. simpl. split_and!; try done; lia. }
  destruct (Find q (wrap16 (oldest + i))) as [entry|] eqn:Hf.
  2:{ destruct (Z.of_nat (length ids) =? maxMessagesPerPacket m_config).
      - injection Hg as <- <- <-. split; [apply touched_refl|].
        exists []. rewrite app_nil_r. simpl. split_and!; try done; lia.
      - by apply IH. }
  destruct (may_include m_config now avail entry) eqn:Hinc.
  2:{ destruct (Z.of_nat (length ids) =? maxMessagesPerPacket m_config).
      - injection Hg as <- <- <-. split; [apply touched_refl|].
        exists []. rewrite app_nil_r. simpl. split_and!; try done; lia.
      - by apply IH. }
  destruct (Z.ltb_spec (Z.of_nat (length ids)) (maxMessagesPerPacket m_config)) as [Hlt|]; [|done].
  set (id := wrap16 (oldest + i)) in *.
  set (q1 := store q id (set_timeLastSent now entry)) in *.
  apply andb_true_iff in Hinc as [Hle Hfit]. apply Z.leb_le in Hfit.
  assert (Ht1 : touched m_config now q q1) by by apply touched_store.
  pose proof Hf as (_ & Hv & Hq)%Find_Some.
  assert (Hst : ∀ x, Find q1 x = if decide (x = id) then Some (set_timeLastSent now entry)
                                 else Find q x).
  { intros x. unfold q1. by apply (Find_store_found _ _ entry). }
  assert (Hf1 : Find q1 id = Some (set_timeLastSent now entry)).
  { by rewrite Hst, decide_True. }
  assert (Hsel1 : ∀ q2, touched m_config now q1 q2 →
            ∃ e', Find q2 id = Some e' ∧ sq_timeLastSent e' = now).
  { intros q2 Ht2. destruct (touched_Find _ _ _ _ _ Ht2 Hf1) as (e' & He' & [->|[-> _]]); eauto. }
  assert (Hm1 : measured q [id] = sq_measuredBits entry) by (simpl; rewrite Hf; lia).
  destruct (Z.of_nat (length (ids ++ [id])) =? maxMessagesPerPacket m_config) eqn:Hfull.
  - injection Hg as <- <- <-. split; [done|].
    exists [id]. split_and!; try done.
    + lia.
    + intros _. apply Z.eqb_eq in Hfull. lia.
    + repeat constructor. eauto.
    + repeat constructor. apply Hsel1, touched_refl.
    + intros k Hk. unfold q1; simpl. apply list_lookup_insert_ne.
      apply Hk. by apply list_elem_of_singleton.
  - apply IH in Hg as (Ht2 & sel & -> & -> & Hpos & Hlen & Hpre & Hpost & _ & Hrest).
    split; [by eapply touched_trans|].
    exists (id :: sel). split_and!.
    + by rewrite <- app_assoc.
    + change (id :: sel) with ([id] ++ sel). rewrite measured_app, Hm1.
      rewrite (touched_measured _ _ _ sel Ht1). lia.
    + intros _. destruct sel as [|x sel]; [simpl; lia|]. by apply Hpos.
    + intros _. apply Hlen. rewrite length_app. simpl. lia.
    + constructor; [eauto|]. eapply Forall_impl; [exact Hpre|].
      intros x (e1 & He1 & Hle1). simpl in *.
      destruct (touched_Find_inv _ _ _ _ _ Ht1 He1) as (e0 & He0 & [->|[-> _]]); [eauto|].
      rewrite Hst in He1.
      case_decide as Hx; [subst x; eauto|]. rewrite He0 in He1.
      injection He1 as He1. exists e0. by rewrite He1 at 2.
    + constructor; [by apply Hsel1|done].
    + done.
    + intros k Hk. rewrite Hrest.
      * unfold q1; simpl. apply list_lookup_insert_ne. apply Hk. by left.
      * intros x Hx. apply (Hk x). by right.
Qed.

Lemma payload_spec (q : SendQueue) ids ms :
  payload q ids = Some ms →
  Forall2 (fun id m => ∃ e, Find q id = Some e ∧ sq_message e = Some m) ids ms.
Proof.
  revert ms. induction ids as [|id ids IH]; intros ms Hp; simpl in Hp.
  - injection Hp as <-. constructor.
  - destruct (Find q id) as [e|] eqn:Hf; [|done].
    destruct (sq_message e) as [m|] eqn:Hm; [|done].
    destruct (payload q ids) as [ms'|]; [|done].
    injection Hp as <-. constructor; eauto.
Qed.

Lemma set_sendQueue_same (s : Channel) : set_sendQueue (m_sendQueue s) s = s.
Proof. by destruct s. Qed.

Lemma gathered_nil now (q : SendQueue) : gathered m_config now q [] q.
Proof.
  split_and!; try done. apply touched_refl.
Qed.

(** [GetData] when it returns: the ids it selected, the send queue it
    leaves, and the entry it records for the packet. *)
Lemma GetData_spec sequence (s : Channel) r s' :
  GetData m_config sequence s = Returned r s' →
  ∃ sel,
    gathered m_config (m_timeBase s) (m_sendQueue s) sel (m_sendQueue s')
    ∧ m_timeBase s' = m_timeBase s
    ∧ m_sendMessageId s' = m_sendMessageId s
    ∧ m_receiveMessageId s' = m_receiveMessageId s
    ∧ m_receiveQueue s' = m_receiveQueue s
    ∧ (counters_ok s → counters_ok s')
    ∧ match r with
      | None => sel = [] ∧ s' = s
      | Some ms =>
          sel ≠ []
          ∧ Z.of_nat (length sel) <= maxMessagesPerPacket m_config
          ∧ payload (m_sendQueue s') sel = Some ms
          ∧ ∃ packet, slot (m_sentPackets s') sequence = Some packet
              ∧ sp_messageIds packet = sel
              ∧ sp_acked packet = false
              ∧ sp_timeSent packet = m_timeBase s
      end.
Proof.
  unfold GetData. destruct (find_oldest m_config s) as [found oldest].
  destruct found; simpl.
  2:{ intros [= <- <-]. exists []. split_and!; try done. apply gathered_nil. }
  destruct (gather _ _ _ _ _ _ _) as [[[avail sel] q']|] eqn:Hg; [|done].
  apply gather_spec in Hg as (Ht & sel' & Hsel & Hav & Hpos & _ & Hpre & Hpost & Hsame & Hrest).
  simpl in Hsel. subst sel'.
  assert (Hgath : gathered m_config (m_timeBase s) (m_sendQueue s) sel q').
  { split_and!; try done. intros Hne. specialize (Hpos Hne). lia. }
  destruct (Z.leb_spec (Z.of_nat (length sel)) (maxMessagesPerPacket m_config)); simpl; [|done].
  destruct (Z.eqb_spec (Z.of_nat (length sel)) 0) as [Hz|Hnz].
  - intros [= <- <-]. exists sel. simpl.
    destruct sel; [|done]. rewrite (Hsame eq_refl) in *.
    split_and!; try done. apply set_sendQueue_same.
  - destruct (slot _ _) as [packet|] eqn:Hslot; [|done].
    destruct (payload _ _) as [ms|] eqn:Hp; [|done].
    intros [= <- <-]. exists sel. simpl in *.
    split_and!; try done.
    + intros Hc. by apply (counters_ok_add_counter _ _ (set_sentPackets _ (set_sendQueue q' s))).
    + intros ->. simpl in Hnz. lia.
    + eexists. split; [apply slot_store_same; [done|by eexists]|done].
Qed.

(** *** [ProcessData] *)

Lemma in_window_rid (s s' : Channel) m :
  m_receiveMessageId s' = m_receiveMessageId s →
  is_late s' m = is_late s m ∧ is_above m_config s' m = is_above m_config s m.
Proof. intros Hr. unfold is_late, is_above. by rewrite Hr. Qed.

Lemma count_of_cons f m data :
  count_of f (m :: data) = (if f m then 1 else 0) + count_of f data.
Proof.
  unfold count_of. rewrite filter_cons.
  destruct (f m); case_decide; try done; simpl length; lia.
Qed.

(** The state of the loop of [ProcessData] after the messages [data],
    started in [s] with the flag [early]; [s0] is the channel at the call. *)
Lemma process_fold (s0 : Channel) data : ∀ early (s : Channel),
  channel_ok s →
  m_receiveMessageId s = m_receiveMessageId s0 →
  m_timeBase s = m_timeBase s0 →
  ∀ early' s',
  foldl (process_message (m_receiveMessageId s0)
           (wrap16 (m_receiveMessageId s0 + receiveQueueSize m_config - 1)))
    (Some (early, s)) data = Some (early', s') →
  channel_ok s'
  ∧ m_receiveMessageId s' = m_receiveMessageId s
  ∧ m_sendMessageId s' = m_sendMessageId s
  ∧ m_sendQueue s' = m_sendQueue s
  ∧ m_sentPackets s' = m_sentPackets s
  ∧ m_timeBase s' = m_timeBase s
  ∧ early' = early || existsb (is_early m_config s0) data
  ∧ GetCounter MessagesRead s' = wrap64 (GetCounter MessagesRead s + Z.of_nat (length data))
  ∧ GetCounter MessagesDiscardedLate s'
    = wrap64 (GetCounter MessagesDiscardedLate s + count_of (is_late s0) data)
  ∧ GetCounter MessagesDiscardedEarly s'
    = wrap64 (GetCounter MessagesDiscardedEarly s + count_of (is_early m_config s0) data)
  ∧ GetCounter MessagesSent s' = GetCounter MessagesSent s
  ∧ GetCounter MessagesWritten s' = GetCounter MessagesWritten s
  ∧ GetCounter MessagesReceived s' = GetCounter MessagesReceived s
  ∧ (∀ id e', Find (m_receiveQueue s') id = Some e' →
       Find (m_receiveQueue s) id = Some e'
       ∨ ∃ m, m ∈ data ∧ in_window m_config s0 m = true ∧ GetId m = id
              ∧ e' = ReceiveQueueEntry_new m (GetId m) (m_timeBase s0)).
Proof.
  induction data as [|m data IH]; intros early s Hok Hrid Htime early' s' Hfold.
  { simpl in Hfold. injection Hfold as <- <-.
    assert (Hc : counters_ok s) by apply Hok.
    rewrite orb_false_r, !Z.add_0_r, !wrap64_small by by apply GetCounter_range.
    split_and!; try done. intros; by left. }
  change (foldl ?f ?a (m :: data)) with (foldl f (f a m) data) in Hfold.
  destruct (process_message _ _ (Some (early, s)) m) as [[early1 s1]|] eqn:Hstep.
  2:{ clear -Hfold. exfalso. induction data; simpl in *; [done|auto]. }
  assert (Hc : counters_ok s) by apply Hok.
  unfold process_message in Hstep.
  fold (is_late s0 m) in Hstep. fold (is_above m_config s0 m) in Hstep.
  rewrite !count_of_cons. simpl existsb. unfold is_early at 1 3, in_window.
  destruct (is_late s0 m) eqn:Hlate; simpl in *.
  - injection Hstep as <- <-.
    eapply IH in Hfold as (Hok' & -> & -> & -> & -> & -> & -> & -> & -> & -> & -> & -> & -> & Hprov);
      [|by do 2 apply channel_ok_add_counter|done..].
    assert (counters_ok (add_counter MessagesDiscardedLate 1 s)) by by apply counters_ok_add_counter.
    rewrite !GetCounter_add_counter by done. simpl.
    rewrite !wrap64_add_l.
    split_and!; try done; try (f_equal; lia).
    intros id e' Hf. destruct (Hprov id e' Hf) as [?|(m' & ? & ? & ? & ?)]; [by left|].
    right. exists m'. split_and!; try done. by right.
  - destruct (is_above m_config s0 m) eqn:Habove; simpl in *.
    + injection Hstep as <- <-.
      eapply IH in Hfold as (Hok' & -> & -> & -> & -> & -> & -> & -> & -> & -> & -> & -> & -> & Hprov);
        [|by do 2 apply channel_ok_add_counter|done..].
      assert (counters_ok (add_counter MessagesDiscardedEarly 1 s)) by by apply counters_ok_add_counter.
      rewrite !GetCounter_add_counter by done. simpl.
      rewrite !wrap64_add_l, orb_true_r.
      split_and!; try done; try (f_equal; lia).
      intros id e' Hf. destruct (Hprov id e' Hf) as [?|(m' & ? & ? & ? & ?)]; [by left|].
      right. exists m'. split_and!; try done. by right.
    + destruct (Insert _ _) as [[] q] eqn:Hins; [|done].
      injection Hstep as <- <-.
      apply Insert_true in Hins as [-> Hslot]. simpl in Hslot.
      set (e := ReceiveQueueEntry_new m (GetId m) (m_timeBase s)) in *.
      set (q := store (m_receiveQueue s) (entry_sequence e) e) in *.
      assert (Hok1 : channel_ok (add_counter MessagesRead 1 (set_receiveQueue q s))).
      { apply channel_ok_add_counter. destruct Hok as (Hsq & Hrq & Hr & Hs & _).
        split_ok. apply Forall_store; [done|]. intros _. exists m. split; [done|].
        simpl. symmetry. apply wrap16_idem. }
      eapply IH in Hfold as (Hok' & -> & -> & -> & -> & -> & -> & -> & -> & -> & -> & -> & -> & Hprov);
        [|done..].
      assert (counters_ok (set_receiveQueue q s)) by done.
      rewrite !GetCounter_add_counter by done. simpl.
      change (GetCounter ?c (set_receiveQueue q s)) with (GetCounter c s).
      rewrite !wrap64_add_l.
      split_and!; try done; try (f_equal; lia).
      intros id e' Hf. destruct (Hprov id e' Hf) as [Hf1|(m' & ? & ? & ? & ?)].
      * simpl in Hf1. fold q in Hf1.
        destruct (decide (index (m_receiveQueue s) id = index (m_receiveQueue s) (entry_sequence e)))
          as [Hi|Hi].
        -- right. exists m.
           apply Find_Some in Hf1 as (Hsl & Hv & Hq).
           unfold q in Hsl. rewrite slot_store_same in Hsl by done.
           injection Hsl as <-. simpl in Hq. unfold GetId in Hq. rewrite wrap16_idem in Hq.
           split_and!; try done.
           ++ by left.
           ++ by rewrite Hlate, Habove.
           ++ unfold e. by rewrite Htime.
        -- left. apply Find_Some in Hf1 as (Hsl & Hv & Hq).
           unfold q in Hsl. rewrite slot_store_other in Hsl by done.
           by apply Find_Some.
      * right. exists m'. split_and!; try done. by right.
Qed.

Lemma rq_new_sequence m (now : Time) :
  entry_sequence (ReceiveQueueEntry_new m (GetId m) now) = GetId m.
Proof. simpl. unfold GetId. apply wrap16_idem. Qed.

Lemma foldl_process_None lo hi data :
  foldl (process_message (Time:=Time) lo hi) None data = None.
Proof. induction data; simpl; auto. Qed.

(** When the in-window messages fall on free slots of their own, the loop
    of [ProcessData] runs to its end and leaves each of them in the
    receive queue. *)
Lemma process_fold_free (s0 : Channel) data : ∀ early (s : Channel),
  m_receiveMessageId s = m_receiveMessageId s0 →
  m_timeBase s = m_timeBase s0 →
  (∀ m, m ∈ data → in_window m_config s0 m = true → slot_free s m) →
  NoDup (index (m_receiveQueue s) <$> (GetId <$> filter (fun m => in_window m_config s0 m = true) data)) →
  ∃ early' s',
    foldl (process_message (m_receiveMessageId s0)
             (wrap16 (m_receiveMessageId s0 + receiveQueueSize m_config - 1)))
      (Some (early, s)) data = Some (early', s')
    ∧ (∀ m, m ∈ data → in_window m_config s0 m = true →
         Find (m_receiveQueue s') (GetId m)
         = Some (ReceiveQueueEntry_new m (GetId m) (m_timeBase s0)))
    ∧ (∀ k, (∀ m, m ∈ data → in_window m_config s0 m = true →
               index (m_receiveQueue s) (GetId m) ≠ k) →
         m_entries (m_receiveQueue s') !! k = m_entries (m_receiveQueue s) !! k)
    ∧ m_size (m_receiveQueue s') = m_size (m_receiveQueue s).
Proof.
  induction data as [|m data IH]; intros early s Hrid Htime Hfree Hnd.
  { exists early, s. split_and!; try done. intros m Hm. by apply elem_of_nil in Hm. }
  change (foldl ?f ?a (m :: data)) with (foldl f (f a m) data).
  unfold process_message at 2.
  fold (is_late s0 m). fold (is_above m_config s0 m).
  assert (Htail : ∀ m', m' ∈ data → in_window m_config s0 m' = true → slot_free s m').
  { intros m' Hm'. apply Hfree. by right. }
  destruct (is_late s0 m) eqn:Hlate; simpl.
  { rewrite filter_cons_False in Hnd by (unfold in_window; rewrite Hlate; done).
    destruct (IH early (add_counter MessagesRead 1 (add_counter MessagesDiscardedLate 1 s)))
      as (early' & s' & Hf & Hin & Hout & Hsz); [done..|].
    exists early', s'. split_and!; try done.
    - intros m' [->|Hm']%elem_of_cons Hw; [|by apply Hin].
      unfold in_window in Hw. by rewrite Hlate in Hw.
    - intros k Hk. apply Hout. intros m' Hm'. apply Hk. by right. }
  destruct (is_above m_config s0 m) eqn:Habove; simpl.
  { rewrite filter_cons_False in Hnd by (unfold in_window; rewrite Hlate, Habove; done).
    destruct (IH true (add_counter MessagesRead 1 (add_counter MessagesDiscardedEarly 1 s)))
      as (early' & s' & Hf & Hin & Hout & Hsz); [done..|].
    exists early', s'. split_and!; try done.
    - intros m' [->|Hm']%elem_of_cons Hw; [|by apply Hin].
      unfold in_window in Hw. by rewrite Hlate, Habove in Hw.
    - intros k Hk. apply Hout. intros m' Hm'. apply Hk. by right. }
  assert (Hw : in_window m_config s0 m = true) by (unfold in_window; by rewrite Hlate, Habove).
  rewrite filter_cons_True in Hnd by done. rewrite !fmap_cons in Hnd.
  apply NoDup_cons in Hnd as [Hnotin Hnd].
  destruct (Hfree m) as (e0 & Hslot & Hv0); [by left|done|].
  set (e := ReceiveQueueEntry_new m (GetId m) (m_timeBase s)).
  assert (Hseq : entry_sequence e = GetId m) by apply rq_new_sequence.
  unfold Insert, HasSlotAvailable. rewrite Hseq, Hslot. simpl. rewrite Hv0. simpl.
  set (q := store (m_receiveQueue s) (GetId m) e).
  assert (Hother : ∀ m', m' ∈ data → in_window m_config s0 m' = true →
            index (m_receiveQueue s) (GetId m') ≠ index (m_receiveQueue s) (GetId m)).
  { intros m' Hm' Hw' Heq. apply Hnotin. rewrite <- Heq.
    apply list_elem_of_fmap. exists (GetId m'). split; [done|].
    apply list_elem_of_fmap. exists m'. split; [done|].
    by apply list_elem_of_filter. }
  destruct (IH early (add_counter MessagesRead 1 (set_receiveQueue q s)))
    as (early' & s' & Hf & Hin & Hout & Hsz); [done|done| |done|].
  { intros m' Hm' Hw'. destruct (Htail m' Hm' Hw') as (e' & He' & Hv').
    exists e'. split; [|done]. simpl. unfold q. rewrite slot_store_other; [done|].
    by apply Hother. }
  exists early', s'. simpl in *. split_and!; try done.
  - intros m' [->|Hm']%elem_of_cons Hw'; [|by apply Hin].
    apply Find_Some. split_and!; [|done|by rewrite <- Htime].
    unfold slot, index. rewrite Hsz. simpl. rewrite Hout.
    + unfold q; simpl. rewrite <- Htime. apply list_lookup_insert_eq.
      unfold slot in Hslot. by eapply lookup_lt_Some.
    + intros m'' Hm'' Hw''. by apply Hother.
  - intros k Hk. rewrite Hout.
    + unfold q; simpl. apply list_lookup_insert_ne. apply Hk; [by left|done].
    + intros m' Hm' Hw'. apply Hk; [by right|done].
Qed.

Lemma ProcessData_ok sequence data (s : Channel) :
  channel_ok s →
  match ProcessData m_config sequence data s with
  | Returned _ s' | Raised _ s' =>
      channel_ok s' ∧ m_receiveMessageId s' = m_receiveMessageId s
  | Aborted => True
  end.
Proof.
  intros Hok. unfold ProcessData.
  destruct (foldl _ _ _) as [[early' s']|] eqn:Hfold; [|done].
  eapply process_fold in Hfold as (Hok' & Hrid & _); [|done..].
  by destruct early'.
Qed.

(** *** [ProcessAck] *)

(** The loop of [ProcessAck] on a well-formed send queue: no assertion
    fails, and exactly the listed ids leave the queue. *)
Lemma ack_fold ids : ∀ q : SendQueue,
  Forall sq_entry_ok (m_entries q) →
  ∃ q', foldl ack_message (Some q) ids = Some q'
    ∧ Forall sq_entry_ok (m_entries q')
    ∧ ∀ id, Find q' id = if decide (id ∈ ids) then None else Find q id.
Proof.
  induction ids as [|i ids IH]; intros q Hok.
  { exists q. split_and!; done. }
  change (foldl ?f ?a (i :: ids)) with (foldl f (f a i) ids).
  unfold ack_message at 2.
  destruct (Find q i) as [e|] eqn:Hf.
  - pose proof (Forall_Find _ _ _ _ Hok Hf) as He.
    pose proof Hf as (_ & Hv & Hq)%Find_Some.
    destruct (He Hv) as (m & -> & Hid). simpl in Hq. rewrite Hid, Hq, Z.eqb_refl.
    destruct (IH (store q i (sq_release e))) as (q' & Hfold & Hok' & Hfind).
    { apply Forall_store; [done|]. by intros ?. }
    exists q'. split_and!; try done.
    intros id. rewrite Hfind. rewrite (Find_store_released _ _ e) by done.
    destruct (decide (id = i)) as [->|Hne].
    + rewrite (decide_True (P:=i ∈ i :: ids)) by by left. by case_decide.
    + case_decide as Hin.
      * rewrite (decide_True (P:=id ∈ i :: ids)); [done|by right].
      * rewrite (decide_False (P:=id ∈ i :: ids)); [done|].
        intros [?|?]%elem_of_cons; done.
  - destruct (IH q Hok) as (q' & Hfold & Hok' & Hfind).
    exists q'. split_and!; try done.
    intros id. rewrite Hfind.
    destruct (decide (id = i)) as [->|Hne].
    + rewrite (decide_True (P:=i ∈ i :: ids)) by by left. by case_decide.
    + case_decide as Hin.
      * rewrite (decide_True (P:=id ∈ i :: ids)); [done|by right].
      * rewrite (decide_False (P:=id ∈ i :: ids)); [done|].
        intros [?|?]%elem_of_cons; done.
Qed.

(** [ProcessAck] on a well-formed channel returns; what it returns is
    the channel unchanged when there is no entry for the packet or the
    entry is acked already, and otherwise the channel with the entry
    marked and its message ids out of the send queue. *)
Lemma ProcessAck_spec ack (s : Channel) :
  channel_ok s →
  ∃ s', ProcessAck ack s = Returned () s'
    ∧ channel_ok s'
    ∧ m_receiveMessageId s' = m_receiveMessageId s
    ∧ m_receiveQueue s' = m_receiveQueue s
    ∧ m_sendMessageId s' = m_sendMessageId s
    ∧ m_timeBase s' = m_timeBase s
    ∧ match Find (m_sentPackets s) ack with
      | None => s' = s
      | Some packet =>
          if sp_acked packet then s' = s
          else (∀ id, Find (m_sendQueue s') id
                      = if decide (id ∈ sp_messageIds packet) then None
                        else Find (m_sendQueue s) id)
               ∧ Find (m_sentPackets s') ack = Some (set_acked packet)
      end.
Proof.
  intros Hok. unfold ProcessAck.
  destruct (Find (m_sentPackets s) ack) as [packet|] eqn:Hp; [|by exists s].
  destruct (sp_acked packet) eqn:Hacked; [by exists s|].
  destruct (ack_fold (sp_messageIds packet) (m_sendQueue s)) as (q' & -> & Hok' & Hfind);
    [apply Hok|].
  eexists. split; [done|]. simpl.
  destruct Hok as (Hsq & Hrq & Hr & Hs & Hc).
  split_and!; try done.
  rewrite (Find_store_found _ _ packet); [by rewrite decide_True|done|..].
  - by apply Find_Some in Hp as (_ & ? & _).
  - by apply Find_Some in Hp as (_ & _ & ?).
Qed.

Lemma GetData_not_raised sequence (s : Channel) e s' :
  GetData m_config sequence s ≠ Raised e s'.
Proof.
  unfold GetData. destruct (find_oldest m_config s) as [[] oldest]; simpl; [|done].
  destruct (gather _ _ _ _ _ _ _) as [[[avail sel] q']|]; [|done].
  destruct (negb _); [done|]. destruct (_ =? 0); [done|].
  destruct (slot _ _); [|done]. by destruct (payload _ _).
Qed.

(** *** Calls keep the channel well formed *)

Lemma call_ok op (s : Channel) evs s' :
  channel_ok s → call m_config op s = Some (evs, s') → channel_ok s'.
Proof.
  intros Hok. destruct op as [message| |sequence|sequence data|ack|timeBase]; simpl.
  - pose proof (SendMessage_ok message s Hok) as H.
    destruct (SendMessage _ _ _); try done; intros [= <- <-]; apply H.
  - destruct (ReceiveMessage_spec s Hok) as (r & s1 & -> & Hok1 & _).
    destruct r; by intros [= <- <-].
  - destruct (GetData _ _ _) as [r s1|e s1|] eqn:Hg;
      [|by apply GetData_not_raised in Hg|done].
    apply GetData_spec in Hg as (sel & (Ht & _) & Htime & Hsid & Hrid & Hrq & Hcs & Hr).
    destruct Hok as (Hsq & Hrq' & Hr' & Hs & Hc).
    assert (channel_ok s1).
    { unfold channel_ok. rewrite Hsid, Hrid, Hrq.
      split; [by eapply touched_ok|]. split_and!; try done; try lia. by apply Hcs. }
    destruct r; by intros [= <- <-].
  - pose proof (ProcessData_ok sequence data s Hok) as H.
    destruct (ProcessData _ _ _ _); try done; intros [= <- <-]; apply H.
  - destruct (ProcessAck_spec (wrap16 ack) s Hok) as (s1 & -> & Hok1 & _).
    by intros [= <- <-].
  - intros [= <- <-]. done.
Qed.

(** What a call delivers: nothing, with [m_receiveMessageId] as it was, or
    the message of that id, with [m_receiveMessageId] moved on by one. *)
Lemma call_delivers op (s : Channel) evs s' :
  channel_ok s → call m_config op s = Some (evs, s') →
  (delivered evs = [] ∧ m_receiveMessageId s' = m_receiveMessageId s)
  ∨ ∃ m, delivered evs = [m] ∧ GetId m = m_receiveMessageId s
         ∧ m_receiveMessageId s' = wrap16 (m_receiveMessageId s + 1).
Proof.
  intros Hok. destruct op as [message| |sequence|sequence data|ack|timeBase]; simpl.
  - pose proof (SendMessage_ok message s Hok) as H.
    destruct (SendMessage _ _ _); try done; intros [= <- <-]; left; split; try done; apply H.
  - destruct (ReceiveMessage_spec s Hok) as (r & s1 & -> & Hok1 & Hr).
    destruct r as [m|]; intros [= <- <-].
    + right. exists m. by destruct Hr as (? & _ & ? & _).
    + left. by destruct Hr as [-> _].
  - destruct (GetData _ _ _) as [r s1|e s1|] eqn:Hg;
      [|by apply GetData_not_raised in Hg|done].
    apply GetData_spec in Hg as (sel & _ & _ & _ & Hrid & _).
    destruct r; intros [= <- <-]; by left.
  - pose proof (ProcessData_ok sequence data s Hok) as H.
    destruct (ProcessData _ _ _ _); try done; intros [= <- <-]; left; split; try done; apply H.
  - destruct (ProcessAck_spec (wrap16 ack) s Hok) as (s1 & -> & _ & Hrid & _).
    intros [= <- <-]. by left.
  - intros [= <- <-]. by left.
Qed.

Lemma delivered_app (evs1 evs2 : list (@Event Time)) :
  delivered evs1 ++ delivered evs2 = delivered (evs1 ++ evs2).
Proof. unfold delivered. by rewrite omap_app. Qed.

Lemma ids_from_0 start : ids_from start 0 = [].
Proof. done. Qed.

Lemma ids_from_S start n :
  ids_from start (S n) = wrap16 start :: ids_from (wrap16 (start + 1)) n.
Proof.
  unfold ids_from. rewrite seqZ_cons by lia. rewrite fmap_cons, Z.add_0_r. f_equal.
  replace (Z.pred (Z.of_nat (S n))) with (Z.of_nat n) by lia.
  rewrite <- (fmap_add_seqZ 1 0). rewrite <- list_fmap_compose.
  apply list_fmap_ext. intros _ k _. simpl. unfold wrap16.
  rewrite Zplus_mod_idemp_l. f_equal. lia.
Qed.

(** From a well-formed channel, the delivered messages carry the ids
    [m_receiveMessageId], [m_receiveMessageId + 1], ... in this order. *)
Lemma run_delivers ops : ∀ s : Channel,
  channel_ok s →
  GetId <$> delivered (run m_config ops s).1
  = ids_from (m_receiveMessageId s) (length (delivered (run m_config ops s).1))
  ∧ ∀ s', (run m_config ops s).2 = Some s' →
      channel_ok s'
      ∧ m_receiveMessageId s'
        = wrap16 (m_receiveMessageId s + Z.of_nat (length (delivered (run m_config ops s).1))).
Proof.
  induction ops as [|op ops IH]; intros s Hok; simpl.
  { split; [done|]. intros s' [= <-]. split; [done|].
    rewrite Z.add_0_r. symmetry. apply wrap16_small, Hok. }
  destruct (call m_config op s) as [[evs s1]|] eqn:Hcall; simpl.
  2:{ split; [done|]. done. }
  pose proof (call_ok _ _ _ _ Hok Hcall) as Hok1.
  destruct (IH s1 Hok1) as [Hids Hfinal].
  destruct (run m_config ops s1) as [rest final]. simpl in *.
  rewrite <- delivered_app. rewrite fmap_app, length_app.
  destruct (call_delivers _ _ _ _ Hok Hcall) as [[-> Hrid]|(m & -> & Hid & Hrid)]; simpl.
  - rewrite Hids, Hrid. split; [done|]. intros s' Hs'.
    destruct (Hfinal s' Hs') as [? ->]. by rewrite Hrid.
  - rewrite ids_from_S, Hids, Hrid, Hid. split.
    + f_equal. symmetry. apply wrap16_small, Hok.
    + intros s' Hs'. destruct (Hfinal s' Hs') as [? ->]. split; [done|].
      rewrite Hrid. unfold wrap16. rewrite Zplus_mod_idemp_l. f_equal. lia.
Qed.

(** *** In-order delivery *)

(** C1.  For every sequence of calls on a fresh channel, the messages
    that the successive [ReceiveMessage] calls return carry the ids 0, 1,
    2, ... (under 16-bit wrap-around), one after the other, with no gap
    and no repetition; and in the channel the calls lead to,
    [ReceiveMessage] returns, and a message it returns is the one stored
    under [m_receiveMessageId], carries that id, and moves
    [m_receiveMessageId] on by one. *)
Theorem ReceiveMessage_in_order (ops : list Op) :
  GetId <$> delivered (run m_config ops (init m_config)).1
  = ids_from 0 (length (delivered (run m_config ops (init m_config)).1))
  ∧ ∀ s, (run m_config ops (init m_config)).2 = Some s →
      ∃ r s', ReceiveMessage s = Returned r s'
        ∧ match r with
          | None => s' = s
          | Some m =>
              GetId m = m_receiveMessageId s
              ∧ (∃ entry, Find (m_receiveQueue s) (m_receiveMessageId s) = Some entry
                          ∧ rq_message entry = Some m)
              ∧ m_receiveMessageId s' = wrap16 (m_receiveMessageId s + 1)
          end.
Proof.
  destruct (run_delivers ops (init m_config) channel_ok_init) as [Hids Hfinal].
  split; [exact Hids|].
  intros s Hs. destruct (Hfinal s Hs) as [Hok _].
  destruct (ReceiveMessage_spec s Hok) as (r & s' & Hr & _ & Hspec).
  exists r, s'. split; [done|]. destruct r; [|apply Hspec].
  destruct Hspec as (? & ? & ? & _). done.
Qed.

(** *** The packet budget *)

(** C2.  When [GetData] returns a payload, the payload is made of the
    messages of the entries of the selected ids, the measured bits of
    these entries add up to [packetBudget * 8] at most, and there are at
    most [maxMessagesPerPacket] messages. *)
Theorem GetData_within_budget sequence (s : Channel) ms s' :
  GetData m_config sequence s = Returned (Some ms) s' →
  ∃ sel,
    payload (m_sendQueue s') sel = Some ms
    ∧ length ms = length sel
    ∧ measured (m_sendQueue s') sel <= packetBudget m_config * 8
    ∧ Z.of_nat (length ms) <= maxMessagesPerPacket m_config.
Proof.
  intros (sel & Hg & _ & _ & _ & _ & _ & Hne & Hlen & Hp & _)%GetData_spec.
  destruct Hg as (Ht & Hbits & _).
  assert (Hl : length ms = length sel).
  { apply payload_spec in Hp. symmetry. by eapply Forall2_length. }
  exists sel. split_and!; try done.
  - rewrite (touched_measured _ _ _ _ Ht). by apply Hbits.
  - by rewrite Hl.
Qed.

(** *** What [GetData] changes *)

Lemma set_timeLastSent_same (now : Time) (e : SendQueueEntry) :
  sq_timeLastSent e = now → set_timeLastSent now e = e.
Proof. intros <-. by destruct e. Qed.

(** C9.  When [GetData] returns a payload, the send queue differs from
    the one before in [timeLastSent] of the selected entries only: the
    window has the size it had, every entry keeps its message, id, valid
    flag and measured bits, every selected entry is the entry it was with
    [timeLastSent] set to the time of the call, and the slots of no
    selected id are as they were.  So a selected entry fails the resend
    test of a later call at any time that is not [resendRate] past the time
    of this call, whether or not the payload was used. *)
Theorem GetData_frame sequence (s : Channel) ms s' :
  GetData m_config sequence s = Returned (Some ms) s' →
  ∃ sel,
    payload (m_sendQueue s') sel = Some ms
    ∧ m_size (m_sendQueue s') = m_size (m_sendQueue s)
    ∧ Forall2 (fun e e' =>
                 sq_message e' = sq_message e ∧ sq_sequence e' = sq_sequence e
                 ∧ sq_valid e' = sq_valid e ∧ sq_measuredBits e' = sq_measuredBits e)
        (m_entries (m_sendQueue s)) (m_entries (m_sendQueue s'))
    ∧ (∀ id, id ∈ sel →
         ∃ e, Find (m_sendQueue s) id = Some e
              ∧ Find (m_sendQueue s') id = Some (set_timeLastSent (m_timeBase s) e))
    ∧ (∀ k, (∀ id, id ∈ sel → index (m_sendQueue s) id ≠ k) →
         m_entries (m_sendQueue s') !! k = m_entries (m_sendQueue s) !! k)
    ∧ (∀ id now availableBits, id ∈ sel →
         t_le (t_add (m_timeBase s) (resendRate m_config)) now = false →
         ∃ e', Find (m_sendQueue s') id = Some e'
               ∧ may_include m_config now availableBits e' = false).
Proof.
  intros (sel & Hg & _ & _ & _ & _ & _ & Hne & Hlen & Hp & _)%GetData_spec.
  destruct Hg as (Ht & _ & Hpre & Hpost & _ & Hrest).
  assert (Hsel : ∀ id, id ∈ sel →
            ∃ e, Find (m_sendQueue s) id = Some e
                 ∧ Find (m_sendQueue s') id = Some (set_timeLastSent (m_timeBase s) e)).
  { intros id Hid. rewrite Forall_forall in Hpost.
    destruct (Hpost id Hid) as (e' & He' & Hnow).
    destruct (touched_Find_inv _ _ _ _ _ Ht He') as (e & He & [->|[-> _]]); exists e.
    - by rewrite set_timeLastSent_same.
    - done. }
  exists sel. split_and!; try done.
  - apply Ht.
  - destruct Ht as [_ Hall]. eapply Forall2_impl; [exact Hall|].
    by intros e e' [->|[-> _]].
  - intros id now avail Hid Hnot. destruct (Hsel id Hid) as (e & _ & He').
    eexists. split; [exact He'|]. unfold may_include. simpl. by rewrite Hnot.
Qed.

(** *** The receive window *)

(** C3, amended.  Take a payload whose in-window messages fall on free
    slots of the receive queue, each on a slot of its own.  A message is
    late when its id is below [m_receiveMessageId] under wrap-around,
    early when it is not late and its id is above
    [m_receiveMessageId + receiveQueueSize - 1], in the window otherwise.
    Then [ProcessData] counts every message in [MessagesRead], every late
    one in [MessagesDiscardedLate], every early one in
    [MessagesDiscardedEarly]; every in-window message is in the receive
    queue afterwards, and nothing else is new there; it throws
    [EarlyMessage] exactly when some message is early, and the channel at
    the [throw] has all of this done. *)
Theorem ProcessData_window sequence data (s : Channel) :
  channel_ok s →
  lands_free m_config s data →
  ∃ s',
    ProcessData m_config sequence data s
    = (if existsb (is_early m_config s) data then Raised EarlyMessage s' else Returned () s')
    ∧ GetCounter MessagesRead s'
      = wrap64 (GetCounter MessagesRead s + Z.of_nat (length data))
    ∧ GetCounter MessagesDiscardedLate s'
      = wrap64 (GetCounter MessagesDiscardedLate s + count_of (is_late s) data)
    ∧ GetCounter MessagesDiscardedEarly s'
      = wrap64 (GetCounter MessagesDiscardedEarly s + count_of (is_early m_config s) data)
    ∧ (∀ m, m ∈ data → in_window m_config s m = true →
         Find (m_receiveQueue s') (GetId m)
         = Some (ReceiveQueueEntry_new m (GetId m) (m_timeBase s)))
    ∧ (∀ id e', Find (m_receiveQueue s') id = Some e' →
         Find (m_receiveQueue s) id = Some e'
         ∨ ∃ m, m ∈ data ∧ in_window m_config s m = true ∧ GetId m = id
                ∧ e' = ReceiveQueueEntry_new m (GetId m) (m_timeBase s))
    ∧ m_receiveMessageId s' = m_receiveMessageId s
    ∧ m_sendQueue s' = m_sendQueue s.
Proof.
  intros Hok [Hfree Hnd].
  destruct (process_fold_free s data false s eq_refl eq_refl Hfree Hnd)
    as (early' & s' & Hfold & Hin & _ & _).
  destruct (process_fold s data false s Hok eq_refl eq_refl early' s' Hfold)
    as (_ & Hrid & _ & Hsq & _ & _ & -> & Hread & Hlate & Hearly & _ & _ & _ & Hprov).
  exists s'. unfold ProcessData. rewrite Hfold. simpl.
  split_and!; done.
Qed.

Lemma ProcessData_with_Insert sequence data (s : Channel) :
  ProcessData_with m_config Insert sequence data s = ProcessData m_config sequence data s.
Proof. reflexivity. Qed.

(** One message of the window: the call is what [Insert] makes of it. *)
Lemma ProcessData_with_in_window insert sequence m (s : Channel) :
  in_window m_config s m = true →
  ProcessData_with m_config insert sequence [m] s
  = (let '(result, q) :=
       insert (m_receiveQueue s) (ReceiveQueueEntry_new m (GetId m) (m_timeBase s)) in
     if result then Returned () (add_counter MessagesRead 1 (set_receiveQueue q s))
     else Aborted).
Proof.
  intros Hw. unfold ProcessData_with. simpl.
  unfold in_window, is_late, is_above in Hw.
  apply andb_true_iff in Hw as [Hl Ha].
  apply negb_true_iff in Hl, Ha. rewrite Hl, Ha.
  by destruct (insert _ _) as [[] q].
Qed.

Lemma set_receiveQueue_same (s : Channel) : set_receiveQueue (m_receiveQueue s) s = s.
Proof. by destruct s. Qed.

(** C4, amended.  A message of the window whose id is in the receive
    queue already.  [ProcessData] hands [Insert] a new entry, made of the
    message, its id and the time of the call.  When [Insert] writes the
    entry over the slot, the call returns and throws nothing, and the
    channel is as before except for the counter [MessagesRead] and for the
    slot, which holds the new entry; it is as before except for
    [MessagesRead] when the new entry is the old one.  When [Insert]
    refuses, the assertion on its result ends the call; and [Insert] as
    section 4.1 has it does refuse, leaving the queue as it is. *)
Theorem ProcessData_duplicate
    (insert : t (ReceiveQueueEntry (Time:=Time)) → ReceiveQueueEntry (Time:=Time)
              → bool * t (ReceiveQueueEntry (Time:=Time)))
    sequence m (s : Channel) entry :
  0 < m_size (m_receiveQueue s) →
  in_window m_config s m = true →
  Find (m_receiveQueue s) (GetId m) = Some entry →
  let new := ReceiveQueueEntry_new m (GetId m) (m_timeBase s) in
  (insert (m_receiveQueue s) new = (true, store (m_receiveQueue s) (GetId m) new) →
   ProcessData_with m_config insert sequence [m] s
   = Returned () (add_counter MessagesRead 1
                    (set_receiveQueue (store (m_receiveQueue s) (GetId m) new) s))
   ∧ Find (store (m_receiveQueue s) (GetId m) new) (GetId m) = Some new
   ∧ (∀ id, id ≠ GetId m →
        Find (store (m_receiveQueue s) (GetId m) new) id = Find (m_receiveQueue s) id)
   ∧ (entry = new →
      ProcessData_with m_config insert sequence [m] s
      = Returned () (add_counter MessagesRead 1 s)))
  ∧ (∀ q, insert (m_receiveQueue s) new = (false, q) →
       ProcessData_with m_config insert sequence [m] s = Aborted)
  ∧ Insert (m_receiveQueue s) new = (false, m_receiveQueue s)
  ∧ ∀ data, ProcessData_with m_config Insert sequence data s
            = ProcessData m_config sequence data s.
Proof.
  intros Hsize Hw Hfind new.
  pose proof (ProcessData_with_in_window insert sequence m s Hw) as Hcall.
  fold new in Hcall.
  assert (Hseq : entry_sequence new = GetId m) by apply rq_new_sequence.
  assert (Hfound : ∀ id, Find (store (m_receiveQueue s) (GetId m) new) id
                         = if decide (id = GetId m) then Some new else Find (m_receiveQueue s) id).
  { intros id. by apply (Find_store_found _ _ entry). }
  split_and!.
  - intros Hins. rewrite Hins in Hcall. split_and!; [done| | |].
    + by rewrite Hfound, decide_True.
    + intros id Hne. by rewrite Hfound, decide_False.
    + intros ->. rewrite Hcall. do 2 f_equal.
      apply Find_Some in Hfind as (Hslot & _).
      assert (Hsame : store (m_receiveQueue s) (GetId m) new = m_receiveQueue s).
      { unfold store. unfold slot in Hslot. rewrite list_insert_id by done.
        by destruct (m_receiveQueue s). }
      rewrite Hsame. apply set_receiveQueue_same.
  - intros q Hins. by rewrite Hins in Hcall.
  - pose proof Hfind as (Hslot & Hv & Hq)%Find_Some.
    unfold Insert, HasSlotAvailable. rewrite Hseq, Hslot. simpl in *.
    rewrite Hv, Hq, Z.sub_diag. simpl.
    destruct (Z.leb_spec (m_size (m_receiveQueue s)) (wrap16 0)) as [Hle|]; [|done].
    change (wrap16 0) with 0 in Hle. lia.
  - intros data. apply ProcessData_with_Insert.
Qed.

(** *** [SendMessage] *)

(** [SendMessage] with a slot available: the call returns, and the send
    queue holds the new entry under the message's id. *)
Lemma SendMessage_returns message (s : Channel) :
  channel_ok s →
  CanSendMessage s = true →
  ∃ q',
    SendMessage m_config message s
    = Returned (SetId message (m_sendMessageId s))
        (set_sendMessageId (wrap16 (m_sendMessageId s + 1))
           (add_counter MessagesSent 1 (set_sendQueue q' s)))
    ∧ Find q' (m_sendMessageId s)
      = Some {| sq_message := Some (SetId message (m_sendMessageId s));
                sq_sequence := m_sendMessageId s;
                sq_valid := true;
                sq_measuredBits :=
                  wrap15 (serialized_bits message + m_messageOverheadBits m_config);
                sq_timeLastSent := t_lit (-1) |}.
Proof.
  intros Hok Hav. unfold CanSendMessage in Hav. unfold SendMessage.
  rewrite Hav. simpl.
  unfold Insert. simpl entry_sequence.
  assert (Hid : wrap16 (m_sendMessageId s) = m_sendMessageId s) by apply wrap16_small, Hok.
  rewrite Hid, Hav.
  set (id := m_sendMessageId s) in *.
  set (e := SendQueueEntry_new (SetId message id) id).
  assert (Hslot : is_Some (slot (m_sendQueue s) id)).
  { unfold HasSlotAvailable in Hav. destruct (slot _ _); [by eexists|done]. }
  assert (Hf : Find (store (m_sendQueue s) id e) id = Some e).
  { apply Find_Some. rewrite slot_store_same by done. by split_and!. }
  rewrite Hf. simpl. rewrite Hid, Z.eqb_refl. unfold GetId at 1. simpl.
  rewrite wrap16_idem, Hid, Z.eqb_refl. simpl.
  eexists. split; [done|].
  rewrite (Find_store_found _ _ e); [|done..]. rewrite decide_True by done.
  unfold set_measuredBits, e, SendQueueEntry_new. simpl. by rewrite Hid.
Qed.

(** C5, amended.  When [CanSendMessage()] holds, [SendMessage( m )] gives
    [m] the id [m_sendMessageId] and puts an entry of that id into the send
    queue, with [timeLastSent] -1 and with [measuredBits] the 15 low bits of
    the serialized bits of [m] plus the overhead [16 +
    bits_required( 0, maxType )], which is that sum itself when it fits 15
    bits; [m_sendMessageId] goes up by one modulo 2^16 and [MessagesSent]
    by one.  When [CanSendMessage()] does not hold, [SendMessage] throws
    [QueueOverflow] and the channel is as it was. *)
Theorem SendMessage_queues message (s : Channel) :
  channel_ok s →
  m_messageOverheadBits m_config = 16 + Z.log2_up (maxType m_config + 1)
  ∧ if CanSendMessage s
    then ∃ s',
      SendMessage m_config message s = Returned (SetId message (m_sendMessageId s)) s'
      ∧ GetId (SetId message (m_sendMessageId s)) = m_sendMessageId s
      ∧ Find (m_sendQueue s') (m_sendMessageId s)
        = Some {| sq_message := Some (SetId message (m_sendMessageId s));
                  sq_sequence := m_sendMessageId s;
                  sq_valid := true;
                  sq_measuredBits :=
                    wrap15 (serialized_bits message + m_messageOverheadBits m_config);
                  sq_timeLastSent := t_lit (-1) |}
      ∧ (serialized_bits message + m_messageOverheadBits m_config < 32768 →
         wrap15 (serialized_bits message + m_messageOverheadBits m_config)
         = serialized_bits message + m_messageOverheadBits m_config)
      ∧ m_sendMessageId s' = wrap16 (m_sendMessageId s + 1)
      ∧ GetCounter MessagesSent s' = wrap64 (GetCounter MessagesSent s + 1)
    else SendMessage m_config message s = Raised QueueOverflow s.
Proof.
  intros Hok. split.
  { unfold m_messageOverheadBits, MessageIdBits, MessageTypeBits, bits_required.
    f_equal. f_equal. lia. }
  destruct (CanSendMessage s) eqn:Hav.
  2:{ unfold SendMessage. unfold CanSendMessage in Hav. by rewrite Hav. }
  destruct (SendMessage_returns message s Hok Hav) as (q' & Hcall & Hfind).
  eexists. split; [exact Hcall|]. simpl.
  assert (Hbits : 0 <= serialized_bits message) by (unfold serialized_bits; lia).
  assert (Hover : 0 <= m_messageOverheadBits m_config).
  { unfold m_messageOverheadBits, MessageIdBits, MessageTypeBits, bits_required.
    pose proof (Z.log2_up_nonneg (maxType m_config - 0 + 1)). lia. }
  split_and!; try done.
  - rewrite GetId_SetId. apply wrap16_small, Hok.
  - intros Hlt. unfold wrap15. apply Z.mod_small. lia.
  - change (GetCounter ?c (set_sendMessageId ?i ?x)) with (GetCounter c x).
    rewrite GetCounter_add_counter by apply Hok. by rewrite decide_True.
Qed.

(** *** [ProcessAck] *)

Lemma ack_fold_stopped ids : foldl (ack_message (Time:=Time)) None ids = None.
Proof. by induction ids. Qed.

(** The loop of [ProcessAck] writes to slots of entries it finds: a slot
    whose entry is not valid stays as it is. *)
Lemma ack_fold_slot ids : ∀ (q q' : SendQueue) id x,
  foldl ack_message (Some q) ids = Some q' →
  slot q id = Some x → sq_valid x = false →
  slot q' id = Some x.
Proof.
  induction ids as [|i ids IH]; intros q q' id x Hfold Hs Hv.
  { by injection Hfold as <-. }
  change (foldl ?f ?a (i :: ids)) with (foldl f (f a i) ids) in Hfold.
  unfold ack_message at 2 in Hfold.
  destruct (Find q i) as [e|] eqn:Hf; [|by eapply IH].
  destruct (sq_message e) as [m|]; [|by rewrite ack_fold_stopped in Hfold].
  destruct (GetId m =? i); [|by rewrite ack_fold_stopped in Hfold].
  eapply IH; [done| |done].
  rewrite slot_store_other; [done|].
  intros Hi. apply Find_Some in Hf as (Hsi & Hvi & _).
  unfold slot in Hs, Hsi. rewrite Hi, Hsi in Hs. injection Hs as <-.
  simpl in Hvi. congruence.
Qed.

(** The entry of an id that the loop of [ProcessAck] releases: the slot
    keeps it, with [valid] cleared and the message dropped. *)
Lemma ack_fold_released ids : ∀ (q q' : SendQueue) id e,
  foldl ack_message (Some q) ids = Some q' →
  Find q id = Some e → id ∈ ids →
  slot q' id
  = Some {| sq_message := None; sq_sequence := sq_sequence e; sq_valid := false;
            sq_measuredBits := sq_measuredBits e; sq_timeLastSent := sq_timeLastSent e |}.
Proof.
  induction ids as [|i ids IH]; intros q q' id e Hfold Hf Hin.
  { by apply elem_of_nil in Hin. }
  change (foldl ?f ?a (i :: ids)) with (foldl f (f a i) ids) in Hfold.
  unfold ack_message at 2 in Hfold.
  destruct (decide (i = id)) as [->|Hne].
  - rewrite Hf in Hfold.
    destruct (sq_message e) as [m|]; [|by rewrite ack_fold_stopped in Hfold].
    destruct (GetId m =? id); [|by rewrite ack_fold_stopped in Hfold].
    eapply ack_fold_slot; [done| |done].
    apply slot_store_same; [done|]. apply Find_Some in Hf as [Hs _]. by eexists.
  - apply elem_of_cons in Hin as [?|Hin]; [congruence|].
    destruct (Find q i) as [ei|] eqn:Hfi; [|by eapply IH].
    destruct (sq_message ei) as [m|]; [|by rewrite ack_fold_stopped in Hfold].
    destruct (GetId m =? i); [|by rewrite ack_fold_stopped in Hfold].
    eapply IH; [done| |done].
    rewrite (Find_store_released _ _ ei) by done. by rewrite decide_False by congruence.
Qed.

Lemma ProcessAck_slot ack id (s s' : Channel) packet e :
  Find (m_sentPackets s) ack = Some packet → sp_acked packet = false →
  ProcessAck ack s = Returned () s' →
  Find (m_sendQueue s) id = Some e → id ∈ sp_messageIds packet →
  slot (m_sendQueue s') id
  = Some {| sq_message := None; sq_sequence := sq_sequence e; sq_valid := false;
            sq_measuredBits := sq_measuredBits e; sq_timeLastSent := sq_timeLastSent e |}.
Proof.
  intros Hp Hacked Hcall Hf Hin. unfold ProcessAck in Hcall. rewrite Hp, Hacked in Hcall.
  destruct (foldl _ _ _) as [q|] eqn:Hfold; [|done].
  injection Hcall as <-. simpl. by eapply ack_fold_released.
Qed.

(** C6, amended.  Let the sent-packet entry of packet [ack] hold the
    message id [id], in a well-formed channel.  [ProcessAck( ack )]
    returns.  If the entry is not acked yet, the send queue holds no entry
    of [id] afterwards: the slot of an entry that was there has [valid]
    cleared and its message dropped ([nullptr]), the other fields as they
    were; the packet entry is marked acked; calling [ProcessAck( ack )]
    again changes nothing, and [ProcessAck] of any packet leaves the send
    queue without an entry of [id].  A packet id without a sent-packet
    entry changes nothing. *)
Theorem ProcessAck_releases ack id (s : Channel) packet :
  channel_ok s →
  Find (m_sentPackets s) ack = Some packet →
  id ∈ sp_messageIds packet →
  ∃ s',
    ProcessAck ack s = Returned () s'
    ∧ (sp_acked packet = false →
       Find (m_sendQueue s') id = None
       ∧ (∀ e, Find (m_sendQueue s) id = Some e →
            slot (m_sendQueue s') id
            = Some {| sq_message := None; sq_sequence := sq_sequence e; sq_valid := false;
                      sq_measuredBits := sq_measuredBits e;
                      sq_timeLastSent := sq_timeLastSent e |})
       ∧ Find (m_sentPackets s') ack = Some (set_acked packet))
    ∧ (sp_acked packet = true → s' = s)
    ∧ (sp_acked packet = false → ProcessAck ack s' = Returned () s')
    ∧ (sp_acked packet = false →
       ∀ ack', ∃ s'', ProcessAck ack' s' = Returned () s''
                      ∧ Find (m_sendQueue s'') id = None)
    ∧ ∀ ack', Find (m_sentPackets s) ack' = None → ProcessAck ack' s = Returned () s.
Proof.
  intros Hok Hp Hin.
  destruct (ProcessAck_spec ack s Hok) as (s' & Hcall & Hok' & _ & _ & _ & _ & Hspec).
  rewrite Hp in Hspec. exists s'. split; [done|].
  assert (Hnone : ∀ ack', Find (m_sentPackets s) ack' = None → ProcessAck ack' s = Returned () s).
  { intros ack' Hn. unfold ProcessAck. by rewrite Hn. }
  destruct (sp_acked packet) eqn:Hacked.
  { subst s'. split_and!; done. }
  destruct Hspec as [Hfind Hpacket].
  assert (Hgone : Find (m_sendQueue s') id = None) by (by rewrite Hfind, decide_True).
  split_and!; try done.
  - intros _. split_and!; [done| |done].
    intros e He. exact (ProcessAck_slot ack id s s' packet e Hp Hacked Hcall He Hin).
  - intros _. unfold ProcessAck. by rewrite Hpacket.
  - intros _ ack'.
    destruct (ProcessAck_spec ack' s' Hok') as (s'' & Hcall' & _ & _ & _ & _ & _ & Hspec').
    exists s''. split; [done|].
    destruct (Find (m_sentPackets s') ack') as [packet'|]; [|by subst s''].
    destruct (sp_acked packet'); [by subst s''|].
    destruct Hspec' as [Hfind' _]. rewrite Hfind'. by case_decide.
Qed.

(** *** Resend spacing *)

Lemma SendMessage_other_ids message (s : Channel) :
  channel_ok s →
  match SendMessage m_config message s with
  | Returned m' s' =>
      GetId m' = m_sendMessageId s
      ∧ ∀ id x, id ≠ m_sendMessageId s →
          Find (m_sendQueue s') id = Some x → Find (m_sendQueue s) id = Some x
  | Raised _ s' => s' = s
  | Aborted => True
  end.
Proof.
  intros Hok.
  assert (Hid : wrap16 (m_sendMessageId s) = m_sendMessageId s) by apply wrap16_small, Hok.
  unfold SendMessage.
  destruct (negb (HasSlotAvailable _ _)); [done|].
  destruct (Insert _ _) as [[] q] eqn:Hins; simpl; [|done].
  apply Insert_true in Hins as [-> _].
  destruct (Find _ _) as [entry|] eqn:Hf; [|done].
  destruct (sq_valid entry && _ && _) eqn:Hassert; simpl; [|done].
  split; [by rewrite GetId_SetId|]. intros id x Hne Hx.
  apply Find_store_ne in Hx.
  - apply Find_store_ne in Hx; [done|]. simpl. congruence.
  - simpl. apply Find_Some in Hf as (_ & _ & Hq). simpl in Hq. congruence.
Qed.

Lemma ReceiveMessage_sendQueue (s : Channel) r s' :
  ReceiveMessage s = Returned r s' → m_sendQueue s' = m_sendQueue s.
Proof.
  unfold ReceiveMessage. destruct (Find _ _) as [entry|]; [|by intros [= <- <-]].
  destruct (rq_message entry); [|done]. destruct (negb _); [done|]. by intros [= <- <-].
Qed.

Lemma ReceiveMessage_not_raised (s : Channel) e s' : ReceiveMessage s ≠ Raised e s'.
Proof.
  unfold ReceiveMessage. destruct (Find _ _) as [entry|]; [|done].
  destruct (rq_message entry); [|done]. by destruct (negb _).
Qed.

Lemma ProcessData_sendQueue sequence data (s : Channel) :
  channel_ok s →
  match ProcessData m_config sequence data s with
  | Returned _ s' | Raised _ s' => m_sendQueue s' = m_sendQueue s
  | Aborted => True
  end.
Proof.
  intros Hok. unfold ProcessData.
  destruct (foldl _ _ _) as [[early' s']|] eqn:Hfold; [|done].
  eapply process_fold in Hfold as (_ & _ & _ & Hsq & _); [|done..].
  by destruct early'.
Qed.

(** The payload carries the ids selected. *)
Lemma payload_ids (q : SendQueue) sel ms :
  Forall sq_entry_ok (m_entries q) → payload q sel = Some ms → packet_ids ms = sel.
Proof.
  intros Hok Hp%payload_spec. unfold packet_ids.
  induction Hp as [|id m sel ms (e & Hf & Hm) _ IH]; [done|].
  rewrite fmap_cons, IH. f_equal.
  pose proof (Forall_Find _ _ _ _ Hok Hf) as He.
  apply Find_Some in Hf as (_ & Hv & Hq). destruct (He Hv) as (m' & Hm' & Hid).
  simpl in Hq. congruence.
Qed.

Lemma GetData_ids sequence (s : Channel) ms s' :
  channel_ok s →
  GetData m_config sequence s = Returned (Some ms) s' →
  gathered m_config (m_timeBase s) (m_sendQueue s) (packet_ids ms) (m_sendQueue s').
Proof.
  intros Hok (sel & Hg & _ & _ & _ & _ & _ & _ & _ & Hp & _)%GetData_spec.
  erewrite payload_ids; [done| |done].
  eapply touched_ok; [apply Hg|apply Hok].
Qed.

(** A message goes into a packet only when the send queue holds its
    entry and the entry passes the resend test. *)
Lemma GetData_eligible sequence (s : Channel) ms s' id :
  channel_ok s →
  GetData m_config sequence s = Returned (Some ms) s' →
  id ∈ packet_ids ms →
  ∃ e, Find (m_sendQueue s) id = Some e
       ∧ t_le (t_add (sq_timeLastSent e) (resendRate m_config)) (m_timeBase s) = true.
Proof.
  intros Hok Hg Hid. apply GetData_ids in Hg as (_ & _ & Hpre & _); [|done].
  rewrite Forall_forall in Hpre. by apply Hpre.
Qed.

Lemma GetData_starts_cooling sequence (s : Channel) ms s' id :
  channel_ok s →
  GetData m_config sequence s = Returned (Some ms) s' →
  id ∈ packet_ids ms →
  cooling m_config id (m_timeBase s) s'.
Proof.
  intros Hok Hg Hid. apply GetData_ids in Hg as (_ & _ & _ & Hpost & _); [|done].
  rewrite Forall_forall in Hpost. destruct (Hpost id Hid) as (e' & He' & Hnow).
  intros e He now Hle. congruence.
Qed.

Lemma GetData_keeps_cooling sequence (s : Channel) r s' id t :
  clock_ok m_config →
  cooling m_config id t s →
  GetData m_config sequence s = Returned r s' →
  cooling m_config id t s'.
Proof.
  intros [Htrans Hfwd] Hcool (sel & (Ht & _) & _)%GetData_spec.
  intros e' He' now Hle.
  destruct (touched_Find_inv _ _ _ _ _ Ht He') as (e & He & [->|[-> Hpass]]).
  - by eapply Hcool.
  - simpl in Hle. specialize (Hcool e He _ Hpass).
    eapply Htrans; [exact Hcool|]. eapply Htrans; [apply Hfwd|exact Hle].
Qed.

(** A call keeps the entry of [id] cooling, unless it queues a message
    under [id]; and a packet it sends with [id] is sent [resendRate] past
    [t]. *)
Lemma call_cooling op (s : Channel) evs s' id t :
  clock_ok m_config →
  channel_ok s →
  cooling m_config id t s →
  call m_config op s = Some (evs, s') →
  (∀ ev, ev ∈ evs → ¬ queues id ev) →
  cooling m_config id t s'
  ∧ ∀ ev t', ev ∈ evs → carries id t' ev → t_le (t_add t (resendRate m_config)) t' = true.
Proof.
  intros Hclock Hok Hcool.
  destruct op as [message| |sequence|sequence data|ack|timeBase]; simpl.
  - pose proof (SendMessage_other_ids message s Hok) as H.
    destruct (SendMessage _ _ _) as [m' s1|e s1|]; [| |done]; intros [= <- <-] Hq.
    + destruct H as [Hid Hother]. split.
      * intros e He. eapply Hcool, Hother; [|done].
        intros ->. apply (Hq (Queued m')); [by left|done].
      * intros ev t' [->|[]%elem_of_nil]%elem_of_cons [].
    + subst s1. split; [done|]. by intros ev t' []%elem_of_nil.
  - destruct (ReceiveMessage s) as [r s1|e s1|] eqn:Hr;
      [|by apply ReceiveMessage_not_raised in Hr|done].
    apply ReceiveMessage_sendQueue in Hr.
    assert (cooling m_config id t s1) by (unfold cooling; by rewrite Hr).
    destruct r; intros [= <- <-] _; (split; [done|]).
    + intros ev t' [->|[]%elem_of_nil]%elem_of_cons [].
    + by intros ev t' []%elem_of_nil.
  - destruct (GetData _ _ _) as [r s1|e s1|] eqn:Hg;
      [|by apply GetData_not_raised in Hg|done].
    pose proof (GetData_keeps_cooling _ _ _ _ _ _ Hclock Hcool Hg) as Hcool1.
    destruct r as [ms|]; intros [= <- <-] _; (split; [done|]).
    + intros ev t' [->|[]%elem_of_nil]%elem_of_cons [<- Hid].
      destruct (GetData_eligible _ _ _ _ _ Hok Hg Hid) as (e & He & Hpass).
      by eapply Hcool.
    + by intros ev t' []%elem_of_nil.
  - pose proof (ProcessData_sendQueue sequence data s Hok) as H.
    destruct (ProcessData _ _ _ _) as [r s1|e s1|]; [| |done]; intros [= <- <-] _.
    + split; [unfold cooling; by rewrite H|]. by intros ev t' []%elem_of_nil.
    + split; [unfold cooling; by rewrite H|]. by intros ev t' []%elem_of_nil.
  - destruct (ProcessAck_spec (wrap16 ack) s Hok) as (s1 & -> & _ & _ & _ & _ & _ & Hspec).
    intros [= <- <-] _. split; [|by intros ev t' []%elem_of_nil].
    destruct (Find (m_sentPackets s) (wrap16 ack)) as [packet|]; [|by subst s1].
    destruct (sp_acked packet); [by subst s1|].
    destruct Hspec as [Hfind _]. intros e He. rewrite Hfind in He.
    case_decide; [done|]. by eapply Hcool.
  - intros [= <- <-] _. split; [done|]. by intros ev t' []%elem_of_nil.
Qed.

Lemma call_events op (s : Channel) evs s' :
  call m_config op s = Some (evs, s') → evs = [] ∨ ∃ ev, evs = [ev].
Proof.
  destruct op as [message| |sequence|sequence data|ack|timeBase]; simpl.
  - destruct (SendMessage _ _ _); try done; intros [= <- <-]; eauto.
  - destruct (ReceiveMessage s) as [[]| |]; try done; intros [= <- <-]; eauto.
  - destruct (GetData _ _ _) as [[]| |]; try done; intros [= <- <-]; eauto.
  - destruct (ProcessData _ _ _ _); try done; intros [= <- <-]; eauto.
  - destruct (ProcessAck _ _); try done; intros [= <- <-]; eauto.
  - intros [= <- <-]; eauto.
Qed.

(** While the entry of [id] cools from [t], the next packet with [id]
    comes [resendRate] past [t], as long as no message is queued under
    [id] before it. *)
Lemma run_cooling ops id t : ∀ s : Channel,
  clock_ok m_config →
  channel_ok s →
  cooling m_config id t s →
  ∀ pre ev post t',
    (run m_config ops s).1 = pre ++ ev :: post →
    (∀ ev', ev' ∈ pre → ¬ queues id ev') →
    carries id t' ev →
    t_le (t_add t (resendRate m_config)) t' = true.
Proof.
  induction ops as [|op ops IH]; intros s Hclock Hok Hcool pre ev post t' Hrun Hpre Hev;
    simpl in Hrun.
  { by destruct pre. }
  destruct (call m_config op s) as [[evs s1]|] eqn:Hcall; simpl in Hrun.
  2:{ by destruct pre. }
  pose proof (call_ok _ _ _ _ Hok Hcall) as Hok1.
  destruct (run m_config ops s1) as [rest final] eqn:Hrest. simpl in Hrun.
  destruct (call_events _ _ _ _ Hcall) as [->|[ev1 ->]]; simpl in Hrun.
  - destruct (call_cooling _ _ _ _ id t Hclock Hok Hcool Hcall) as [Hcool1 _].
    { by intros ev' []%elem_of_nil. }
    eapply (IH s1 Hclock Hok1 Hcool1 pre ev post t'); [by rewrite Hrest|done|done].
  - destruct pre as [|ev0 pre]; simpl in Hrun; injection Hrun as -> ->.
    + destruct (call_cooling _ _ _ _ id t Hclock Hok Hcool Hcall) as [_ Hsent].
      * intros ev' [->|[]%elem_of_nil]%elem_of_cons Hq. by destruct ev.
      * eapply Hsent; [by left|done].
    + destruct (call_cooling _ _ _ _ id t Hclock Hok Hcool Hcall) as [Hcool1 _].
      { intros ev' [->|[]%elem_of_nil]%elem_of_cons. apply Hpre. by left. }
      eapply (IH s1 Hclock Hok1 Hcool1 pre ev post t'); [by rewrite Hrest| |done].
      intros ev' Hev'. apply Hpre. by right.
Qed.

(** C7, amended.  A message goes into a packet only when the send queue
    holds its entry (it is not acked) and the entry's last send lies
    [resendRate] back.  And in every run of a fresh channel, when a packet
    at time [t] carries the id and a later packet at time [t'] carries it
    again, with no message queued under this id between the two, then
    [t + resendRate <= t'].  The clock is taken to be transitive and the
    resend rate not to be negative. *)
Theorem GetData_resend_spacing (ops : list Op) id :
  clock_ok m_config →
  (∀ s sequence ms s',
     (run m_config ops (init m_config)).2 = Some s →
     GetData m_config sequence s = Returned (Some ms) s' →
     id ∈ packet_ids ms →
     ∃ e, Find (m_sendQueue s) id = Some e
          ∧ t_le (t_add (sq_timeLastSent e) (resendRate m_config)) (m_timeBase s) = true)
  ∧ ∀ pre t ms mid t' ms' post,
      (run m_config ops (init m_config)).1
      = pre ++ Packet t ms :: mid ++ Packet t' ms' :: post →
      id ∈ packet_ids ms →
      id ∈ packet_ids ms' →
      (∀ ev, ev ∈ mid → ¬ queues id ev) →
      t_le (t_add t (resendRate m_config)) t' = true.
Proof.
  intros Hclock. split.
  { intros s sequence ms s' Hs Hg Hid.
    destruct (run_delivers ops (init m_config) channel_ok_init) as [_ Hfinal].
    destruct (Hfinal s Hs) as [Hok _]. by eapply GetData_eligible. }
  generalize (init m_config) channel_ok_init.
  induction ops as [|op ops IH]; intros s Hok pre t ms mid t' ms' post Hrun Hid Hid' Hmid;
    simpl in Hrun.
  { by destruct pre. }
  destruct (call m_config op s) as [[evs s1]|] eqn:Hcall; simpl in Hrun.
  2:{ by destruct pre. }
  pose proof (call_ok _ _ _ _ Hok Hcall) as Hok1.
  destruct (run m_config ops s1) as [rest final] eqn:Hrest. simpl in Hrun.
  destruct (call_events _ _ _ _ Hcall) as [->|[ev1 ->]]; simpl in Hrun.
  - eapply (IH s1 Hok1 pre t ms mid t' ms' post); [by rewrite Hrest|done..].
  - destruct pre as [|ev0 pre]; simpl in Hrun; injection Hrun as -> ->.
    + assert (Hcool : cooling m_config id t s1).
      { destruct op as [message| |sequence|sequence data|ack|timeBase]; simpl in Hcall.
        - destruct (SendMessage _ _ _); try done; by injection Hcall.
        - destruct (ReceiveMessage s) as [[]| |]; try done; by injection Hcall.
        - destruct (GetData _ _ _) as [[ms1|] s2| |] eqn:Hg; try done.
          injection Hcall as <- <- <-. by eapply GetData_starts_cooling.
        - destruct (ProcessData _ _ _ _); try done; by injection Hcall.
        - destruct (ProcessAck _ _); try done; by injection Hcall.
        - by injection Hcall. }
      eapply (run_cooling ops id t s1 Hclock Hok1 Hcool mid (Packet t' ms') post);
        [by rewrite Hrest|done|done].
    + eapply (IH s1 Hok1 pre t ms mid t' ms' post); [by rewrite Hrest|done..].
Qed.

(** *** Runs *)

Lemma run_app ops1 ops2 (s : Channel) :
  run m_config (ops1 ++ ops2) s
  = match (run m_config ops1 s).2 with
    | Some s' =>
        ((run m_config ops1 s).1 ++ (run m_config ops2 s').1, (run m_config ops2 s').2)
    | None => ((run m_config ops1 s).1, None)
    end.
Proof.
  revert s. induction ops1 as [|op ops1 IH]; intros s; simpl.
  { by destruct (run m_config ops2 s). }
  destruct (call m_config op s) as [[evs s1]|]; simpl; [|done].
  rewrite IH. destruct (run m_config ops1 s1) as [evs1 [s2|]]; simpl; [|done].
  destruct (run m_config ops2 s2). simpl. by rewrite app_assoc.
Qed.

Lemma exec_app ops1 ops2 (s : Channel) :
  exec m_config (ops1 ++ ops2) s = exec m_config ops1 s ≫= exec m_config ops2.
Proof.
  unfold exec. rewrite run_app. by destruct ((run m_config ops1 s).2).
Qed.

(** The same calls over and over. *)
Lemma exec_rounds n ops (o : option Channel) :
  o ≫= exec m_config (concat (replicate n ops))
  = Nat.iter n (fun o => o ≫= exec m_config ops) o.
Proof.
  set (f := fun o : option Channel => o ≫= exec m_config ops).
  revert o. induction n as [|n IH]; intros o.
  { by destruct o. }
  change (concat (replicate (S n) ops)) with (ops ++ concat (replicate n ops)).
  change (Nat.iter (S n) f o) with (f (Nat.iter n f o)).
  rewrite <- Nat.iter_swap, <- IH.
  destruct o as [s|]; simpl; [|done]. apply exec_app.
Qed.

(** Every channel a run of a fresh channel leads to is well formed. *)
Lemma exec_ok ops (s : Channel) : exec m_config ops (init m_config) = Some s → channel_ok s.
Proof.
  intros Hs. destruct (run_delivers ops (init m_config) channel_ok_init) as [_ Hfinal].
  by apply Hfinal.
Qed.

End Facts.
(** *** The properties on the scenarios *)

Import Scenarios.

Ltac by_computing := vm_compute; first [reflexivity | done | lia].

(** The clock in milliseconds is transitive, and the resend rate of the
    scenarios is not negative. *)
Lemma clock_ok_config : clock_ok config.
Proof.
  split.
  - intros a b c Hab Hbc. apply Z.leb_le in Hab, Hbc. apply Z.leb_le. lia.
  - intros x. apply Z.leb_le. simpl. lia.
Qed.

Lemma GetData_within_budget_witness :
  GetData config 0 two_queued = Returned (Some first_packet) two_sent
  ∧ ∃ sel,
      payload (m_sendQueue two_sent) sel = Some first_packet
      ∧ length first_packet = length sel
      ∧ measured (m_sendQueue two_sent) sel <= packetBudget config * 8
      ∧ Z.of_nat (length first_packet) <= maxMessagesPerPacket config.
Proof.
  split; [by_computing|].
  apply (GetData_within_budget config 0 two_queued first_packet two_sent).
  by_computing.
Defined.

Lemma GetData_frame_witness :
  GetData config 0 two_queued = Returned (Some first_packet) two_sent
  ∧ ∃ sel,
      payload (m_sendQueue two_sent) sel = Some first_packet
      ∧ (∀ id, id ∈ sel →
           ∃ e, Find (m_sendQueue two_queued) id = Some e
                ∧ Find (m_sendQueue two_sent) id
                  = Some (set_timeLastSent (m_timeBase two_queued) e))
      ∧ (∀ k, (∀ id, id ∈ sel → index (m_sendQueue two_queued) id ≠ k) →
           m_entries (m_sendQueue two_sent) !! k = m_entries (m_sendQueue two_queued) !! k).
Proof.
  split; [by_computing|].
  destruct (GetData_frame config 0 two_queued first_packet two_sent) as (sel & H).
  { by_computing. }
  exists sel. tauto.
Defined.

Lemma lands_free_mixed_payload : lands_free config (init config) mixed_payload.
Proof.
  split.
  - intros m Hm Hw.
    repeat (apply elem_of_cons in Hm as [->|Hm]); try (by apply elem_of_nil in Hm);
      try (vm_compute in Hw; discriminate);
      exists (entry_default (T:=ReceiveQueueEntry)); split; by_computing.
  - apply (bool_decide_unpack _). by_computing.
Qed.

Lemma ProcessData_window_witness :
  channel_ok (init config)
  ∧ lands_free config (init config) mixed_payload
  ∧ ∃ s',
      ProcessData config 0 mixed_payload (init config) = Raised EarlyMessage s'
      ∧ GetCounter MessagesRead s' = 4
      ∧ GetCounter MessagesDiscardedLate s' = 1
      ∧ GetCounter MessagesDiscardedEarly s' = 1
      ∧ Find (m_receiveQueue s') 2
        = Some (ReceiveQueueEntry_new (arriving 2) 2 (m_timeBase (init config))).
Proof.
  split; [apply channel_ok_init|]. split; [apply lands_free_mixed_payload|].
  destruct (ProcessData_window config 0 mixed_payload (init config)
              (channel_ok_init config) lands_free_mixed_payload)
    as (s' & Hcall & Hread & Hlate & Hearly & Hin & _).
  exists s'. split_and!; [exact Hcall|exact Hread|exact Hlate|exact Hearly|].
  apply (Hin (arriving 2)); [|by_computing].
  do 3 right. by left.
Defined.

(** C3 as it stands fails on a message whose id is below
    [m_receiveMessageId] and above the end of the window at once: with the
    default window [0, 255], the id 32800 is 32736 below 0 and 32545 above
    255 under wrap-around.  The message is above the window, and
    [ProcessData] counts it as late only: it does not touch
    [MessagesDiscardedEarly] and does not throw. *)
Lemma ProcessData_above_counted_late :
  is_late (init config_default) (arriving 32800) = true
  ∧ is_above config_default (init config_default) (arriving 32800) = true
  ∧ ProcessData config_default 0 [arriving 32800] (init config_default)
    = Returned () far_received
  ∧ GetCounter MessagesDiscardedLate far_received = 1
  ∧ GetCounter MessagesDiscardedEarly far_received = 0.
Proof. split_and!; by_computing. Qed.

Lemma ProcessData_duplicate_witness :
  0 < m_size (m_receiveQueue once_received)
  ∧ in_window config once_received (arriving 0) = true
  ∧ Find (m_receiveQueue once_received) (GetId (arriving 0))
    = Some (ReceiveQueueEntry_new (arriving 0) 0 0)
  ∧ ProcessData_with config (fun w e => (true, store w (entry_sequence e) e)) 0
      [arriving 0] once_received
    = Returned () (add_counter MessagesRead 1 once_received)
  ∧ Insert (m_receiveQueue once_received) (ReceiveQueueEntry_new (arriving 0) 0 0)
    = (false, m_receiveQueue once_received)
  ∧ ProcessData_with config Insert 0 [arriving 0] once_received = Aborted.
Proof.
  assert (H1 : 0 < m_size (m_receiveQueue once_received)) by by_computing.
  assert (H2 : in_window config once_received (arriving 0) = true) by by_computing.
  assert (H3 : Find (m_receiveQueue once_received) (GetId (arriving 0))
               = Some (ReceiveQueueEntry_new (arriving 0) 0 0)) by by_computing.
  split_and!; [exact H1|exact H2|exact H3| | |].
  - destruct (ProcessData_duplicate config (fun w e => (true, store w (entry_sequence e) e)) 0
                (arriving 0) once_received _ H1 H2 H3) as [Hover _].
    destruct Hover as (_ & _ & _ & Hsame); [by_computing|]. by apply Hsame.
  - apply (ProcessData_duplicate config Insert 0 (arriving 0) once_received _ H1 H2 H3).
  - destruct (ProcessData_duplicate config Insert 0 (arriving 0) once_received _ H1 H2 H3)
      as (_ & Hrefused & Hins & _).
    by apply (Hrefused (m_receiveQueue once_received)).
Defined.

(** C4 as it stands fails, whatever [Insert] does with the slot that is
    taken.  With [Insert] as section 4.1 has it, the message 0 that
    arrives again is refused and the assertion ends the call.  With an
    [Insert] that writes over the slot, the message 0 that arrives again
    five milliseconds later is stored with the new time of receipt: the
    channel is not as before. *)
Lemma ProcessData_duplicate_not_idempotent :
  ProcessData config 0 [arriving 0] once_received = Aborted
  ∧ rq_timeReceived <$> Find (m_receiveQueue later_received) 0 = Some 0
  ∧ ∃ s', ProcessData_with config (fun w e => (true, store w (entry_sequence e) e)) 0
            [arriving 0] later_received = Returned () s'
          ∧ rq_timeReceived <$> Find (m_receiveQueue s') 0 = Some 5.
Proof.
  split; [by_computing|]. split; [by_computing|].
  eexists. split; [by_computing|by_computing].
Qed.

Lemma SendMessage_queues_witness :
  channel_ok (init config)
  ∧ CanSendMessage (init config) = true
  ∧ ∃ s',
      SendMessage config (message 24) (init config) = Returned (SetId (message 24) 0) s'
      ∧ Find (m_sendQueue s') 0
        = Some {| sq_message := Some (SetId (message 24) 0); sq_sequence := 0;
                  sq_valid := true; sq_measuredBits := 44; sq_timeLastSent := -1000 |}
      ∧ m_sendMessageId s' = 1
      ∧ GetCounter MessagesSent s' = 1.
Proof.
  split; [apply channel_ok_init|]. split; [by_computing|].
  destruct (SendMessage_queues config (message 24) (init config) (channel_ok_init config))
    as [_ H].
  change (CanSendMessage (init config)) with true in H.
  destruct H as (s' & Hcall & _ & Hfind & _ & Hid & Hsent).
  exists s'. split_and!; [exact Hcall|exact Hfind|exact Hid|exact Hsent].
Defined.

(** C5 as it stands fails twice.  The entry starts with [timeLastSent]
    -1, one second before time zero, which is no lower bound of all times:
    with a resend rate of two seconds, a message queued at time zero
    fails the resend test and [GetData] returns nothing, although the
    message was never sent.  And [measuredBits] has 15 bits: a message of
    32768 bits with 20 bits of overhead is entered with 20 measured
    bits. *)
Lemma SendMessage_sentinel_and_bits :
  (SendMessage config_slow (message 24) (init config_slow)
   = Returned (SetId (message 24) 0) slow_queued
   ∧ sq_timeLastSent <$> Find (m_sendQueue slow_queued) 0 = Some (-1000)
   ∧ may_include config_slow (m_timeBase slow_queued) (packetBudget config_slow * 8)
       <$> Find (m_sendQueue slow_queued) 0 = Some false
   ∧ GetData config_slow 0 slow_queued = Returned None slow_queued)
  ∧ (∃ s' entry,
       SendMessage config_large (message (N.to_nat 32768)) (init config_large)
       = Returned (SetId (message (N.to_nat 32768)) 0) s'
       ∧ Find (m_sendQueue s') 0 = Some entry
       ∧ serialized_bits (message (N.to_nat 32768)) + m_messageOverheadBits config_large
         = 32788
       ∧ sq_measuredBits entry = 20).
Proof.
  split; [split_and!; by_computing|].
  assert (Hbits : serialized_bits (message (N.to_nat 32768)) = 32768).
  { unfold serialized_bits, message. cbn [msg_body]. rewrite length_replicate. lia. }
  destruct (SendMessage_returns config_large (message (N.to_nat 32768)) (init config_large)
              (channel_ok_init config_large)) as (q' & Hcall & Hfind); [by_computing|].
  eexists _, _. split_and!; [exact Hcall|exact Hfind|by rewrite Hbits|].
  cbn [sq_measuredBits]. by rewrite Hbits.
Qed.

Lemma two_sent_ok : channel_ok two_sent.
Proof.
  apply (exec_ok config
           [CallSendMessage (message 24); CallSendMessage (message 24); CallGetData 0]).
  by_computing.
Qed.

Lemma ProcessAck_releases_witness :
  channel_ok two_sent
  ∧ Find (m_sentPackets two_sent) 0
    = Some {| sp_sequence := 0; sp_acked := false; sp_valid := true; sp_timeSent := 0;
              sp_messageIds := [0; 1] |}
  ∧ sq_message <$> Find (m_sendQueue two_sent) 0 = Some (Some (SetId (message 24) 0))
  ∧ ∃ s', ProcessAck 0 two_sent = Returned () s'
          ∧ Find (m_sendQueue s') 0 = None
          ∧ sq_message <$> slot (m_sendQueue s') 0 = Some None
          ∧ sq_valid <$> slot (m_sendQueue s') 0 = Some false
          ∧ ProcessAck 0 s' = Returned () s'.
Proof.
  split; [apply two_sent_ok|]. split; [by_computing|]. split; [by_computing|].
  destruct (ProcessAck_releases 0 0 two_sent
              {| sp_sequence := 0; sp_acked := false; sp_valid := true; sp_timeSent := 0;
                 sp_messageIds := [0; 1] |} two_sent_ok)
    as (s' & Hcall & Hnew & _ & Hagain & _).
  - by_computing.
  - by left.
  - destruct (Hnew eq_refl) as (Hgone & Hslot & _).
    destruct (Find (m_sendQueue two_sent) 0) as [e|] eqn:He; [|by vm_compute in He].
    exists s'. rewrite (Hslot e eq_refl).
    split_and!; [exact Hcall|exact Hgone|done|done|by apply Hagain].
Defined.

Lemma exec_bind_app ops1 ops2 (o : option (Channel (Time:=Z))) :
  o ≫= exec config (ops1 ++ ops2) = (o ≫= exec config ops1) ≫= exec config ops2.
Proof. destruct o as [s|]; [|done]. apply exec_app. Qed.

(** The channel after [wrap_around]: the id 0 is in the send queue for
    the second time. *)
Lemma wrap_around_rest_wrapped : exec config wrap_around_rest one_sent = Some wrapped.
Proof.
  unfold wrap_around_rest, rounds. rewrite exec_app, exec_bind_app, exec_rounds.
  rewrite <- N2Nat.inj_iter. by_computing.
Qed.

Lemma exec_after ops (s : Channel (Time:=Z)) :
  Some s ≫= exec config ops = exec config ops s.
Proof. done. Qed.

Lemma one_sent_reached :
  exec config [CallSendMessage (message 24); CallGetData 0] (init config) = Some one_sent.
Proof. by_computing. Qed.

Lemma wrap_around_wrapped : exec config wrap_around (init config) = Some wrapped.
Proof.
  unfold wrap_around. rewrite exec_app, one_sent_reached, exec_after.
  apply wrap_around_rest_wrapped.
Qed.

(** C6 as it stands fails when the packet was acked before and its
    message id came round again: after [wrap_around], the sent-packet entry
    of packet 0 holds the id 0 and is acked, the send queue holds the new
    message 0, and [ProcessAck( 0 )] leaves all as it is. *)
Lemma ProcessAck_acked_keeps_reused_id :
  exec config wrap_around (init config) = Some wrapped
  ∧ sp_messageIds <$> Find (m_sentPackets wrapped) 0 = Some [0]
  ∧ sp_acked <$> Find (m_sentPackets wrapped) 0 = Some true
  ∧ ProcessAck 0 wrapped = Returned () wrapped
  ∧ sq_sequence <$> Find (m_sendQueue wrapped) 0 = Some 0.
Proof. split; [apply wrap_around_wrapped|]. split_and!; by_computing. Qed.

Lemma GetData_resend_spacing_witness :
  clock_ok config
  ∧ (run config resend (init config)).1
    = [Queued (SetId (message 24) 0)]
      ++ Packet 0 [SetId (message 24) 0] :: [] ++ Packet 100 [SetId (message 24) 0] :: []
  ∧ t_le (t_add 0 (resendRate config)) 100 = true.
Proof.
  split; [apply clock_ok_config|]. split; [by_computing|].
  destruct (GetData_resend_spacing config resend 0 clock_ok_config) as [_ H].
  apply (H [Queued (SetId (message 24) 0)] 0 [SetId (message 24) 0] []
           100 [SetId (message 24) 0] []).
  - by_computing.
  - by left.
  - by left.
  - by intros ev ?%elem_of_nil.
Defined.

(** C7 as it stands fails when the id comes round again: in
    [wrap_around], all at time 0, the first packet carries the message of
    id 0; 65536 messages later the id 0 names a new message, and a packet at
    time 0 carries it, 100 ms before [0 + resendRate]. *)
Lemma GetData_reused_id_not_spaced :
  exec config [CallSendMessage (message 24)] (init config) = Some one_queued
  ∧ m_timeBase one_queued = 0
  ∧ GetData config 0 one_queued = Returned (Some [SetId (message 24) 0]) one_sent
  ∧ packet_ids [SetId (message 24) 0] = [0]
  ∧ exec config wrap_around_rest one_sent = Some wrapped
  ∧ m_timeBase wrapped = 0
  ∧ GetData config 2 wrapped = Returned (Some [SetId (message 24) 0]) wrapped_sent
  ∧ t_le (t_add 0 (resendRate config)) 0 = false.
Proof.
  split_and!;
    [by_computing|by_computing|by_computing|by_computing
    |apply wrap_around_rest_wrapped
    |by_computing|by_computing|by_computing].
Qed.

End ChannelFacts.

(** ** The channel, call by call and run by run *)

Module ChannelRuns.
Import SlidingWindow WindowFacts ReliableMessageChannel ChannelFacts.

Section Facts.
Context {Time : Type} {clock : Clock Time}.
Local Abbreviation Config := (@ReliableMessageChannelConfig Time).
Local Abbreviation Channel := (@Channel Time).
Local Abbreviation SendQueue := (t (@SendQueueEntry Time)).
Variable m_config : Config.

(** *** What each call changes *)

Lemma SendMessage_shape message (s : Channel) :
  match SendMessage m_config message s with
  | Returned m' s' =>
      m' = SetId message (m_sendMessageId s)
      ∧ ∃ q, s' = set_sendMessageId (wrap16 (m_sendMessageId s + 1))
                    (add_counter MessagesSent 1 (set_sendQueue q s))
  | Raised e s' => e = QueueOverflow ∧ s' = s
  | Aborted => True
  end.
Proof.
  unfold SendMessage.
  destruct (negb (HasSlotAvailable _ _)); [done|].
  destruct (Insert _ _) as [[] q] eqn:Hins; simpl; [|done].
  destruct (Find _ _) as [entry|] eqn:Hf; [|done].
  destruct (negb _); [done|]. split; [done|]. by eexists.
Qed.

Lemma ReceiveMessage_shape (s : Channel) r s' :
  ReceiveMessage s = Returned r s' →
  match r with
  | Some _ =>
      ∃ q, s' = set_receiveMessageId (wrap16 (m_receiveMessageId s + 1))
                  (add_counter MessagesReceived 1 (set_receiveQueue q s))
  | None => s' = s
  end.
Proof.
  unfold ReceiveMessage. destruct (Find _ _) as [entry|]; [|by intros [= <- <-]].
  destruct (rq_message entry); [|done]. destruct (negb _); [done|].
  intros [= <- <-]. by eexists.
Qed.

Lemma payload_length (q : SendQueue) ids ms : payload q ids = Some ms → length ms = length ids.
Proof. intros Hp%payload_spec. symmetry. by eapply Forall2_length. Qed.

Lemma GetData_shape sequence (s : Channel) r s' :
  GetData m_config sequence s = Returned r s' →
  match r with
  | Some ms =>
      ∃ q p, s' = add_counter MessagesWritten (Z.of_nat (length ms))
                    (set_sentPackets p (set_sendQueue q s))
  | None => s' = s
  end.
Proof.
  destruct r as [ms|].
  2:{ by intros (sel & _ & _ & _ & _ & _ & _ & _ & Hr)%GetData_spec. }
  unfold GetData. destruct (find_oldest m_config s) as [[] oldest]; simpl; [|done].
  destruct (gather _ _ _ _ _ _ _) as [[[avail sel'] q']|] eqn:Hgat; [|done].
  destruct (negb _); [done|]. destruct (_ =? 0); [done|].
  destruct (slot _ _); [|done]. simpl.
  destruct (payload _ _) as [ms'|] eqn:Hp'; [|done].
  intros [= <- <-]. apply payload_length in Hp'. rewrite Hp'. by eexists _, _.
Qed.

Lemma ProcessAck_shape ack (s : Channel) s' :
  ProcessAck ack s = Returned () s' →
  ∃ q p, s' = set_sentPackets p (set_sendQueue q s).
Proof.
  unfold ProcessAck.
  assert (Hsame : s = set_sentPackets (m_sentPackets s) (set_sendQueue (m_sendQueue s) s))
    by by destruct s.
  destruct (Find _ _) as [packet|]; [|intros [= <-]; by eexists _, _].
  destruct (sp_acked packet); [intros [= <-]; by eexists _, _|].
  destruct (foldl _ _ _); [|done]. intros [= <-]. by eexists _, _.
Qed.

Lemma ProcessAck_not_raised ack (s : Channel) e s' : ProcessAck ack s ≠ Raised e s'.
Proof.
  unfold ProcessAck. destruct (Find _ _) as [packet|]; [|done].
  destruct (sp_acked packet); [done|]. by destruct (foldl _ _ _).
Qed.

Lemma GetCounter_other c c' n (s : Channel) :
  counters_ok s → c ≠ c' → GetCounter c (add_counter c' n s) = GetCounter c s.
Proof. intros Hc Hne. rewrite GetCounter_add_counter by done. by rewrite decide_False. Qed.

Lemma GetCounter_same c n (s : Channel) :
  counters_ok s → GetCounter c (add_counter c n s) = wrap64 (GetCounter c s + n).
Proof. intros Hc. rewrite GetCounter_add_counter by done. by rewrite decide_True. Qed.

Lemma wrap64_0 c (s : Channel) : counters_ok s → wrap64 (GetCounter c s + 0) = GetCounter c s.
Proof. intros Hc. rewrite Z.add_0_r. by apply wrap64_small, GetCounter_range. Qed.

(** The loop of [ProcessData], whatever the slots hold: what it leaves
    alone. *)
Lemma ProcessData_shape sequence data (s : Channel) :
  channel_ok s →
  match ProcessData m_config sequence data s with
  | Returned _ s' | Raised _ s' =>
      m_sendQueue s' = m_sendQueue s
      ∧ m_sentPackets s' = m_sentPackets s
      ∧ m_sendMessageId s' = m_sendMessageId s
      ∧ m_receiveMessageId s' = m_receiveMessageId s
      ∧ m_timeBase s' = m_timeBase s
      ∧ GetCounter MessagesSent s' = GetCounter MessagesSent s
      ∧ GetCounter MessagesWritten s' = GetCounter MessagesWritten s
      ∧ GetCounter MessagesReceived s' = GetCounter MessagesReceived s
      ∧ GetCounter MessagesRead s' = wrap64 (GetCounter MessagesRead s + Z.of_nat (length data))
      ∧ (∀ id e', Find (m_receiveQueue s') id = Some e' →
           Find (m_receiveQueue s) id = Some e'
           ∨ ∃ m, m ∈ data ∧ rq_message e' = Some m)
  | Aborted => True
  end.
Proof.
  intros Hok. unfold ProcessData.
  destruct (foldl _ _ _) as [[early' s']|] eqn:Hfold; [|done].
  eapply process_fold in Hfold
    as (_ & Hrid & Hsid & Hsq & Hsp & Ht & _ & Hread & _ & _ & Hsent & Hwr & Hrec & Hprov);
    [|done..].
  assert (H : m_sendQueue s' = m_sendQueue s
      ∧ m_sentPackets s' = m_sentPackets s
      ∧ m_sendMessageId s' = m_sendMessageId s
      ∧ m_receiveMessageId s' = m_receiveMessageId s
      ∧ m_timeBase s' = m_timeBase s
      ∧ GetCounter MessagesSent s' = GetCounter MessagesSent s
      ∧ GetCounter MessagesWritten s' = GetCounter MessagesWritten s
      ∧ GetCounter MessagesReceived s' = GetCounter MessagesReceived s
      ∧ GetCounter MessagesRead s' = wrap64 (GetCounter MessagesRead s + Z.of_nat (length data))
      ∧ (∀ id e', Find (m_receiveQueue s') id = Some e' →
           Find (m_receiveQueue s) id = Some e'
           ∨ ∃ m, m ∈ data ∧ rq_message e' = Some m)).
  { split_and!; try done. intros id e' Hf.
    destruct (Hprov id e' Hf) as [?|(m & Hm & _ & _ & ->)]; [by left|].
    right. by exists m. }
  by destruct early'.
Qed.

(** X1.  A call on the sending side ([SendMessage], [GetData], [ProcessAck])
    leaves the receiving side as it is: the receive queue,
    [m_receiveMessageId] and the counters of received messages. A call on
    the receiving side ([ProcessData], [ReceiveMessage]) leaves the send
    queue, the sent packets, [m_sendMessageId] and the counters of sent
    messages. Only [Update] changes the time, and it changes nothing else. *)
Theorem calls_keep_to_their_side op (s : Channel) evs s' :
  channel_ok s →
  call m_config op s = Some (evs, s') →
  match op with
  | CallSendMessage _ | CallGetData _ | CallProcessAck _ =>
      m_receiveQueue s' = m_receiveQueue s
      ∧ m_receiveMessageId s' = m_receiveMessageId s
      ∧ m_timeBase s' = m_timeBase s
      ∧ GetCounter MessagesRead s' = GetCounter MessagesRead s
      ∧ GetCounter MessagesReceived s' = GetCounter MessagesReceived s
      ∧ GetCounter MessagesDiscardedLate s' = GetCounter MessagesDiscardedLate s
      ∧ GetCounter MessagesDiscardedEarly s' = GetCounter MessagesDiscardedEarly s
  | CallProcessData _ _ | CallReceiveMessage =>
      m_sendQueue s' = m_sendQueue s
      ∧ m_sentPackets s' = m_sentPackets s
      ∧ m_sendMessageId s' = m_sendMessageId s
      ∧ m_timeBase s' = m_timeBase s
      ∧ GetCounter MessagesSent s' = GetCounter MessagesSent s
      ∧ GetCounter MessagesWritten s' = GetCounter MessagesWritten s
  | CallUpdate timeBase => s' = set_timeBase timeBase s
  end.
Proof.
  intros Hok. assert (Hc : counters_ok s) by apply Hok.
  destruct op as [message| |sequence|sequence data|ack|timeBase]; simpl.
  - pose proof (SendMessage_shape message s) as H.
    destruct (SendMessage _ _ _) as [m' s1|e s1|]; [| |done]; intros [= <- <-].
    + destruct H as [_ [q ->]]. simpl.
      change (GetCounter ?c (set_sendMessageId ?i ?x)) with (GetCounter c x).
      rewrite !GetCounter_other by done. done.
    + by destruct H as [_ ->].
  - destruct (ReceiveMessage s) as [r s1|e s1|] eqn:Hr;
      [|by apply ReceiveMessage_not_raised in Hr|done].
    apply ReceiveMessage_shape in Hr.
    destruct r as [m|]; intros [= <- <-]; [|by subst s1].
    destruct Hr as [q ->]. simpl.
    change (GetCounter ?c (set_receiveMessageId ?i ?x)) with (GetCounter c x).
    rewrite !GetCounter_other by done. done.
  - destruct (GetData _ _ _) as [r s1|e s1|] eqn:Hg;
      [|by apply GetData_not_raised in Hg|done].
    apply GetData_shape in Hg.
    destruct r as [ms|]; intros [= <- <-]; [|by subst s1].
    destruct Hg as (q & p & ->). simpl.
    rewrite !GetCounter_other by done. done.
  - pose proof (ProcessData_shape sequence data s Hok) as H.
    destruct (ProcessData _ _ _ _) as [r s1|e s1|]; [| |done]; intros [= <- <-];
      destruct H as (? & ? & ? & ? & ? & ? & ? & _); done.
  - destruct (ProcessAck (wrap16 ack) s) as [[] s1|e s1|] eqn:Ha;
      [|by apply ProcessAck_not_raised in Ha|done].
    apply ProcessAck_shape in Ha as (q & p & ->). by intros [= <- <-].
  - by intros [= <- <-].
Qed.

(** *** The ids [SendMessage] gives *)

Lemma queued_of_app (evs1 evs2 : list (@Event Time)) :
  queued_of (evs1 ++ evs2) = queued_of evs1 ++ queued_of evs2.
Proof. apply omap_app. Qed.

Lemma sent_in_app (evs1 evs2 : list (@Event Time)) :
  sent_in (evs1 ++ evs2) = sent_in evs1 ++ sent_in evs2.
Proof. unfold sent_in. by rewrite omap_app, concat_app. Qed.

(** What a call queues: nothing, with [m_sendMessageId] as it was, or one
    message under that id, with [m_sendMessageId] moved on by one. *)
Lemma call_queues op (s : Channel) evs s' :
  channel_ok s → call m_config op s = Some (evs, s') →
  (queued_of evs = [] ∧ m_sendMessageId s' = m_sendMessageId s)
  ∨ ∃ m, queued_of evs = [m] ∧ GetId m = m_sendMessageId s
         ∧ m_sendMessageId s' = wrap16 (m_sendMessageId s + 1).
Proof.
  intros Hok. destruct op as [message| |sequence|sequence data|ack|timeBase]; simpl.
  - pose proof (SendMessage_shape message s) as H.
    destruct (SendMessage _ _ _) as [m' s1|e s1|]; [| |done]; intros [= <- <-].
    + destruct H as [-> [q ->]]. right. eexists. split_and!; [done| |done].
      rewrite GetId_SetId. apply wrap16_small, Hok.
    + destruct H as [_ ->]. by left.
  - destruct (ReceiveMessage s) as [r s1|e s1|] eqn:Hr;
      [|by apply ReceiveMessage_not_raised in Hr|done].
    apply ReceiveMessage_shape in Hr.
    destruct r as [m|]; intros [= <- <-]; left; [|by subst s1].
    by destruct Hr as [q ->].
  - destruct (GetData _ _ _) as [r s1|e s1|] eqn:Hg;
      [|by apply GetData_not_raised in Hg|done].
    apply GetData_shape in Hg.
    destruct r as [ms|]; intros [= <- <-]; left; [|by subst s1].
    by destruct Hg as (q & p & ->).
  - pose proof (ProcessData_shape sequence data s Hok) as H.
    destruct (ProcessData _ _ _ _) as [r s1|e s1|]; [| |done]; intros [= <- <-]; left;
      destruct H as (_ & _ & ? & _); done.
  - destruct (ProcessAck (wrap16 ack) s) as [[] s1|e s1|] eqn:Ha;
      [|by apply ProcessAck_not_raised in Ha|done].
    apply ProcessAck_shape in Ha as (q & p & ->). intros [= <- <-]. by left.
  - intros [= <- <-]. by left.
Qed.

Lemma run_queues ops : ∀ s : Channel,
  channel_ok s →
  GetId <$> queued_of (run m_config ops s).1
  = ids_from (m_sendMessageId s) (length (queued_of (run m_config ops s).1))
  ∧ ∀ s', (run m_config ops s).2 = Some s' →
      m_sendMessageId s'
      = wrap16 (m_sendMessageId s + Z.of_nat (length (queued_of (run m_config ops s).1))).
Proof.
  induction ops as [|op ops IH]; intros s Hok; simpl.
  { split; [done|]. intros s' [= <-].
    rewrite Z.add_0_r. symmetry. apply wrap16_small, Hok. }
  destruct (call m_config op s) as [[evs s1]|] eqn:Hcall; simpl.
  2:{ split; [done|]. done. }
  pose proof (call_ok _ _ _ _ _ Hok Hcall) as Hok1.
  destruct (IH s1 Hok1) as [Hids Hfinal].
  destruct (run m_config ops s1) as [rest final]. simpl in *.
  rewrite queued_of_app, fmap_app, length_app.
  destruct (call_queues _ _ _ _ Hok Hcall) as [[-> Hsid]|(m & -> & Hid & Hsid)]; simpl.
  - rewrite Hids, Hsid. split; [done|]. intros s' Hs'. by rewrite (Hfinal s' Hs'), Hsid.
  - rewrite ids_from_S, Hids, Hsid, Hid. split.
    + f_equal. symmetry. apply wrap16_small, Hok.
    + intros s' Hs'. rewrite (Hfinal s' Hs'), Hsid.
      unfold wrap16. rewrite Zplus_mod_idemp_l. f_equal. lia.
Qed.

(** X2.  For every sequence of calls on a new channel, the messages that the
    successful [SendMessage] calls queued carry the ids 0, 1, 2, ... (under
    16-bit wrap-around) in the order of the calls, and [m_sendMessageId] is
    their number modulo 2^16; a call that throws [QueueOverflow] uses up no
    id. *)
Theorem SendMessage_ids_in_order (ops : list Op) :
  GetId <$> queued_of (run m_config ops (init m_config)).1
  = ids_from 0 (length (queued_of (run m_config ops (init m_config)).1))
  ∧ ∀ s, (run m_config ops (init m_config)).2 = Some s →
      m_sendMessageId s
      = wrap16 (Z.of_nat (length (queued_of (run m_config ops (init m_config)).1))).
Proof.
  destruct (run_queues ops (init m_config) (channel_ok_init m_config)) as [Hids Hfinal].
  split; [exact Hids|]. intros s Hs. by rewrite (Hfinal s Hs).
Qed.

(** *** The counters *)

Lemma call_counters op (s : Channel) evs s' :
  channel_ok s → call m_config op s = Some (evs, s') →
  GetCounter MessagesSent s'
  = wrap64 (GetCounter MessagesSent s + Z.of_nat (length (queued_of evs)))
  ∧ GetCounter MessagesWritten s'
    = wrap64 (GetCounter MessagesWritten s + Z.of_nat (length (sent_in evs)))
  ∧ GetCounter MessagesReceived s'
    = wrap64 (GetCounter MessagesReceived s + Z.of_nat (length (delivered evs)))
  ∧ GetCounter MessagesRead s'
    = wrap64 (GetCounter MessagesRead s + Z.of_nat (length (arrived [op]))).
Proof.
  intros Hok. assert (Hc : counters_ok s) by apply Hok.
  assert (Hsame : ∀ c, wrap64 (GetCounter c s + Z.of_nat 0) = GetCounter c s)
    by (intros c; by apply wrap64_0).
  destruct op as [message| |sequence|sequence data|ack|timeBase]; simpl.
  - pose proof (SendMessage_shape message s) as H.
    destruct (SendMessage _ _ _) as [m' s1|e s1|]; [| |done]; intros [= <- <-].
    + destruct H as [_ [q ->]]. simpl.
      change (GetCounter ?c (set_sendMessageId ?i ?x)) with (GetCounter c x).
      rewrite GetCounter_same, !GetCounter_other by done.
      change (GetCounter ?c (set_sendQueue q s)) with (GetCounter c s).
      by rewrite !Hsame.
    + destruct H as [_ ->]. simpl. by rewrite !Hsame.
  - destruct (ReceiveMessage s) as [r s1|e s1|] eqn:Hr;
      [|by apply ReceiveMessage_not_raised in Hr|done].
    apply ReceiveMessage_shape in Hr.
    destruct r as [m|]; intros [= <- <-]; simpl.
    + destruct Hr as [q ->].
      change (GetCounter ?c (set_receiveMessageId ?i ?x)) with (GetCounter c x).
      rewrite GetCounter_same, !GetCounter_other by done.
      change (GetCounter ?c (set_receiveQueue q s)) with (GetCounter c s).
      by rewrite !Hsame.
    + subst s1. by rewrite !Hsame.
  - destruct (GetData _ _ _) as [r s1|e s1|] eqn:Hg;
      [|by apply GetData_not_raised in Hg|done].
    apply GetData_shape in Hg.
    destruct r as [ms|]; intros [= <- <-]; simpl.
    + destruct Hg as (q & p & ->).
      rewrite GetCounter_same, !GetCounter_other by done.
      change (GetCounter ?c (set_sentPackets p (set_sendQueue q s))) with (GetCounter c s).
      unfold sent_in. simpl. rewrite app_nil_r. by rewrite !Hsame.
    + subst s1. by rewrite !Hsame.
  - pose proof (ProcessData_shape sequence data s Hok) as H.
    unfold arrived. simpl. rewrite app_nil_r.
    destruct (ProcessData _ _ _ _) as [r s1|e s1|]; [| |done]; intros [= <- <-];
      destruct H as (_ & _ & _ & _ & _ & -> & -> & -> & -> & _); simpl;
      by rewrite !Hsame.
  - destruct (ProcessAck (wrap16 ack) s) as [[] s1|e s1|] eqn:Ha;
      [|by apply ProcessAck_not_raised in Ha|done].
    apply ProcessAck_shape in Ha as (q & p & ->). intros [= <- <-]. simpl.
    change (GetCounter ?c (set_sentPackets p (set_sendQueue q s))) with (GetCounter c s).
    by rewrite !Hsame.
  - intros [= <- <-]. simpl.
    change (GetCounter ?c (set_timeBase timeBase s)) with (GetCounter c s).
    by rewrite !Hsame.
Qed.

Lemma arrived_cons op (ops : list (@Op Time)) : arrived (op :: ops) = arrived [op] ++ arrived ops.
Proof. unfold arrived. destruct op; simpl; by rewrite ?app_nil_r. Qed.

Lemma run_counters ops : ∀ s s' : Channel,
  channel_ok s →
  (run m_config ops s).2 = Some s' →
  GetCounter MessagesSent s'
  = wrap64 (GetCounter MessagesSent s + Z.of_nat (length (queued_of (run m_config ops s).1)))
  ∧ GetCounter MessagesWritten s'
    = wrap64 (GetCounter MessagesWritten s + Z.of_nat (length (sent_in (run m_config ops s).1)))
  ∧ GetCounter MessagesReceived s'
    = wrap64 (GetCounter MessagesReceived s
              + Z.of_nat (length (delivered (run m_config ops s).1)))
  ∧ GetCounter MessagesRead s'
    = wrap64 (GetCounter MessagesRead s + Z.of_nat (length (arrived ops))).
Proof.
  induction ops as [|op ops IH]; intros s s' Hok; simpl.
  { intros [= <-]. assert (Hc : counters_ok s) by apply Hok.
    change (Z.of_nat (length _)) with 0. by rewrite !wrap64_0. }
  destruct (call m_config op s) as [[evs s1]|] eqn:Hcall; simpl; [|done].
  pose proof (call_ok _ _ _ _ _ Hok Hcall) as Hok1.
  specialize (IH s1 s' Hok1).
  destruct (run m_config ops s1) as [rest final]. simpl in *.
  intros Hs'. destruct (IH Hs') as (-> & -> & -> & ->).
  destruct (call_counters _ _ _ _ Hok Hcall) as (-> & -> & -> & ->).
  rewrite queued_of_app, sent_in_app, <- delivered_app, (arrived_cons op ops), !length_app.
  rewrite !wrap64_add_l. split_and!; f_equal; lia.
Qed.

(** X3.  The counters tally with what the host saw. After every sequence of
    calls on a new channel, none of them aborted: [MessagesSent] is the
    number of messages [SendMessage] queued, [MessagesWritten] the number of
    messages in the payloads [GetData] returned (a message counts each time
    it is sent), [MessagesReceived] the number of messages [ReceiveMessage]
    returned and [MessagesRead] the number of messages in the payloads given
    to [ProcessData], discarded ones included; each modulo 2^64. *)
Theorem counters_tally (ops : list Op) (s : Channel) :
  (run m_config ops (init m_config)).2 = Some s →
  GetCounter MessagesSent s
  = wrap64 (Z.of_nat (length (queued_of (run m_config ops (init m_config)).1)))
  ∧ GetCounter MessagesWritten s
    = wrap64 (Z.of_nat (length (sent_in (run m_config ops (init m_config)).1)))
  ∧ GetCounter MessagesReceived s
    = wrap64 (Z.of_nat (length (delivered (run m_config ops (init m_config)).1)))
  ∧ GetCounter MessagesRead s = wrap64 (Z.of_nat (length (arrived ops))).
Proof.
  intros Hs.
  destruct (run_counters ops (init m_config) s (channel_ok_init m_config) Hs)
    as (-> & -> & -> & ->).
  done.
Qed.

(** *** Where the messages come from *)

Lemma Find_create {T} `{WE : WindowEntry T} size seq : Find (create (T:=T) size) seq = None.
Proof.
  destruct (Find _ _) as [e|] eqn:Hf; [|done].
  apply Find_Some in Hf as (Hs & Hv & _). unfold slot, create in Hs. simpl in Hs.
  apply lookup_replicate in Hs as [-> _]. by rewrite entry_default_valid in Hv.
Qed.

Lemma sends_of_init Q : sends_of Q (init m_config).
Proof. intros id e m Hf. unfold init in Hf. simpl in Hf. by rewrite Find_create in Hf. Qed.

Lemma receives_of_init A : receives_of A (init m_config).
Proof. intros id e m Hf. unfold init in Hf. simpl in Hf. by rewrite Find_create in Hf. Qed.

(** The send queue after [SendMessage]: the new entry holds the message
    returned, the other entries are those of before. *)
Lemma SendMessage_Find message (s : Channel) m' s' :
  channel_ok s →
  SendMessage m_config message s = Returned m' s' →
  ∀ id e, Find (m_sendQueue s') id = Some e →
    (id = m_sendMessageId s ∧ sq_message e = Some m')
    ∨ (id ≠ m_sendMessageId s ∧ Find (m_sendQueue s) id = Some e).
Proof.
  intros Hok Hsend id e Hf.
  destruct (decide (id = m_sendMessageId s)) as [->|Hne].
  - left. split; [done|].
    assert (Hav : CanSendMessage s = true).
    { unfold CanSendMessage. unfold SendMessage in Hsend.
      by destruct (HasSlotAvailable _ _). }
    destruct (SendMessage_returns m_config message s Hok Hav) as (q' & Hcall & Hfind).
    rewrite Hsend in Hcall. injection Hcall as -> ->. simpl in Hf.
    rewrite Hfind in Hf. by injection Hf as <-.
  - right. split; [done|].
    pose proof (SendMessage_other_ids m_config message s Hok) as H.
    rewrite Hsend in H. destruct H as [_ H]. by apply H.
Qed.

Lemma ReceiveMessage_Find (s : Channel) r s' :
  ReceiveMessage s = Returned r s' →
  ∀ id e, Find (m_receiveQueue s') id = Some e → Find (m_receiveQueue s) id = Some e.
Proof.
  unfold ReceiveMessage. destruct (Find _ _) as [entry|] eqn:Hentry; [|by intros [= <- <-]].
  destruct (rq_message entry); [|done]. destruct (negb _); [done|].
  intros [= <- <-] id e. simpl.
  rewrite (Find_store_released _ _ entry) by done. by case_decide.
Qed.

(** A call takes into the send queue what it queues only, and sends
    messages of the send queue only. *)
Lemma call_sends op (s : Channel) evs s' Q :
  channel_ok s → sends_of Q s →
  call m_config op s = Some (evs, s') →
  sends_of (Q ++ queued_of evs) s'
  ∧ ∀ m, m ∈ sent_in evs → m ∈ Q.
Proof.
  intros Hok HQ. destruct op as [message| |sequence|sequence data|ack|timeBase]; simpl.
  - destruct (SendMessage _ _ _) as [m' s1|e s1|] eqn:Hsend; [| |done]; intros [= <- <-].
    + split; [|by intros m ?%elem_of_nil].
      intros id e m Hf Hm. simpl. apply elem_of_app.
      destruct (SendMessage_Find _ _ _ _ Hok Hsend id e Hf) as [[_ Hm']|[_ Hf']].
      * right. rewrite Hm in Hm'. injection Hm' as ->. by left.
      * left. by eapply HQ.
    + pose proof (SendMessage_shape message s) as H. rewrite Hsend in H.
      destruct H as [_ ->]. simpl. rewrite app_nil_r. split; [done|].
      by intros m ?%elem_of_nil.
  - destruct (ReceiveMessage s) as [r s1|e s1|] eqn:Hr;
      [|by apply ReceiveMessage_not_raised in Hr|done].
    apply ReceiveMessage_sendQueue in Hr.
    assert (sends_of Q s1) by (unfold sends_of; by rewrite Hr).
    destruct r as [m|]; intros [= <- <-]; simpl; rewrite app_nil_r;
      (split; [done|]); by intros ? ?%elem_of_nil.
  - destruct (GetData _ _ _) as [r s1|e s1|] eqn:Hg;
      [|by apply GetData_not_raised in Hg|done].
    apply GetData_spec in Hg as (sel & (Ht & _) & _ & _ & _ & _ & _ & Hr).
    assert (HQ1 : sends_of Q s1).
    { intros id e' m Hf Hm.
      destruct (touched_Find_inv _ _ _ _ _ _ Ht Hf) as (e & He & [->|[-> _]]);
        by eapply HQ. }
    destruct r as [ms|]; intros [= <- <-]; simpl; rewrite app_nil_r; (split; [done|]).
    + unfold sent_in. simpl. rewrite app_nil_r. intros m Hm.
      destruct Hr as (_ & _ & Hp%payload_spec & _).
      apply list_elem_of_lookup in Hm as [i Hi].
      destruct (Forall2_lookup_r _ _ _ _ _ Hp Hi) as (id & _ & e & Hf & Hmsg).
      by eapply HQ1.
    + by intros ? ?%elem_of_nil.
  - pose proof (ProcessData_shape sequence data s Hok) as H.
    destruct (ProcessData _ _ _ _) as [r s1|e s1|]; [| |done]; intros [= <- <-];
      destruct H as (Hsq & _); simpl; rewrite app_nil_r;
      (split; [unfold sends_of; by rewrite Hsq|]); by intros ? ?%elem_of_nil.
  - destruct (ProcessAck_spec (wrap16 ack) s Hok) as (s1 & -> & _ & _ & _ & _ & _ & Hspec).
    intros [= <- <-]. simpl. rewrite app_nil_r. split; [|by intros ? ?%elem_of_nil].
    destruct (Find (m_sentPackets s) (wrap16 ack)) as [packet|]; [|by subst s1].
    destruct (sp_acked packet); [by subst s1|].
    destruct Hspec as [Hfind _]. intros id e m Hf. rewrite Hfind in Hf.
    case_decide; [done|]. by eapply HQ.
  - intros [= <- <-]. simpl. rewrite app_nil_r. split; [done|]. by intros ? ?%elem_of_nil.
Qed.

Lemma run_sends ops : ∀ (s : Channel) Q,
  channel_ok s → sends_of Q s →
  ∀ pre t ms post m,
    (run m_config ops s).1 = pre ++ Packet t ms :: post →
    m ∈ ms →
    m ∈ Q ∨ Queued m ∈ pre.
Proof.
  induction ops as [|op ops IH]; intros s Q Hok HQ pre t ms post m Hrun Hm; simpl in Hrun.
  { by destruct pre. }
  destruct (call m_config op s) as [[evs s1]|] eqn:Hcall; simpl in Hrun.
  2:{ by destruct pre. }
  pose proof (call_ok _ _ _ _ _ Hok Hcall) as Hok1.
  destruct (call_sends _ _ _ _ Q Hok HQ Hcall) as [HQ1 Hsent].
  destruct (run m_config ops s1) as [rest final] eqn:Hrest. simpl in Hrun.
  destruct (call_events _ _ _ _ _ Hcall) as [->|[ev1 ->]]; simpl in Hrun.
  - simpl in HQ1. rewrite app_nil_r in HQ1.
    eapply (IH s1 Q Hok1 HQ1 pre t ms post m); [by rewrite Hrest|done].
  - destruct pre as [|ev0 pre]; simpl in Hrun; injection Hrun as -> ->.
    + left. apply Hsent. unfold sent_in. simpl. by rewrite app_nil_r.
    + destruct (IH s1 _ Hok1 HQ1 pre t ms post m) as [HinQ|Hin]; [by rewrite Hrest|done| |].
      * apply elem_of_app in HinQ as [?|Hq]; [by left|]. right.
        destruct ev0; simpl in Hq; try by apply elem_of_nil in Hq.
        apply list_elem_of_singleton in Hq as ->. by left.
      * right. by right.
Qed.

(** X4.  A packet carries queued messages only. In every run of a new
    channel, each message of a payload that [GetData] returns is a message
    that an earlier [SendMessage] call queued, with the id that call gave it
    and the bits it had. *)
Theorem packets_carry_queued_messages (ops : list Op) pre t ms post m :
  (run m_config ops (init m_config)).1 = pre ++ Packet t ms :: post →
  m ∈ ms →
  Queued m ∈ pre.
Proof.
  intros Hrun Hm.
  destruct (run_sends ops (init m_config) [] (channel_ok_init m_config) (sends_of_init [])
              pre t ms post m Hrun Hm) as [?%elem_of_nil|?]; done.
Qed.

(** A call takes into the receive queue messages of its payload only,
    and delivers messages of the receive queue only. *)
Lemma call_receives op (s : Channel) evs s' A :
  channel_ok s → receives_of A s →
  call m_config op s = Some (evs, s') →
  receives_of (A ++ arrived [op]) s'
  ∧ ∀ m, m ∈ delivered evs → m ∈ A.
Proof.
  intros Hok HA.
  assert (Hkeep : ∀ s1 : Channel, m_receiveQueue s1 = m_receiveQueue s →
            receives_of (A ++ []) s1).
  { intros s1 Hrq id e m. rewrite Hrq, app_nil_r. apply HA. }
  destruct op as [message| |sequence|sequence data|ack|timeBase]; simpl.
  - pose proof (SendMessage_shape message s) as H.
    destruct (SendMessage _ _ _) as [m' s1|e s1|]; [| |done]; intros [= <- <-];
      (split; [|by intros ? ?%elem_of_nil]); apply Hkeep.
    + by destruct H as [_ [q ->]].
    + by destruct H as [_ ->].
  - destruct (ReceiveMessage_spec s Hok) as (r & s1 & Hcall & _ & Hr). rewrite Hcall.
    pose proof (ReceiveMessage_Find _ _ _ Hcall) as Hfind.
    assert (HA1 : receives_of (A ++ arrived [CallReceiveMessage (Time:=Time)]) s1).
    { intros id e m Hf Hm. unfold arrived. simpl. rewrite app_nil_r.
      eapply HA; [by apply Hfind|done]. }
    destruct r as [m|]; intros [= <- <-]; (split; [done|]).
    + intros m' [->|[]%elem_of_nil]%elem_of_cons.
      destruct Hr as (_ & (entry & Hf & Hm) & _). by eapply HA.
    + by intros ? ?%elem_of_nil.
  - destruct (GetData _ _ _) as [r s1|e s1|] eqn:Hg;
      [|by apply GetData_not_raised in Hg|done].
    apply GetData_spec in Hg as (sel & _ & _ & _ & _ & Hrq & _).
    destruct r as [ms|]; intros [= <- <-]; (split; [by apply Hkeep|]);
      by intros ? ?%elem_of_nil.
  - pose proof (ProcessData_shape sequence data s Hok) as H.
    assert (Harr : arrived [CallProcessData (Time:=Time) sequence data] = data).
    { unfold arrived. simpl. by rewrite app_nil_r. }
    rewrite Harr.
    destruct (ProcessData _ _ _ _) as [r s1|e s1|]; [| |done]; intros [= <- <-];
      destruct H as (_ & _ & _ & _ & _ & _ & _ & _ & _ & Hprov);
      (split; [|by intros ? ?%elem_of_nil]);
      intros id e' m Hf Hm; apply elem_of_app;
      (destruct (Hprov id e' Hf) as [Hold|(m' & Hin & Hm')];
       [left; by eapply HA|right; congruence]).
  - destruct (ProcessAck_spec (wrap16 ack) s Hok) as (s1 & -> & _ & _ & Hrq & _).
    intros [= <- <-]. split; [by apply Hkeep|]. by intros ? ?%elem_of_nil.
  - intros [= <- <-]. split; [by apply Hkeep|]. by intros ? ?%elem_of_nil.
Qed.

Lemma run_receives ops : ∀ (s : Channel) A,
  channel_ok s → receives_of A s →
  ∀ m, m ∈ delivered (run m_config ops s).1 → m ∈ A ++ arrived ops.
Proof.
  induction ops as [|op ops IH]; intros s A Hok HA m Hm; simpl in Hm.
  { by apply elem_of_nil in Hm. }
  destruct (call m_config op s) as [[evs s1]|] eqn:Hcall; simpl in Hm.
  2:{ by apply elem_of_nil in Hm. }
  pose proof (call_ok _ _ _ _ _ Hok Hcall) as Hok1.
  destruct (call_receives _ _ _ _ A Hok HA Hcall) as [HA1 Hdel].
  destruct (run m_config ops s1) as [rest final] eqn:Hrest. simpl in Hm.
  rewrite <- delivered_app in Hm. rewrite (arrived_cons op ops), app_assoc.
  apply elem_of_app in Hm as [Hm|Hm].
  - apply elem_of_app. left. apply elem_of_app. left. by apply Hdel.
  - apply (IH s1 _ Hok1 HA1). by rewrite Hrest.
Qed.

(** X5.  [ReceiveMessage] returns messages that arrived only. In every run
    of a new channel, each message that [ReceiveMessage] returns is a
    message of a payload that was given to [ProcessData], as it was there. *)
Theorem delivered_messages_arrived (ops : list Op) m :
  m ∈ delivered (run m_config ops (init m_config)).1 → m ∈ arrived ops.
Proof.
  intros Hm.
  by apply (run_receives ops (init m_config) [] (channel_ok_init m_config) (receives_of_init [])).
Qed.

(** *** [GetData] with nothing to send *)

(** X6.  [GetData] throws nothing. When it returns null (the send queue is
    empty, or no message of the window passes the resend test and fits), the
    channel is as it was: no time is stamped, no sent-packet entry is
    written and no counter moves. With an empty send queue it does return
    null. *)
Theorem GetData_without_payload sequence (s : Channel) :
  (∀ e s', GetData m_config sequence s ≠ Raised e s')
  ∧ (∀ s', GetData m_config sequence s = Returned None s' → s' = s)
  ∧ ((∀ id, Find (m_sendQueue s) id = None) →
     GetData m_config sequence s = Returned None s).
Proof.
  split_and!.
  - intros e s'. apply GetData_not_raised.
  - by intros s' (sel & _ & _ & _ & _ & _ & _ & _ & Hr)%GetData_spec.
  - intros Hnone. unfold GetData, find_oldest.
    assert (Hscan : ∀ l acc, foldl (oldest_step s (wrap16 (m_sendMessageId s
                                     - sendQueueSize m_config))) acc l = acc).
    { induction l as [|i l IH]; intros acc; [done|].
      change (foldl ?f ?a (i :: l)) with (foldl f (f a i) l). unfold oldest_step at 2.
      destruct acc as [found oldest]. by rewrite Hnone. }
    by rewrite Hscan.
Qed.

(** *** The packet and its ack *)

(** The sent-packet entry that [GetData] writes. *)
Lemma GetData_packet sequence (s : Channel) ms s' :
  GetData m_config sequence s = Returned (Some ms) s' →
  ∃ sel,
    payload (m_sendQueue s') sel = Some ms
    ∧ is_Some (slot (m_sentPackets s) sequence)
    ∧ m_sentPackets s'
      = store (InsertFast (m_sentPackets s) sequence) sequence
          (set_sentPacket (m_timeBase s) sel (entry_stamp sequence entry_default)).
Proof.
  unfold GetData. destruct (find_oldest m_config s) as [[] oldest]; simpl; [|done].
  destruct (gather _ _ _ _ _ _ _) as [[[avail sel] q']|] eqn:Hgat; [|done].
  destruct (negb _); [done|]. destruct (_ =? 0); [done|].
  destruct (slot _ _) as [packet|] eqn:Hslot; [|done]. simpl.
  destruct (payload _ _) as [ms'|] eqn:Hp; [|done].
  intros [= <- <-]. exists sel. simpl.
  unfold InsertFast, slot, store in Hslot. simpl in Hslot.
  assert (Hlt : (index (m_sentPackets s) sequence < length (m_entries (m_sentPackets s)))%nat).
  { apply lookup_lt_Some in Hslot. by rewrite length_insert in Hslot. }
  unfold index in *. simpl in *.
  rewrite list_lookup_insert_eq in Hslot by done. injection Hslot as <-.
  split_and!; [done| |done]. by apply lookup_lt_is_Some_2.
Qed.

(** The sent-packet entry of a payload, as [Find] gives it. *)
Lemma GetData_Find_packet sequence (s : Channel) ms s' :
  channel_ok s →
  0 <= sequence < 65536 →
  GetData m_config sequence s = Returned (Some ms) s' →
  channel_ok s'
  ∧ Find (m_sentPackets s') sequence
    = Some (set_sentPacket (m_timeBase s) (packet_ids ms)
              (entry_stamp sequence (entry_default (T:=SentPacketEntry)))).
Proof.
  intros Hok Hseq Hg.
  assert (Hok' : channel_ok s').
  { apply (call_ok m_config (CallGetData sequence) s [Packet (m_timeBase s) ms] s' Hok).
    simpl. rewrite wrap16_small by done. by rewrite Hg. }
  pose proof (GetData_packet _ _ _ _ Hg) as (sel & Hp & Hslot & Hpackets).
  assert (Hids : packet_ids ms = sel).
  { eapply payload_ids; [|done]. apply Hok'. }
  split; [done|]. rewrite Hpackets, Hids. apply Find_Some. split_and!.
  - apply slot_store_same; [done|]. unfold InsertFast.
    rewrite slot_store_same; [by eexists|done..].
  - done.
  - simpl. by apply wrap16_small.
Qed.

(** X7.  The ack of a packet. When [GetData( sequence )] returns a payload,
    the sent-packet entry of [sequence] lists the ids of the payload's
    messages, in their order, is not acked and carries the time of the call.
    [ProcessAck( sequence )] then returns, takes exactly these messages out
    of the send queue, whatever their number, and marks the entry acked. *)
Theorem ProcessAck_releases_payload sequence (s : Channel) ms s' :
  channel_ok s →
  0 <= sequence < 65536 →
  GetData m_config sequence s = Returned (Some ms) s' →
  (∃ packet, Find (m_sentPackets s') sequence = Some packet
     ∧ sp_messageIds packet = packet_ids ms
     ∧ sp_acked packet = false
     ∧ sp_timeSent packet = m_timeBase s)
  ∧ ∃ s'', ProcessAck sequence s' = Returned () s''
      ∧ (∀ id, Find (m_sendQueue s'') id
               = if decide (id ∈ packet_ids ms) then None else Find (m_sendQueue s') id)
      ∧ sp_acked <$> Find (m_sentPackets s'') sequence = Some true.
Proof.
  intros Hok Hseq Hg.
  destruct (GetData_Find_packet _ _ _ _ Hok Hseq Hg) as [Hok' Hfind].
  split.
  { eexists. by split_and!. }
  destruct (ProcessAck_spec sequence s' Hok') as (s'' & Hcall & _ & _ & _ & _ & _ & Hspec).
  rewrite Hfind in Hspec. simpl in Hspec. destruct Hspec as [Hgone Hacked].
  exists s''. split_and!; [done|done|by rewrite Hacked].
Qed.

(** *** The order of a payload *)

Lemma gather_sublist now oldest todo : ∀ avail ids (q : SendQueue) avail' ids' q',
  gather m_config now oldest todo avail ids q = Some (avail', ids', q') →
  ∃ sel, ids' = ids ++ sel
         ∧ sel `sublist_of` ((fun i => wrap16 (oldest + i)) <$> todo).
Proof.
  induction todo as [|i todo IH]; intros avail ids q avail' ids' q' Hg; simpl in Hg.
  { injection Hg as <- <- <-. exists []. by rewrite app_nil_r. }
  assert (Hstop : ∃ sel : list Z, ids = ids ++ sel
            ∧ sel `sublist_of` ((fun i => wrap16 (oldest + i)) <$> i :: todo)).
  { exists []. rewrite app_nil_r. split; [done|]. apply sublist_nil_l. }
  assert (Hskip : ∀ avail1 q1,
            gather m_config now oldest todo avail1 ids q1 = Some (avail', ids', q') →
            ∃ sel, ids' = ids ++ sel
                   ∧ sel `sublist_of` ((fun i => wrap16 (oldest + i)) <$> i :: todo)).
  { intros avail1 q1 (sel & -> & Hsub)%IH. exists sel. split; [done|].
    rewrite fmap_cons. by apply sublist_cons. }
  destruct (avail <? giveUpBits m_config).
  { by injection Hg as <- <- <-. }
  destruct (Find q (wrap16 (oldest + i))) as [entry|] eqn:Hf.
  2:{ destruct (Z.of_nat (length ids) =? maxMessagesPerPacket m_config).
      - by injection Hg as <- <- <-.
      - by eapply Hskip. }
  destruct (may_include m_config now avail entry).
  2:{ destruct (Z.of_nat (length ids) =? maxMessagesPerPacket m_config).
      - by injection Hg as <- <- <-.
      - by eapply Hskip. }
  destruct (Z.of_nat (length ids) <? maxMessagesPerPacket m_config); [|done].
  destruct (Z.of_nat (length (ids ++ [wrap16 (oldest + i)])) =? maxMessagesPerPacket m_config).
  - injection Hg as <- <- <-. exists [wrap16 (oldest + i)]. split; [done|].
    rewrite fmap_cons. apply sublist_skip, sublist_nil_l.
  - apply IH in Hg as (sel & -> & Hsub). exists (wrap16 (oldest + i) :: sel).
    split; [by rewrite <- app_assoc|]. rewrite fmap_cons. by apply sublist_skip.
Qed.

Lemma wrap16_inj o i j :
  0 <= i < 65536 → 0 <= j < 65536 → wrap16 (o + i) = wrap16 (o + j) → i = j.
Proof.
  unfold wrap16. intros Hi Hj Heq.
  pose proof (Z.div_mod (o + i) 65536 ltac:(lia)).
  pose proof (Z.div_mod (o + j) 65536 ltac:(lia)).
  lia.
Qed.

Lemma NoDup_ids_from start n : Z.of_nat n <= 65536 → NoDup (ids_from start n).
Proof.
  intros Hn. unfold ids_from. apply NoDup_fmap_2_strong; [|apply NoDup_seqZ].
  intros i j Hi%elem_of_seqZ Hj%elem_of_seqZ. apply wrap16_inj; lia.
Qed.

(** X8.  A payload lists its messages by ascending id. The ids of a payload
    that [GetData] returns are taken, in order, from the [receiveQueueSize]
    ids that start at the oldest id of the send queue, so that no message is
    twice in a payload (the window is taken to hold 2^16 ids at most). *)
Theorem GetData_ids_ascending sequence (s : Channel) ms s' :
  channel_ok s →
  receiveQueueSize m_config <= 65536 →
  GetData m_config sequence s = Returned (Some ms) s' →
  ∃ oldestMessageId,
    find_oldest m_config s = (true, oldestMessageId)
    ∧ packet_ids ms
      `sublist_of` ids_from oldestMessageId (Z.to_nat (receiveQueueSize m_config))
    ∧ NoDup (packet_ids ms).
Proof.
  intros Hok Hsize Hg.
  assert (Hok' : Forall sq_entry_ok (m_entries (m_sendQueue s'))).
  { pose proof Hg as (sel & (Ht & _) & _)%GetData_spec.
    eapply touched_ok; [exact Ht|apply Hok]. }
  revert Hg. unfold GetData.
  destruct (find_oldest m_config s) as [[] oldest]; simpl; [|done].
  destruct (gather _ _ _ _ _ _ _) as [[[avail sel] q']|] eqn:Hgat; [|done].
  destruct (negb _); [done|]. destruct (_ =? 0); [done|].
  destruct (slot _ _) as [packet|]; [|done]. simpl.
  destruct (payload _ _) as [ms'|] eqn:Hp; [|done].
  intros [= <- <-]. simpl in Hok'.
  apply (payload_ids _ _ _ Hok') in Hp. rewrite Hp.
  apply gather_sublist in Hgat as (sel' & Hsel & Hsub). simpl in Hsel. subst sel'.
  assert (Hsub' : sel `sublist_of` ids_from oldest (Z.to_nat (receiveQueueSize m_config))).
  { unfold ids_from.
    destruct (Z.le_gt_cases 0 (receiveQueueSize m_config)) as [Hpos|Hneg].
    - by rewrite Z2Nat.id.
    - rewrite seqZ_nil in Hsub by lia. apply sublist_nil_r in Hsub. subst sel.
      apply sublist_nil_l. }
  exists oldest. split_and!; [done|done|].
  eapply sublist_NoDup; [|exact Hsub']. apply NoDup_ids_from. lia.
Qed.

(** *** One message on its way *)

Lemma sequence_less_than_irrefl x : sequence_less_than x x = false.
Proof. unfold sequence_less_than. by rewrite Z.sub_diag. Qed.

Lemma oldest_fold_found (s : Channel) base id0 l :
  (∀ i x, i ∈ l → Find (m_sendQueue s) (wrap16 (base + i)) = Some x → wrap16 (base + i) = id0) →
  foldl (oldest_step s base) (true, id0) l = (true, id0).
Proof.
  induction l as [|i l IH]; intros Hall; [done|].
  change (foldl ?f ?a (i :: l)) with (foldl f (f a i) l). unfold oldest_step at 2.
  assert (Hl : ∀ j x, j ∈ l → Find (m_sendQueue s) (wrap16 (base + j)) = Some x →
                 wrap16 (base + j) = id0).
  { intros j x Hj. apply Hall. by right. }
  destruct (Find _ _) as [x|] eqn:Hf; [|by apply IH].
  rewrite (Hall i x) by (done || by left). rewrite sequence_less_than_irrefl. simpl.
  by apply IH.
Qed.

Lemma oldest_fold (s : Channel) base id0 l z :
  (∀ i x, i ∈ l → Find (m_sendQueue s) (wrap16 (base + i)) = Some x → wrap16 (base + i) = id0) →
  (∃ i, i ∈ l ∧ is_Some (Find (m_sendQueue s) (wrap16 (base + i)))) →
  foldl (oldest_step s base) (false, z) l = (true, id0).
Proof.
  induction l as [|i l IH]; intros Hall (j & Hj & Hsome).
  { by apply elem_of_nil in Hj. }
  change (foldl ?f ?a (i :: l)) with (foldl f (f a i) l). unfold oldest_step at 2.
  assert (Hl : ∀ j x, j ∈ l → Find (m_sendQueue s) (wrap16 (base + j)) = Some x →
                 wrap16 (base + j) = id0).
  { intros k x Hk. apply Hall. by right. }
  destruct (Find (m_sendQueue s) (wrap16 (base + i))) as [x|] eqn:Hf.
  - simpl. rewrite (Hall i x) by (done || by left). by apply oldest_fold_found.
  - apply IH; [done|]. apply elem_of_cons in Hj as [->|Hj].
    + rewrite Hf in Hsome. by destruct Hsome.
    + by exists j.
Qed.

Lemma oldest_fold_empty (s : Channel) base l acc :
  (∀ id, Find (m_sendQueue s) id = None) →
  foldl (oldest_step s base) acc l = acc.
Proof.
  intros Hnone. induction l as [|i l IH]; [done|].
  change (foldl ?f ?a (i :: l)) with (foldl f (f a i) l). unfold oldest_step at 2.
  destruct acc as [found oldest]. by rewrite Hnone.
Qed.

Lemma wrap16_add_l a b : wrap16 (wrap16 a + b) = wrap16 (a + b).
Proof. unfold wrap16. apply Zplus_mod_idemp_l. Qed.

Lemma find_oldest_lone e (s : Channel) :
  lone e s → 0 < sendQueueSize m_config →
  find_oldest m_config s = (true, wrap16 (m_sendMessageId s - 1)).
Proof.
  intros Hlone Hsize. unfold find_oldest. apply oldest_fold.
  - intros i x _ Hf. rewrite Hlone in Hf. by case_decide.
  - exists (sendQueueSize m_config - 1). split; [apply elem_of_seqZ; lia|].
    rewrite Hlone, decide_True; [by eexists|].
    rewrite wrap16_add_l. f_equal. lia.
Qed.

(** With nothing in the send queue, [GetData] has nothing to send. *)
Lemma GetData_empty sequence (s : Channel) :
  (∀ id, Find (m_sendQueue s) id = None) →
  GetData m_config sequence s = Returned None s.
Proof.
  intros Hnone. unfold GetData, find_oldest. by rewrite oldest_fold_empty.
Qed.

Lemma gather_none now oldest todo : ∀ avail ids (q : SendQueue),
  (∀ i, i ∈ todo → Find q (wrap16 (oldest + i)) = None) →
  gather m_config now oldest todo avail ids q = Some (avail, ids, q).
Proof.
  induction todo as [|i todo IH]; intros avail ids q Hnone; [done|]. simpl.
  destruct (avail <? giveUpBits m_config); [done|].
  rewrite Hnone by by left.
  destruct (Z.of_nat (length ids) =? maxMessagesPerPacket m_config); [done|].
  apply IH. intros j Hj. apply Hnone. by right.
Qed.

Lemma has_slots_store {T} (w : t T) seq e : has_slots w → has_slots (store w seq e).
Proof.
  intros Hw seq'. destruct (decide (index w seq' = index w seq)) as [Hi|Hi].
  - rewrite slot_store_same; [by eexists|done|apply Hw].
  - rewrite slot_store_other by done. apply Hw.
Qed.

Lemma has_slots_create {T} `{WE : WindowEntry T} size : 0 < size → has_slots (create (T:=T) size).
Proof.
  intros Hsize seq. unfold slot, create, index. simpl.
  apply lookup_lt_is_Some_2. rewrite length_replicate.
  pose proof (Z.mod_pos_bound seq size Hsize). lia.
Qed.

(** [GetData] with one message in the send queue, when the resend test
    lets it pass: the payload is this message, and the entry carries the
    time of the call. *)
Lemma GetData_lone sequence (s : Channel) e m :
  lone e s → has_slots (m_sentPackets s) → sq_message e = Some m →
  0 < sendQueueSize m_config →
  0 < receiveQueueSize m_config <= 65536 →
  0 < maxMessagesPerPacket m_config →
  giveUpBits m_config <= packetBudget m_config * 8 →
  may_include m_config (m_timeBase s) (packetBudget m_config * 8) e = true →
  ∃ s', GetData m_config sequence s = Returned (Some [m]) s'
        ∧ lone (set_timeLastSent (m_timeBase s) e) s'
        ∧ has_slots (m_sentPackets s')
        ∧ m_timeBase s' = m_timeBase s.
Proof.
  intros Hlone Hslots Hm Hsq Hrq Hmax Hgive Hinc.
  unfold GetData. rewrite (find_oldest_lone e) by done. simpl.
  set (oldest := wrap16 (m_sendMessageId s - 1)).
  assert (Ho : wrap16 (oldest + 0) = oldest).
  { rewrite Z.add_0_r. apply wrap16_idem. }
  assert (Hfound : Find (m_sendQueue s) oldest = Some e).
  { by rewrite Hlone, decide_True. }
  set (q1 := store (m_sendQueue s) oldest (set_timeLastSent (m_timeBase s) e)).
  assert (Hq1 : ∀ id, Find q1 id
                      = if decide (id = oldest) then Some (set_timeLastSent (m_timeBase s) e)
                        else None).
  { intros id. unfold q1. pose proof Hfound as (_ & Hv & Hq)%Find_Some.
    rewrite (Find_store_found _ _ e) by done. case_decide; [done|].
    rewrite Hlone. by rewrite decide_False. }
  assert (Hgat : gather m_config (m_timeBase s) oldest (seqZ 0 (receiveQueueSize m_config))
                   (packetBudget m_config * 8) [] (m_sendQueue s)
                 = Some (packetBudget m_config * 8 - sq_measuredBits e, [oldest], q1)).
  { rewrite seqZ_cons by lia. simpl.
    destruct (Z.ltb_spec (packetBudget m_config * 8) (giveUpBits m_config)) as [?|_]; [lia|].
    rewrite Ho, Hfound, Hinc. change (Z.of_nat 0) with 0.
    destruct (Z.ltb_spec 0 (maxMessagesPerPacket m_config)) as [_|?]; [|lia].
    fold q1. change (Z.of_nat (length [oldest])) with 1.
    destruct (1 =? maxMessagesPerPacket m_config); [done|].
    apply gather_none. intros i Hi%elem_of_seqZ. rewrite Hq1, decide_False; [done|].
    intros Heq. rewrite <- Ho in Heq at 2. unfold oldest in Heq.
    rewrite !wrap16_add_l in Heq. apply wrap16_inj in Heq; lia. }
  rewrite Hgat. change (Z.of_nat (length [oldest])) with 1.
  destruct (Z.leb_spec 1 (maxMessagesPerPacket m_config)) as [_|?]; [|lia].
  cbn [negb Z.eqb].
  destruct (Hslots sequence) as [p0 Hp0].
  unfold InsertFast. rewrite slot_store_same by (done || by eexists).
  cbn [m_sendQueue set_sendQueue set_sentPackets add_counter set_counters payload].
  rewrite Hq1, decide_True by done. cbn [sq_message set_timeLastSent]. rewrite Hm.
  eexists. split; [done|]. split_and!; [|by do 2 apply has_slots_store|done].
  intros id. apply Hq1.
Qed.

(** ... and when the resend test holds it back. *)
Lemma GetData_lone_waits sequence (s : Channel) e :
  lone e s →
  0 < sendQueueSize m_config →
  0 < receiveQueueSize m_config <= 65536 →
  0 < maxMessagesPerPacket m_config →
  may_include m_config (m_timeBase s) (packetBudget m_config * 8) e = false →
  GetData m_config sequence s = Returned None s.
Proof.
  intros Hlone Hsq Hrq Hmax Hinc.
  unfold GetData. rewrite (find_oldest_lone e) by done. simpl.
  set (oldest := wrap16 (m_sendMessageId s - 1)).
  assert (Ho : wrap16 (oldest + 0) = oldest).
  { rewrite Z.add_0_r. apply wrap16_idem. }
  assert (Hfound : Find (m_sendQueue s) oldest = Some e).
  { by rewrite Hlone, decide_True. }
  assert (Hgat : ∃ avail,
            gather m_config (m_timeBase s) oldest (seqZ 0 (receiveQueueSize m_config))
              (packetBudget m_config * 8) [] (m_sendQueue s)
            = Some (avail, [], m_sendQueue s)).
  { rewrite seqZ_cons by lia. simpl.
    destruct (packetBudget m_config * 8 <? giveUpBits m_config); [by eexists|].
    rewrite Ho, Hfound, Hinc. change (Z.of_nat (length [])) with 0.
    destruct (0 =? maxMessagesPerPacket m_config); [by eexists|].
    eexists. apply gather_none. intros i Hi%elem_of_seqZ. rewrite Hlone, decide_False; [done|].
    fold oldest. intros Heq. rewrite <- Ho in Heq at 2. unfold oldest in Heq.
    rewrite !wrap16_add_l in Heq. apply wrap16_inj in Heq; lia. }
  destruct Hgat as [avail ->]. change (Z.of_nat (length [])) with 0.
  destruct (Z.leb_spec 0 (maxMessagesPerPacket m_config)) as [_|?]; [|lia].
  cbn [negb Z.eqb]. by rewrite set_sendQueue_same.
Qed.

Lemma slot_create {T} `{WE : WindowEntry T} size seq :
  0 < size → slot (create (T:=T) size) seq = Some entry_default.
Proof.
  intros Hsize. destruct (has_slots_create (T:=T) size Hsize seq) as [e He].
  rewrite He. unfold slot, create in He. simpl in He.
  by apply lookup_replicate in He as [-> _].
Qed.

(** The first message of a new channel. *)
Lemma SendMessage_first message :
  0 < sendQueueSize m_config →
  ∃ (s1 : Channel) e,
    SendMessage m_config message (init m_config) = Returned (SetId message 0) s1
    ∧ channel_ok s1
    ∧ lone e s1
    ∧ sq_message e = Some (SetId message 0)
    ∧ sq_timeLastSent e = t_lit (-1)
    ∧ sq_measuredBits e = wrap15 (serialized_bits message + m_messageOverheadBits m_config)
    ∧ m_timeBase s1 = t_lit 0
    ∧ m_sentPackets s1 = create (sentPacketsSize m_config).
Proof.
  intros Hsize.
  assert (Hav : CanSendMessage (init m_config) = true).
  { unfold CanSendMessage, HasSlotAvailable, init. simpl.
    by rewrite slot_create. }
  destruct (SendMessage_returns m_config message (init m_config) (channel_ok_init m_config) Hav)
    as (q' & Hcall & Hfind).
  pose proof (SendMessage_ok m_config message (init m_config) (channel_ok_init m_config)) as Hok.
  pose proof (SendMessage_other_ids m_config message (init m_config) (channel_ok_init m_config))
    as Hother.
  rewrite Hcall in Hok, Hother. destruct Hok as [Hok _], Hother as [_ Hother].
  change (m_sendMessageId (init m_config)) with 0 in *.
  eexists _, {| sq_message := Some (SetId message 0); sq_sequence := 0; sq_valid := true;
                sq_measuredBits :=
                  wrap15 (serialized_bits message + m_messageOverheadBits m_config);
                sq_timeLastSent := t_lit (-1) |}.
  split; [exact Hcall|]. split; [exact Hok|]. split; [|by split_and!].
  intros id. change (wrap16 (m_sendMessageId _ - 1)) with 0.
  case_decide as Hid; [subst id; exact Hfind|].
  destruct (Find _ id) as [x|] eqn:Hx; [|done].
  apply Hother in Hx; [|done]. unfold init in Hx. simpl in Hx.
  by rewrite Find_create in Hx.
Qed.

Lemma in_window_first m :
  0 < receiveQueueSize m_config <= 32768 → GetId m = 0 →
  in_window m_config (init m_config) m = true.
Proof.
  intros Hrq Hid. unfold in_window, is_late, is_above, sequence_greater_than, sequence_less_than.
  rewrite Hid. simpl. change (wrap16 (0 - 0)) with 0. simpl.
  rewrite Z.add_0_l, (wrap16_small (receiveQueueSize m_config - 1)) by lia.
  assert (Hd : wrap16 (0 - (receiveQueueSize m_config - 1))
               = if receiveQueueSize m_config =? 1 then 0 else 65537 - receiveQueueSize m_config).
  { unfold wrap16. destruct (Z.eqb_spec (receiveQueueSize m_config) 1) as [->|?]; [done|].
    symmetry. apply (Z.mod_unique_pos _ _ (-1)); lia. }
  rewrite Hd. destruct (Z.eqb_spec (receiveQueueSize m_config) 1); [done|].
  destruct (Z.ltb_spec (65537 - receiveQueueSize m_config) 32768); [lia|].
  by rewrite andb_false_r.
Qed.

(** The first message arrives at a new channel and is delivered. *)
Lemma first_message_delivered m :
  0 < receiveQueueSize m_config <= 32768 → GetId m = 0 →
  (run m_config [CallProcessData 0 [m]; CallReceiveMessage] (init m_config)).1 = [Delivered m].
Proof.
  intros Hrq Hid.
  pose proof (in_window_first m Hrq Hid) as Hw.
  destruct (process_fold_free m_config (init m_config) [m] false (init m_config) eq_refl eq_refl)
    as (early' & s' & Hfold & Hin & _ & _).
  { intros m' ->%list_elem_of_singleton _. exists entry_default. split; [|done].
    apply (slot_create (T:=ReceiveQueueEntry) (receiveQueueSize m_config)). lia. }
  { rewrite filter_cons_True by done. rewrite filter_nil. apply NoDup_singleton. }
  destruct (process_fold m_config (init m_config) [m] false (init m_config)
              (channel_ok_init m_config) eq_refl eq_refl early' s' Hfold)
    as (Hok' & Hrid & _ & _ & _ & _ & Hearly & _).
  assert (early' = false) as ->.
  { rewrite Hearly. simpl. unfold is_early. unfold in_window in Hw.
    apply andb_true_iff in Hw as [_ Hw]. apply negb_true_iff in Hw. rewrite Hw.
    by rewrite andb_false_r. }
  specialize (Hin m ltac:(by left) Hw). rewrite Hid in Hin.
  destruct (ReceiveMessage_spec s' Hok') as (r & s'' & Hrecv & _ & Hr).
  rewrite Hrid in Hr. change (m_receiveMessageId (init m_config)) with 0 in Hr.
  assert (r = Some m) as ->.
  { destruct r as [m0|].
    - destruct Hr as (_ & (entry & Hentry & Hm0) & _). rewrite Hin in Hentry.
      injection Hentry as <-. simpl in Hm0. congruence.
    - destruct Hr as [_ Hr]. congruence. }
  simpl. change (wrap16 0) with 0. unfold ProcessData.
  change (m_receiveMessageId (init m_config)) with 0. simpl in Hfold. simpl.
  rewrite Hfold. simpl. by rewrite Hrecv.
Qed.

(** X9.  A message makes its way.  The configuration has positive
    [sendQueueSize], [sentPacketsSize] and [maxMessagesPerPacket], a
    [receiveQueueSize] from 1 to 2^15 and [giveUpBits] of at most
    [packetBudget * 8]; the measured bits of the message are at most
    [packetBudget * 8]; and the resend test passes at time 0 for an entry
    that was never sent ([-1 + resendRate <= 0]).  On a new channel
    [SendMessage] queues the message under the id 0 and the next [GetData]
    returns it, alone; and a new channel that is given this payload delivers
    the message with the next [ReceiveMessage], with its id and its bits. *)
Theorem message_makes_its_way message :
  config_ok m_config →
  fits m_config message →
  t_le (t_add (t_lit (-1)) (resendRate m_config)) (t_lit 0) = true →
  (run m_config [CallSendMessage message; CallGetData 0] (init m_config)).1
  = [Queued (SetId message 0); Packet (t_lit 0) [SetId message 0]]
  ∧ (run m_config [CallProcessData 0 [SetId message 0]; CallReceiveMessage] (init m_config)).1
    = [Delivered (SetId message 0)].
Proof.
  intros (Hsq & Hsp & Hrq & Hmax & Hgive) Hfits Hrate.
  split; [|apply first_message_delivered; [done|apply GetId_SetId]].
  destruct (SendMessage_first message Hsq)
    as (s1 & e & Hsend & Hok1 & Hlone & Hm & Hlast & Hbits & Htime & Hpackets).
  destruct (GetData_lone 0 s1 e (SetId message 0)) as (s2 & Hget & _ & _ & _); try done; try lia.
  { rewrite Hpackets. by apply has_slots_create. }
  { unfold may_include. rewrite Hlast, Htime, Hrate, Hbits. simpl.
    apply Z.leb_le. unfold fits in Hfits. lia. }
  simpl. rewrite Hsend. change (wrap16 0) with 0. rewrite Hget. simpl. by rewrite Htime.
Qed.

(** X10.  An unacked message is sent again, an acked one is not. On a new
    channel as before, the message goes out in packet 0 at time 0. At the
    time [t] the next [GetData] sends it again exactly when [t] is
    [resendRate] past time 0; and once packet 0 is acked no [GetData] sends
    it, at any time. *)
Theorem unacked_message_is_resent message t :
  config_ok m_config →
  fits m_config message →
  t_le (t_add (t_lit (-1)) (resendRate m_config)) (t_lit 0) = true →
  (run m_config [CallSendMessage message; CallGetData 0; CallUpdate t; CallGetData 1]
     (init m_config)).1
  = [Queued (SetId message 0); Packet (t_lit 0) [SetId message 0]]
    ++ (if t_le (t_add (t_lit 0) (resendRate m_config)) t
        then [Packet t [SetId message 0]] else [])
  ∧ (run m_config
       [CallSendMessage message; CallGetData 0; CallProcessAck 0; CallUpdate t; CallGetData 1]
       (init m_config)).1
    = [Queued (SetId message 0); Packet (t_lit 0) [SetId message 0]].
Proof.
  intros (Hsq & Hsp & Hrq & Hmax & Hgive) Hfits Hrate.
  destruct (SendMessage_first message Hsq)
    as (s1 & e & Hsend & Hok1 & Hlone & Hm & Hlast & Hbits & Htime & Hpackets).
  assert (Hfit : (0 <=? packetBudget m_config * 8 - sq_measuredBits e) = true).
  { rewrite Hbits. apply Z.leb_le. unfold fits in Hfits. lia. }
  destruct (GetData_lone 0 s1 e (SetId message 0)) as (s2 & Hget & Hlone2 & Hslots2 & Htime2);
    try done; try lia.
  { rewrite Hpackets. by apply has_slots_create. }
  { unfold may_include. by rewrite Hlast, Htime, Hrate, Hfit. }
  rewrite Htime in *.
  split.
  - simpl. rewrite Hsend. change (wrap16 0) with 0. rewrite Hget. simpl.
    change (wrap16 1) with 1.
    assert (Hlone3 : lone (set_timeLastSent (t_lit 0) e) (set_timeBase t s2)) by done.
    destruct (t_le (t_add (t_lit 0) (resendRate m_config)) t) eqn:Hpast.
    + destruct (GetData_lone 1 (set_timeBase t s2) (set_timeLastSent (t_lit 0) e)
                  (SetId message 0)) as (s3 & -> & _); try done; try lia.
      * unfold may_include. simpl. by rewrite Hpast, Hfit.
      * simpl. by rewrite Htime.
    + rewrite (GetData_lone_waits 1 (set_timeBase t s2) (set_timeLastSent (t_lit 0) e));
        try done; try lia.
      * simpl. by rewrite Htime.
      * unfold may_include. simpl. by rewrite Hpast.
  - destruct (GetData_Find_packet 0 s1 [SetId message 0] s2 Hok1 ltac:(lia) Hget)
      as [Hok2 Hpacket].
    destruct (ProcessAck_spec 0 s2 Hok2) as (s3 & Hack & _ & _ & _ & _ & _ & Hspec).
    rewrite Hpacket in Hspec. simpl in Hspec. destruct Hspec as [Hgone _].
    assert (Hempty : ∀ id, Find (m_sendQueue (set_timeBase t s3)) id = None).
    { intros id. simpl. rewrite Hgone. case_decide as Hin; [done|].
      rewrite Hlone2. rewrite decide_False; [done|].
      intros ->. apply Hin, list_elem_of_singleton.
      pose proof (SendMessage_shape message (init m_config)) as Hshape.
      rewrite Hsend in Hshape. destruct Hshape as [_ [q Hs1]].
      pose proof (GetData_spec m_config 0 s1 _ _ Hget) as (sel & _ & _ & Hsid & _).
      rewrite Hsid, Hs1. simpl. rewrite GetId_SetId. done. }
    simpl. rewrite Hsend. change (wrap16 0) with 0. rewrite Hget, Hack. simpl.
    change (wrap16 1) with 1. rewrite (GetData_empty 1 _ Hempty). simpl. by rewrite Htime.
Qed.

(** *** Arrival out of order *)

Lemma in_window_init m :
  receiveQueueSize m_config <= 32768 →
  0 <= GetId m < receiveQueueSize m_config →
  in_window m_config (init m_config) m = true.
Proof.
  intros Hrq Hid. unfold in_window, is_late, is_above, sequence_greater_than, sequence_less_than.
  change (m_receiveMessageId (init m_config)) with 0.
  rewrite Z.add_0_l, (wrap16_small (receiveQueueSize m_config - 1)) by lia.
  assert (Hlate : wrap16 (0 - GetId m) = if GetId m =? 0 then 0 else 65536 - GetId m).
  { unfold wrap16. destruct (Z.eqb_spec (GetId m) 0) as [->|?]; [done|].
    symmetry. apply (Z.mod_unique_pos _ _ (-1)); lia. }
  assert (Habove : wrap16 (GetId m - (receiveQueueSize m_config - 1))
                   = if GetId m =? receiveQueueSize m_config - 1 then 0
                     else 65537 + GetId m - receiveQueueSize m_config).
  { unfold wrap16. destruct (Z.eqb_spec (GetId m) (receiveQueueSize m_config - 1)) as [->|?].
    - by rewrite Z.sub_diag.
    - symmetry. apply (Z.mod_unique_pos _ _ (-1)); lia. }
  rewrite Hlate, Habove.
  destruct (Z.eqb_spec (GetId m) 0), (Z.eqb_spec (GetId m) (receiveQueueSize m_config - 1));
    simpl; try done.
  - destruct (Z.ltb_spec (65537 + GetId m - receiveQueueSize m_config) 32768); [lia|].
    by rewrite andb_false_r.
  - destruct (Z.ltb_spec (65536 - GetId m) 32768); [lia|]. by rewrite andb_false_r.
  - destruct (Z.ltb_spec (65536 - GetId m) 32768); [lia|].
    destruct (Z.ltb_spec (65537 + GetId m - receiveQueueSize m_config) 32768); [lia|].
    by rewrite !andb_false_r.
Qed.

Lemma ReceiveMessage_Find_other (s : Channel) m s' :
  ReceiveMessage s = Returned (Some m) s' →
  ∀ id, id ≠ m_receiveMessageId s → Find (m_receiveQueue s') id = Find (m_receiveQueue s) id.
Proof.
  unfold ReceiveMessage. destruct (Find _ _) as [entry|] eqn:Hentry; [|done].
  destruct (rq_message entry); [|done]. destruct (negb _); [done|].
  intros [= <- <-] id Hne. simpl.
  rewrite (Find_store_released _ _ entry) by done. by rewrite decide_False.
Qed.

(** [ReceiveMessage] over and over, while the receive queue holds the
    next ids. *)
Lemma run_drains (P : Message → Prop) n : ∀ s : Channel,
  channel_ok s →
  Z.of_nat n < 65536 →
  (∀ i, 0 <= i < Z.of_nat n →
     ∃ e m, Find (m_receiveQueue s) (wrap16 (m_receiveMessageId s + i)) = Some e
            ∧ rq_message e = Some m ∧ P m) →
  ∃ ms s',
    run m_config (replicate n CallReceiveMessage) s = (Delivered <$> ms, Some s')
    ∧ GetId <$> ms = ids_from (m_receiveMessageId s) n
    ∧ Forall P ms
    ∧ channel_ok s'
    ∧ m_receiveMessageId s' = wrap16 (m_receiveMessageId s + Z.of_nat n)
    ∧ ∀ id e, Find (m_receiveQueue s') id = Some e → Find (m_receiveQueue s) id = Some e.
Proof.
  induction n as [|n IH]; intros s Hok Hn Hall.
  { exists [], s. simpl. split_and!; try done.
    rewrite Z.add_0_r. symmetry. apply wrap16_small, Hok. }
  assert (Hrid : wrap16 (m_receiveMessageId s) = m_receiveMessageId s) by apply wrap16_small, Hok.
  destruct (Hall 0 ltac:(lia)) as (e0 & m0 & Hf0 & Hm0 & HP0).
  rewrite Z.add_0_r, Hrid in Hf0.
  destruct (ReceiveMessage_spec s Hok) as (r & s1 & Hrecv & Hok1 & Hr).
  destruct r as [m|]; [|destruct Hr as [_ Hr]; congruence].
  destruct Hr as (Hid & (entry & Hentry & Hm) & Hrid1 & _).
  assert (m = m0) as -> by congruence.
  pose proof (ReceiveMessage_Find_other _ _ _ Hrecv) as Hother.
  destruct (IH s1 Hok1 ltac:(lia)) as (ms & s' & Hrun & Hids & HP & Hok' & Hrid' & Hsub).
  { intros i Hi. destruct (Hall (i + 1) ltac:(lia)) as (e & m & Hf & Hm' & HPm).
    exists e, m. split_and!; try done.
    rewrite Hrid1, wrap16_add_l, <- Z.add_assoc, (Z.add_comm 1), Hother; [done|].
    rewrite <- Hrid at 2. replace (m_receiveMessageId s) with (m_receiveMessageId s + 0) at 2 by lia.
    intros Heq%wrap16_inj; lia. }
  exists (m0 :: ms), s'. split_and!; try done.
  - simpl. rewrite Hrecv, Hrun. done.
  - rewrite fmap_cons, ids_from_S, Hids, Hrid1, Hid, Hrid. done.
  - by constructor.
  - rewrite Hrid', Hrid1, wrap16_add_l. f_equal. lia.
  - intros id e He. eapply ReceiveMessage_Find; [done|]. by apply Hsub.
Qed.

Lemma ids_from_small n : Z.of_nat n <= 65536 → ids_from 0 n = seqZ 0 (Z.of_nat n).
Proof.
  intros Hn. unfold ids_from. rewrite <- (list_fmap_id (seqZ 0 (Z.of_nat n))) at 2.
  apply list_fmap_ext. intros _ i Hi%list_elem_of_lookup_2%elem_of_seqZ.
  simpl. apply wrap16_small. lia.
Qed.

(** X11.  Arrival out of order is put in order. A new channel is given one
    payload with the messages of the ids 0 to [k - 1], in any order, [k]
    being no more than the receive window. [ProcessData] returns, and the
    next [k] calls of [ReceiveMessage] return these messages, each once, by
    ascending id; the call after them returns null. *)
Theorem arrival_out_of_order_is_put_in_order (data : list Message) :
  receiveQueueSize m_config <= 32768 →
  Z.of_nat (length data) <= receiveQueueSize m_config →
  GetId <$> data ≡ₚ seqZ 0 (Z.of_nat (length data)) →
  ∃ ms,
    (run m_config
       (CallProcessData 0 data :: replicate (length data) CallReceiveMessage
          ++ [CallReceiveMessage])
       (init m_config)).1
    = Delivered <$> ms
    ∧ GetId <$> ms = seqZ 0 (Z.of_nat (length data))
    ∧ ms ≡ₚ data.
Proof.
  intros Hrq Hlen Hperm.
  set (k := Z.of_nat (length data)) in *.
  assert (Hids : ∀ m, m ∈ data → 0 <= GetId m < k).
  { intros m Hm. assert (GetId m ∈ seqZ 0 k) as Hin.
    { rewrite <- Hperm. apply list_elem_of_fmap. by exists m. }
    apply elem_of_seqZ in Hin. lia. }
  assert (Hnd : NoDup (GetId <$> data)) by (rewrite Hperm; apply NoDup_seqZ).
  assert (Hw : ∀ m, m ∈ data → in_window m_config (init m_config) m = true).
  { intros m Hm. apply in_window_init; [done|]. specialize (Hids m Hm). lia. }
  assert (Hfilter : filter (fun m => in_window m_config (init m_config) m = true) data = data).
  { clear -Hw. induction data as [|m data IH]; [done|].
    rewrite filter_cons_True by (apply Hw; by left). f_equal. apply IH.
    intros m' Hm'. apply Hw. by right. }
  destruct (process_fold_free m_config (init m_config) data false (init m_config) eq_refl eq_refl)
    as (early' & s1 & Hfold & Hin & _ & _).
  { intros m Hm _. exists entry_default. split; [|done].
    apply (slot_create (T:=ReceiveQueueEntry) (receiveQueueSize m_config)).
    specialize (Hids m Hm). lia. }
  { rewrite Hfilter. apply NoDup_fmap_2_strong; [|done].
    intros i j (mi & -> & Hmi)%list_elem_of_fmap (mj & -> & Hmj)%list_elem_of_fmap.
    unfold index. change (m_size (m_receiveQueue (init m_config)))
      with (receiveQueueSize m_config).
    pose proof (Hids mi Hmi). pose proof (Hids mj Hmj).
    rewrite !Z.mod_small by lia. lia. }
  destruct (process_fold m_config (init m_config) data false (init m_config)
              (channel_ok_init m_config) eq_refl eq_refl early' s1 Hfold)
    as (Hok1 & Hrid1 & _ & _ & _ & _ & Hearly & _ & _ & _ & _ & _ & _ & Hprov).
  change (m_receiveMessageId (init m_config)) with 0 in Hrid1.
  assert (early' = false) as ->.
  { rewrite Hearly. simpl. apply not_true_is_false. intros (m & Hm & He)%existsb_exists.
    apply list_elem_of_In in Hm. specialize (Hw m Hm).
    unfold in_window in Hw. unfold is_early in He.
    apply andb_true_iff in Hw as [_ Hw]. apply andb_true_iff in He as [_ He].
    rewrite He in Hw. done. }
  assert (Hcall : call m_config (CallProcessData 0 data) (init m_config) = Some ([], s1)).
  { simpl. change (wrap16 0) with 0. unfold ProcessData.
    change (m_receiveMessageId (init m_config)) with 0. simpl in Hfold. simpl.
    by rewrite Hfold. }
  destruct (run_drains (fun m => m ∈ data) (length data) s1 Hok1)
    as (ms & s2 & Hrun & Hmsids & Hms & Hok2 & Hrid2 & Hsub).
  { fold k. lia. }
  { rewrite Hrid1. intros i Hi. rewrite Z.add_0_l, wrap16_small by (fold k in Hi; lia).
    assert (i ∈ GetId <$> data) as (m & -> & Hm)%list_elem_of_fmap.
    { rewrite Hperm. apply elem_of_seqZ. fold k in Hi. lia. }
    eexists _, m. split_and!; [by apply Hin, Hw|done|done]. }
  rewrite Hrid1 in Hmsids, Hrid2. rewrite ids_from_small in Hmsids by (fold k; lia).
  fold k in Hmsids, Hrid2. rewrite Z.add_0_l, wrap16_small in Hrid2 by lia.
  assert (Hlast : ReceiveMessage s2 = Returned None s2).
  { destruct (ReceiveMessage_spec s2 Hok2) as (r & s3 & Hrecv & _ & Hr).
    destruct r as [m|]; [|by destruct Hr as [-> _]]. exfalso.
    destruct Hr as (_ & (entry & Hentry & _) & _). rewrite Hrid2 in Hentry.
    apply Hsub in Hentry.
    destruct (Hprov _ _ Hentry) as [Hinit|(m' & Hm' & _ & Hid' & _)].
    - unfold init in Hinit. simpl in Hinit. by rewrite Find_create in Hinit.
    - specialize (Hids m' Hm'). lia. }
  exists ms. split_and!.
  - change (CallProcessData 0 data :: ?l) with ([CallProcessData (Time:=Time) 0 data] ++ l).
    rewrite run_app.
    assert (Hfirst : run m_config [CallProcessData 0 data] (init m_config) = ([], Some s1)).
    { change (run m_config [CallProcessData 0 data] (init m_config))
        with (match call m_config (CallProcessData 0 data) (init m_config) with
              | None => ([], None)
              | Some (evs, s') => let '(rest, final) := run m_config [] s' in (evs ++ rest, final)
              end).
      by rewrite Hcall. }
    rewrite Hfirst. cbn [fst snd]. rewrite run_app, Hrun. cbn [fst snd].
    simpl. rewrite Hlast. simpl. by rewrite app_nil_r.
  - done.
  - apply submseteq_length_Permutation.
    + apply NoDup_submseteq; [|by apply Forall_forall].
      apply (NoDup_fmap_1 GetId). rewrite Hmsids. apply NoDup_seqZ.
    + apply (f_equal length) in Hmsids. rewrite length_fmap, length_seqZ in Hmsids.
      unfold k in Hmsids. lia.
Qed.

End Facts.

(** *** The properties on the scenarios *)

Import Scenarios.

Lemma two_queued_ok : channel_ok two_queued.
Proof.
  apply (exec_ok config [CallSendMessage (message 24); CallSendMessage (message 24)]).
  by_computing.
Qed.

Lemma first_GetData : GetData config 0 two_queued = Returned (Some first_packet) two_sent.
Proof. by_computing. Qed.

Lemma calls_keep_to_their_side_witness :
  channel_ok two_queued
  ∧ call config (CallGetData 0) two_queued = Some ([Packet 0 first_packet], two_sent)
  ∧ m_receiveQueue two_sent = m_receiveQueue two_queued
  ∧ GetCounter MessagesRead two_sent = GetCounter MessagesRead two_queued.
Proof.
  split; [apply two_queued_ok|]. split; [by_computing|].
  destruct (calls_keep_to_their_side config (CallGetData 0) two_queued
              [Packet 0 first_packet] two_sent two_queued_ok) as (Hrq & _ & _ & Hread & _).
  - by_computing.
  - split; [exact Hrq|exact Hread].
Defined.

Lemma GetData_without_payload_witness :
  GetData config 0 (init config) = Returned None (init config).
Proof.
  destruct (GetData_without_payload config 0 (init config)) as (_ & _ & H).
  apply H. intros id. apply Find_create.
Defined.

Lemma counters_tally_witness :
  (run config resend (init config)).2 = Some resent
  ∧ GetCounter MessagesSent resent = 1
  ∧ GetCounter MessagesWritten resent = 2.
Proof.
  split; [by_computing|].
  destruct (counters_tally config resend resent) as (Hsent & Hwritten & _).
  - by_computing.
  - split; [exact Hsent|exact Hwritten].
Defined.

Lemma packets_carry_queued_messages_witness :
  (run config resend (init config)).1
  = [Queued (SetId (message 24) 0)]
    ++ Packet 0 [SetId (message 24) 0] :: [Packet 100 [SetId (message 24) 0]]
  ∧ Queued (SetId (message 24) 0) ∈ [Queued (Time:=Z) (SetId (message 24) 0)].
Proof.
  split; [by_computing|].
  apply (packets_carry_queued_messages config resend [Queued (SetId (message 24) 0)] 0
           [SetId (message 24) 0] [Packet 100 [SetId (message 24) 0]]).
  - by_computing.
  - by left.
Defined.

Lemma delivered_messages_arrived_witness :
  delivered (run config [CallProcessData 0 [arriving 0]; CallReceiveMessage] (init config)).1
  = [arriving 0]
  ∧ arriving 0 ∈ arrived [CallProcessData (Time:=Z) 0 [arriving 0]; CallReceiveMessage].
Proof.
  assert (H : delivered (run config [CallProcessData 0 [arriving 0]; CallReceiveMessage]
                           (init config)).1 = [arriving 0]) by by_computing.
  split; [exact H|].
  apply (delivered_messages_arrived config). rewrite H. by left.
Defined.

Lemma ProcessAck_releases_payload_witness :
  channel_ok two_queued
  ∧ GetData config 0 two_queued = Returned (Some first_packet) two_sent
  ∧ packet_ids first_packet = [0; 1]
  ∧ ∃ s'', ProcessAck 0 two_sent = Returned () s''
           ∧ Find (m_sendQueue s'') 0 = None
           ∧ Find (m_sendQueue s'') 1 = None.
Proof.
  assert (Hids : packet_ids first_packet = [0; 1]) by by_computing.
  split; [apply two_queued_ok|]. split; [apply first_GetData|]. split; [exact Hids|].
  destruct (ProcessAck_releases_payload config 0 two_queued first_packet two_sent
              two_queued_ok ltac:(lia) first_GetData) as (_ & s'' & Hack & Hgone & _).
  rewrite Hids in Hgone.
  exists s''. split; [exact Hack|].
  split; rewrite Hgone; apply decide_True; [by left|right; by left].
Defined.

Lemma GetData_ids_ascending_witness :
  channel_ok two_queued
  ∧ receiveQueueSize config <= 65536
  ∧ GetData config 0 two_queued = Returned (Some first_packet) two_sent
  ∧ NoDup (packet_ids first_packet).
Proof.
  split; [apply two_queued_ok|]. split; [by_computing|]. split; [apply first_GetData|].
  destruct (GetData_ids_ascending config 0 two_queued first_packet two_sent two_queued_ok)
    as (oldest & _ & _ & Hnd); [by_computing|apply first_GetData|exact Hnd].
Defined.

Lemma config_ok_config : config_ok config.
Proof. unfold config_ok. simpl. lia. Qed.

Lemma fits_message : fits config (message 24).
Proof. by_computing. Qed.

Lemma message_makes_its_way_witness :
  config_ok config
  ∧ fits config (message 24)
  ∧ t_le (t_add (t_lit (-1)) (resendRate config)) (t_lit 0) = true
  ∧ (run config [CallSendMessage (message 24); CallGetData 0] (init config)).1
    = [Queued (SetId (message 24) 0); Packet (t_lit 0) [SetId (message 24) 0]]
  ∧ (run config [CallProcessData 0 [SetId (message 24) 0]; CallReceiveMessage] (init config)).1
    = [Delivered (SetId (message 24) 0)].
Proof.
  split; [apply config_ok_config|]. split; [apply fits_message|]. split; [by_computing|].
  apply (message_makes_its_way config (message 24) config_ok_config fits_message).
  by_computing.
Defined.

Lemma unacked_message_is_resent_witness :
  config_ok config
  ∧ fits config (message 24)
  ∧ t_le (t_add (t_lit 0) (resendRate config)) 100 = true
  ∧ (run config [CallSendMessage (message 24); CallGetData 0; CallUpdate 100; CallGetData 1]
       (init config)).1
    = [Queued (SetId (message 24) 0); Packet (t_lit 0) [SetId (message 24) 0]]
      ++ (if t_le (t_add (t_lit 0) (resendRate config)) 100
          then [Packet 100 [SetId (message 24) 0]] else [])
  ∧ (run config
       [CallSendMessage (message 24); CallGetData 0; CallProcessAck 0; CallUpdate 100;
        CallGetData 1]
       (init config)).1
    = [Queued (SetId (message 24) 0); Packet (t_lit 0) [SetId (message 24) 0]].
Proof.
  split; [apply config_ok_config|]. split; [apply fits_message|]. split; [by_computing|].
  apply (unacked_message_is_resent config (message 24) 100 config_ok_config fits_message).
  by_computing.
Defined.

Lemma arrival_out_of_order_is_put_in_order_witness :
  GetId <$> shuffled ≡ₚ seqZ 0 3
  ∧ ∃ ms,
      (run config
         (CallProcessData 0 shuffled :: replicate 3 CallReceiveMessage ++ [CallReceiveMessage])
         (init config)).1
      = Delivered <$> ms
      ∧ GetId <$> ms = [0; 1; 2].
Proof.
  assert (Hperm : GetId <$> shuffled ≡ₚ seqZ 0 3).
  { change (GetId <$> shuffled) with [2; 0; 1]. change (seqZ 0 3) with [0; 1; 2].
    etrans; [apply perm_swap|]. apply perm_skip, perm_swap. }
  split; [exact Hperm|].
  destruct (arrival_out_of_order_is_put_in_order config shuffled) as (ms & Hrun & Hids & _).
  - by_computing.
  - by_computing.
  - exact Hperm.
  - exists ms. split; [exact Hrun|exact Hids].
Defined.

End ChannelRuns.

(** ** The data block receiver *)

Module ReceiverFacts.
Import DataBlockReceiver.

Lemma num_fragments_bounds fragmentSize size :
  0 < fragmentSize → 0 < size →
  0 < num_fragments_of fragmentSize size
  ∧ (num_fragments_of fragmentSize size - 1) * fragmentSize < size
  ∧ size <= num_fragments_of fragmentSize size * fragmentSize.
Proof.
  intros Hf Hs. unfold num_fragments_of.
  pose proof (Z.div_mod size fragmentSize ltac:(lia)) as Hdm.
  pose proof (Z.mod_pos_bound size fragmentSize Hf) as Hm.
  pose proof (Z.div_pos size fragmentSize ltac:(lia) Hf) as Hd.
  destruct (Z.eqb_spec (size mod fragmentSize) 0) as [Hz|Hz]; nia.
Qed.

Lemma num_fragments_mono fragmentSize size size' :
  0 < fragmentSize → 0 < size → size <= size' →
  num_fragments_of fragmentSize size <= num_fragments_of fragmentSize size'.
Proof.
  intros Hf Hs Hle.
  pose proof (num_fragments_bounds fragmentSize size Hf Hs) as (_ & Hlo & _).
  pose proof (num_fragments_bounds fragmentSize size' Hf ltac:(lia)) as (_ & _ & Hhi).
  nia.
Qed.

Lemma fragment_bytes_bounds fragmentSize size k :
  0 < fragmentSize → 0 < size →
  0 <= k < num_fragments_of fragmentSize size →
  0 < fragment_bytes fragmentSize size k
  ∧ k * fragmentSize + fragment_bytes fragmentSize size k <= size.
Proof.
  intros Hf Hs Hk.
  pose proof (num_fragments_bounds fragmentSize size Hf Hs) as (_ & Hlo & _).
  unfold fragment_bytes. nia.
Qed.

(** Every byte of the block lies in one fragment. *)
Lemma fragment_of_byte fragmentSize size j :
  0 < fragmentSize → 0 <= j < size →
  0 <= j / fragmentSize < num_fragments_of fragmentSize size
  ∧ j / fragmentSize * fragmentSize <= j
    < j / fragmentSize * fragmentSize + fragment_bytes fragmentSize size (j / fragmentSize).
Proof.
  intros Hf Hj.
  pose proof (num_fragments_bounds fragmentSize size Hf ltac:(lia)) as (_ & _ & Hhi).
  pose proof (Z.div_mod j fragmentSize ltac:(lia)) as Hdm.
  pose proof (Z.mod_pos_bound j fragmentSize Hf) as Hm.
  pose proof (Z.div_pos j fragmentSize ltac:(lia) Hf) as Hd.
  unfold fragment_bytes. split; [nia|]. nia.
Qed.

Lemma memcpy_length (data src : list Byte.byte) start n :
  0 <= start → 0 <= n →
  start + n <= Z.of_nat (length data) → n <= Z.of_nat (length src) →
  length (memcpy data start src n) = length data.
Proof.
  intros. unfold memcpy. rewrite !length_app, !length_take, length_drop. lia.
Qed.

Lemma memcpy_lookup (data src : list Byte.byte) start n (j : nat) :
  0 <= start → 0 <= n →
  start + n <= Z.of_nat (length data) → n <= Z.of_nat (length src) →
  memcpy data start src n !! j
  = if decide (start <= Z.of_nat j < start + n)
    then src !! (j - Z.to_nat start)%nat
    else data !! j.
Proof.
  intros Hs Hn Hd Hsrc. unfold memcpy.
  destruct (decide (Z.of_nat j < start)) as [Hlt|Hge].
  { rewrite decide_False by lia.
    rewrite lookup_app_l by (rewrite length_take; lia).
    apply lookup_take_lt. lia. }
  rewrite lookup_app_r by (rewrite length_take; lia).
  rewrite length_take. replace (Z.to_nat start `min` length data)%nat with (Z.to_nat start) by lia.
  destruct (decide (Z.of_nat j < start + n)) as [Hin|Hout].
  - rewrite decide_True by lia.
    rewrite lookup_app_l by (rewrite length_take; lia).
    apply lookup_take_lt. lia.
  - rewrite decide_False by lia.
    rewrite lookup_app_r by (rewrite length_take; lia).
    rewrite length_take, lookup_drop. f_equal. lia.
Qed.

Lemma set_blockSize_same n r : m_blockSize r = n → set_blockSize n r = r.
Proof. intros <-. by destruct r. Qed.

Lemma set_numFragments_same n r : m_numFragments r = n → set_numFragments n r = r.
Proof. intros <-. by destruct r. Qed.

Lemma length_fragment_data fragmentSize (block : list Byte.byte) k :
  0 < fragmentSize →
  0 <= k < num_fragments_of fragmentSize (Z.of_nat (length block)) →
  Z.of_nat (length (fragment_data fragmentSize block k))
  = fragment_bytes fragmentSize (Z.of_nat (length block)) k.
Proof.
  intros Hf Hk. unfold fragment_data.
  assert (0 < Z.of_nat (length block)).
  { destruct block; simpl length; [|lia]. unfold num_fragments_of in Hk.
    change (Z.of_nat (length [])) with 0 in Hk. rewrite Z.div_0_l in Hk by lia.
    simpl in Hk. lia. }
  pose proof (fragment_bytes_bounds fragmentSize (Z.of_nat (length block)) k Hf ltac:(lia) Hk).
  rewrite length_take, length_drop. nia.
Qed.

Lemma fragment_data_lookup fragmentSize (block : list Byte.byte) k (i : nat) :
  0 < fragmentSize → 0 <= k →
  Z.of_nat i < fragment_bytes fragmentSize (Z.of_nat (length block)) k →
  fragment_data fragmentSize block k !! i = block !! (Z.to_nat (k * fragmentSize) + i)%nat.
Proof.
  intros Hf Hk Hi. unfold fragment_data.
  rewrite lookup_take_lt by lia. apply lookup_drop.
Qed.

(** The ids of a NoDup list of fragment ids below [n] are [n] at most. *)
Lemma NoDup_below_length (L : list Z) n :
  0 <= n → NoDup L → (∀ k, k ∈ L → 0 <= k < n) → Z.of_nat (length L) <= n.
Proof.
  intros Hn Hnd Hin.
  assert (L ⊆+ seqZ 0 n) as Hsub.
  { apply NoDup_submseteq; [done|]. intros k Hk. apply elem_of_seqZ. specialize (Hin k Hk). lia. }
  apply submseteq_length in Hsub. rewrite length_seqZ in Hsub. lia.
Qed.

(** One admissible fragment: the call returns a receiver that has seen it. *)
Lemma ProcessFragment_step asserts fragmentSize maxBlockSize block acks0 seen r k :
  0 < fragmentSize →
  0 < Z.of_nat (length block) <= maxBlockSize →
  assembling fragmentSize maxBlockSize block acks0 seen r →
  (∀ x, x ∈ seen → 0 <= x < num_fragments_of fragmentSize (Z.of_nat (length block))) →
  0 <= k < num_fragments_of fragmentSize (Z.of_nat (length block)) →
  ∃ r', deliver asserts fragmentSize block (Some r) k = Some r'
        ∧ assembling fragmentSize maxBlockSize block acks0 (seen ++ [k]) r'.
Proof.
  intros Hf Hbs Hinv Hseen Hk.
  set (bs := Z.of_nat (length block)) in *.
  set (n := num_fragments_of fragmentSize bs) in *.
  destruct Hinv as (Hmbs & Hfs & Hmf & Hdata & Hflags & Herr & Hnil & Hcons & Hflag & HL & Hbytes & Hacks).
  destruct HL as (L & Hnd & HLseen & Hcount).
  pose proof (num_fragments_mono fragmentSize bs maxBlockSize Hf ltac:(lia) ltac:(lia)) as Hmono.
  fold n in Hmono.
  pose proof (fragment_bytes_bounds fragmentSize bs k Hf ltac:(lia) Hk) as [Hfb1 Hfb2].
  pose proof (length_fragment_data fragmentSize block k Hf Hk) as Hfd. fold bs in Hfd.
  assert (Hbsz : m_blockSize r = 0 ∨ m_blockSize r = bs).
  { destruct seen; [left; by apply Hnil|right; by apply Hcons]. }
  assert (Hnf : m_numFragments r = 0 ∨ m_numFragments r = n).
  { destruct seen; [left; by apply Hnil|right; by apply Hcons]. }
  simpl. unfold ProcessFragment. fold bs. fold n.
  rewrite Hmbs. destruct (Z.ltb_spec maxBlockSize bs) as [?|_]; [lia|].
  rewrite Herr. simpl.
  set (r1 := if m_blockSize r =? 0 then set_blockSize bs r else r).
  assert (Hr1 : r1 = set_blockSize bs r).
  { unfold r1. destruct Hbsz as [Hz|Hb].
    - by rewrite Hz.
    - rewrite Hb. destruct (Z.eqb_spec bs 0); [lia|]. symmetry. by apply set_blockSize_same. }
  rewrite Hr1. simpl. rewrite Z.eqb_refl. simpl.
  rewrite Hmf. destruct (Z.ltb_spec (num_fragments_of fragmentSize maxBlockSize) (m_numFragments r))
    as [?|_]; [lia|].
  set (r2 := if m_numFragments r =? 0 then set_numFragments n (set_blockSize bs r)
             else set_blockSize bs r).
  assert (Hr2 : r2 = set_numFragments n (set_blockSize bs r)).
  { unfold r2. destruct Hnf as [Hz|Hb].
    - by rewrite Hz.
    - rewrite Hb. destruct (Z.eqb_spec n 0); [lia|]. symmetry. by apply set_numFragments_same. }
  rewrite Hr2. simpl. rewrite Z.eqb_refl. simpl.
  destruct (Z.leb_spec n k) as [?|_]; [lia|].
  rewrite Hfs.
  destruct (Z.leb_spec (k * fragmentSize + fragment_bytes fragmentSize bs k) bs) as [_|?]; [|lia].
  rewrite andb_false_r.
  destruct (Z.ltb_spec bs (k * fragmentSize + fragment_bytes fragmentSize bs k)) as [?|_]; [lia|].
  destruct (Z.leb_spec 0 k) as [_|?]; [|lia].
  assert (Hlt : (Z.to_nat k < length (m_receivedFragment r))%nat) by (rewrite Hflags, Hmf; lia).
  destruct (lookup_lt_is_Some_2 _ _ Hlt) as [b Hb]. rewrite Hb.
  assert (Hmem : ∀ x, x ∈ seen ++ [k] ↔ x ∈ seen ∨ x = k).
  { intros x. rewrite elem_of_app, list_elem_of_singleton. done. }
  destruct b.
  - (* a fragment seen before: acked again, nothing stored *)
    assert (Hkin : k ∈ seen) by (apply Hflag; [lia|done]).
    eexists. split; [done|]. unfold assembling. fold bs. simpl.
    split_and!; try done.
    + intros Hn. by destruct seen.
    + intros x Hx. rewrite Hflag by done. rewrite Hmem. naive_solver.
    + exists L. split_and!; try done. intros x. rewrite HLseen, Hmem. naive_solver.
    + intros x j [Hx| ->]%Hmem; by apply Hbytes.
    + by rewrite Hacks, app_assoc.
  - (* a new fragment *)
    assert (Hknot : k ∉ seen).
    { intros Hin. apply Hflag in Hin; [|lia]. congruence. }
    assert (Hknot' : k ∉ L) by by rewrite HLseen.
    assert (HL' : Z.of_nat (length (k :: L)) <= n).
    { apply NoDup_below_length; [lia|by constructor|].
      intros x [->|Hx]%elem_of_cons; [done|]. apply Hseen. by apply HLseen. }
    simpl length in HL'. rewrite Hcount.
    destruct (Z.leb_spec 0 (Z.of_nat (length L) + 1)) as [_|?]; [|lia].
    destruct (Z.leb_spec (Z.of_nat (length L) + 1) n) as [_|?]; [|lia].
    rewrite andb_false_r.
    destruct (Z.leb_spec 0 (k * fragmentSize)) as [_|?]; [|nia].
    destruct (Z.leb_spec 0 (fragment_bytes fragmentSize bs k)) as [_|?]; [|lia].
    destruct (Z.leb_spec (k * fragmentSize + fragment_bytes fragmentSize bs k)
                (Z.of_nat (length (m_data r)))) as [_|?]; [|lia].
    destruct (Z.leb_spec (fragment_bytes fragmentSize bs k)
                (Z.of_nat (length (fragment_data fragmentSize block k)))) as [_|?]; [|lia].
    simpl. eexists. split; [done|]. unfold assembling. fold bs. simpl.
    split_and!; try done.
    + rewrite memcpy_length; [done|nia|lia|lia|lia].
    + by rewrite length_insert.
    + intros Hn. by destruct seen.
    + intros x Hx. rewrite Hmem.
      destruct (decide (x = k)) as [->|Hne].
      * rewrite list_lookup_insert_eq by done. naive_solver.
      * rewrite list_lookup_insert_ne by lia. rewrite Hflag by done. naive_solver.
    + exists (k :: L). split_and!.
      * by constructor.
      * intros x. rewrite elem_of_cons, HLseen, Hmem. naive_solver.
      * simpl length. lia.
    + intros x j Hx Hj.
      rewrite memcpy_lookup; [|nia|lia|lia|lia].
      assert (0 <= x < n) as Hxn.
      { apply Hmem in Hx as [Hx| ->]; [by apply Hseen|done]. }
      pose proof (fragment_bytes_bounds fragmentSize bs x Hf ltac:(lia) Hxn) as [Hxb1 Hxb2].
      assert (Hfbx : fragment_bytes fragmentSize bs x <= fragmentSize)
        by (unfold fragment_bytes; lia).
      assert (Hfbk : fragment_bytes fragmentSize bs k <= fragmentSize)
        by (unfold fragment_bytes; lia).
      assert (0 <= k * fragmentSize) by nia.
      destruct (decide (x = k)) as [->|Hne].
      * rewrite decide_True by lia.
        rewrite fragment_data_lookup; [|done|lia|fold bs; lia]. f_equal. lia.
      * rewrite decide_False by nia.
        apply (Hbytes x); [|done]. apply Hmem in Hx as [Hx|?]; done.
    + by rewrite Hacks, app_assoc.
Qed.

Lemma assembling_create fragmentSize maxBlockSize (memory block : list Byte.byte) :
  length memory = Z.to_nat maxBlockSize →
  assembling fragmentSize maxBlockSize block [] [] (create memory fragmentSize maxBlockSize).
Proof.
  intros Hmem. unfold assembling, create, Clear. simpl.
  split_and!; try done.
  - by rewrite length_replicate.
  - intros k Hk. split.
    + intros [[=] _]%lookup_replicate.
    + by intros ?%elem_of_nil.
  - exists []. split_and!; try done. constructor.
  - intros k j ?%elem_of_nil. done.
Qed.

(** The fragments of [ids], one call after the other. *)
Lemma deliver_all_spec asserts fragmentSize maxBlockSize block acks0 ids : ∀ seen r,
  0 < fragmentSize →
  0 < Z.of_nat (length block) <= maxBlockSize →
  assembling fragmentSize maxBlockSize block acks0 seen r →
  (∀ x, x ∈ seen → 0 <= x < num_fragments_of fragmentSize (Z.of_nat (length block))) →
  (∀ x, x ∈ ids → 0 <= x < num_fragments_of fragmentSize (Z.of_nat (length block))) →
  ∃ r', deliver_all asserts fragmentSize block ids r = Some r'
        ∧ assembling fragmentSize maxBlockSize block acks0 (seen ++ ids) r'.
Proof.
  unfold deliver_all.
  induction ids as [|k ids IH]; intros seen r Hf Hbs Hinv Hseen Hids.
  { exists r. rewrite app_nil_r. done. }
  change (foldl ?f ?a (k :: ids)) with (foldl f (f a k) ids).
  destruct (ProcessFragment_step asserts _ _ _ _ _ _ k Hf Hbs Hinv Hseen) as (r1 & -> & Hinv1).
  { apply Hids. by left. }
  destruct (IH (seen ++ [k]) r1 Hf Hbs Hinv1) as (r' & Hfold & Hinv').
  - intros x [Hx| ->%list_elem_of_singleton]%elem_of_app; [by apply Hseen|].
    apply Hids. by left.
  - intros x Hx. apply Hids. by right.
  - exists r'. split; [done|]. by rewrite <- app_assoc in Hinv'.
Qed.

(** Once every fragment was seen, the block is there. *)
Lemma GetBlock_assembled fragmentSize maxBlockSize block acks0 seen r :
  0 < fragmentSize →
  0 < Z.of_nat (length block) <= maxBlockSize →
  assembling fragmentSize maxBlockSize block acks0 seen r →
  (∀ x, x ∈ seen → 0 <= x < num_fragments_of fragmentSize (Z.of_nat (length block))) →
  (∀ x, 0 <= x < num_fragments_of fragmentSize (Z.of_nat (length block)) → x ∈ seen) →
  GetBlock r = Some block.
Proof.
  intros Hf Hbs Hinv Hseen Hall.
  set (bs := Z.of_nat (length block)) in *.
  set (n := num_fragments_of fragmentSize bs) in *.
  destruct Hinv as (Hmbs & Hfs & Hmf & Hdata & Hflags & Herr & Hnil & Hcons & Hflag & HL & Hbytes & Hacks).
  destruct HL as (L & Hnd & HLseen & Hcount).
  pose proof (num_fragments_bounds fragmentSize bs Hf ltac:(lia)) as (Hn & _).
  fold n in Hn.
  assert (Hne : seen ≠ []).
  { intros Hs. specialize (Hall 0 ltac:(lia)). rewrite Hs in Hall. by apply elem_of_nil in Hall. }
  destruct (Hcons Hne) as [Hbsz Hnf].
  assert (Hlen : length L = Z.to_nat n).
  { rewrite <- (length_seqZ 0 n). apply Permutation_length.
    apply NoDup_Permutation; [done|apply NoDup_seqZ|].
    intros x. rewrite HLseen, elem_of_seqZ. split.
    - intros Hx. specialize (Hseen x Hx). lia.
    - intros Hx. apply Hall. lia. }
  unfold GetBlock, ReceiveCompleted. rewrite Hcount, Hnf, Hbsz, Hlen.
  fold bs. fold n.
  rewrite Z2Nat.id by lia. rewrite Z.eqb_refl.
  destruct (Z.ltb_spec 0 bs) as [_|?]; [|lia]. simpl. f_equal.
  apply list_eq. intros i.
  destruct (decide (i < length block)%nat) as [Hi|Hi].
  - rewrite lookup_take_lt by lia.
    pose proof (fragment_of_byte fragmentSize bs (Z.of_nat i) Hf ltac:(lia)) as [Hk Hj].
    rewrite <- (Nat2Z.id i). apply (Hbytes (Z.of_nat i / fragmentSize)); [|done].
    by apply Hall.
  - rewrite lookup_take_ge by lia. symmetry. apply lookup_ge_None. lia.
Qed.

(** C8.  A block of [blockSize] bytes, no larger than [maxBlockSize] and
    not empty, is cut into fragments of [fragmentSize] bytes (the last one
    shorter when the size asks for it).  For every sequence of
    [ProcessFragment] calls on a fresh receiver that brings each fragment
    at least once, in any order and with repetitions, every call returns,
    [GetBlock()] gives the bytes of the block afterwards, and [SendAck] was
    called once per call with the call's fragment id, repeated fragments
    included. *)
Theorem fragments_reassemble asserts fragmentSize maxBlockSize
    (memory block : list Byte.byte) (ids : list Z) :
  0 < fragmentSize →
  0 < Z.of_nat (length block) <= maxBlockSize →
  length memory = Z.to_nat maxBlockSize →
  (∀ k, k ∈ ids → 0 <= k < num_fragments_of fragmentSize (Z.of_nat (length block))) →
  (∀ k, 0 <= k < num_fragments_of fragmentSize (Z.of_nat (length block)) → k ∈ ids) →
  ∃ r,
    deliver_all asserts fragmentSize block ids (create memory fragmentSize maxBlockSize)
    = Some r
    ∧ GetBlock r = Some block
    ∧ m_acks r = ids.
Proof.
  intros Hf Hbs Hmem Hids Hall.
  destruct (deliver_all_spec asserts fragmentSize maxBlockSize block [] ids []
              (create memory fragmentSize maxBlockSize) Hf Hbs) as (r & Hrun & Hinv).
  - by apply assembling_create.
  - by intros x ?%elem_of_nil.
  - done.
  - exists r. simpl in Hinv. split_and!; [done| |apply Hinv].
    by eapply GetBlock_assembled.
Qed.

(** *** The property on the scenario *)

Import Scenarios.

Lemma fragments_reassemble_witness :
  num_fragments_of 2 (Z.of_nat (length block)) = 3
  ∧ ∃ r,
      deliver_all true 2 block arrival (create memory 2 8) = Some r
      ∧ GetBlock r = Some block
      ∧ m_acks r = arrival.
Proof.
  split; [vm_compute; reflexivity|].
  apply (fragments_reassemble true 2 8 memory block arrival).
  - lia.
  - vm_compute. split; [reflexivity|discriminate].
  - vm_compute. reflexivity.
  - intros k Hk. change (num_fragments_of 2 (Z.of_nat (length block))) with 3.
    unfold arrival in Hk.
    repeat (apply elem_of_cons in Hk as [->|Hk]); try lia. by apply elem_of_nil in Hk.
  - change (num_fragments_of 2 (Z.of_nat (length block))) with 3. intros k Hk.
    assert (k = 0 ∨ k = 1 ∨ k = 2) as [->|[->| ->]] by lia; unfold arrival.
    + right. by left.
    + do 2 right. by left.
    + by left.
Defined.

End ReceiverFacts.

(** ** The receiver against any peer *)

Module ReceiverStates.
Import DataBlockReceiver ReceiverFacts.

Lemma allocated_create (memory : list Byte.byte) fragmentSize maxBlockSize :
  0 < fragmentSize → 0 < maxBlockSize → length memory = Z.to_nat maxBlockSize →
  allocated (create memory fragmentSize maxBlockSize).
Proof.
  intros Hf Hm Hmem. unfold allocated, create, Clear. simpl.
  split_and!; try done. by rewrite length_replicate.
Qed.

Lemma allocated_Clear r : allocated r → allocated (Clear r).
Proof.
  intros (Hf & Hm & Hn & Hd & Hfl). unfold allocated, Clear. simpl.
  split_and!; try done. by rewrite length_replicate.
Qed.

(** One fragment with at least one byte: the call stays within the
    buffers. *)
Lemma ProcessFragment_allocated blockSize numFragments fragmentId fragmentBytes
    (fragmentData : list Byte.byte) r :
  allocated r →
  0 <= fragmentId →
  0 < fragmentBytes <= Z.of_nat (length fragmentData) →
  ∃ r', ProcessFragment false blockSize numFragments fragmentId fragmentBytes fragmentData r
        = Some r'
        ∧ allocated r'
        ∧ m_fragmentSize r' = m_fragmentSize r.
Proof.
  intros Hal Hid Hbytes. pose proof Hal as (Hf & Hm & Hn & Hd & Hfl).
  unfold ProcessFragment.
  destruct (Z.ltb_spec (m_maxBlockSize r) blockSize) as [?|Hbs]; [by eexists|].
  destruct (negb (m_error r =? 0)); [by eexists|].
  set (r1 := if m_blockSize r =? 0 then set_blockSize blockSize r else r).
  assert (Hal1 : allocated r1) by (unfold r1; by destruct (m_blockSize r =? 0)).
  assert (H1 : m_maxBlockSize r1 = m_maxBlockSize r ∧ m_fragmentSize r1 = m_fragmentSize r
               ∧ m_maxFragments r1 = m_maxFragments r)
    by (unfold r1; by destruct (m_blockSize r =? 0)).
  destruct H1 as (Hm1 & Hf1 & Hn1).
  destruct (Z.eqb_spec (m_blockSize r1) blockSize) as [Hb1|?]; simpl; [|by eexists].
  destruct (m_maxFragments r1 <? m_numFragments r1); [by eexists|].
  set (r2 := if m_numFragments r1 =? 0 then set_numFragments numFragments r1 else r1).
  assert (Hal2 : allocated r2) by (unfold r2; by destruct (m_numFragments r1 =? 0)).
  assert (H2 : m_maxBlockSize r2 = m_maxBlockSize r ∧ m_fragmentSize r2 = m_fragmentSize r
               ∧ m_maxFragments r2 = m_maxFragments r ∧ m_blockSize r2 = blockSize)
    by (unfold r2; by destruct (m_numFragments r1 =? 0)).
  destruct H2 as (Hm2 & Hf2 & Hn2 & Hb2).
  destruct (negb (m_numFragments r2 =? numFragments)); [by eexists|].
  destruct (m_numFragments r2 <=? fragmentId); [by eexists|].
  rewrite Hb2, Hf2. simpl.
  destruct (Z.ltb_spec blockSize (fragmentId * m_fragmentSize r + fragmentBytes)) as [?|Hfin];
    [by eexists|].
  destruct (Z.leb_spec 0 fragmentId) as [_|?]; [|lia].
  pose proof (num_fragments_bounds (m_fragmentSize r) (m_maxBlockSize r) Hf Hm) as (_ & _ & Hhi).
  rewrite <- Hn in Hhi.
  assert (Hstart : 0 <= fragmentId * m_fragmentSize r) by nia.
  assert (Hlt : (Z.to_nat fragmentId < length (m_receivedFragment r2))%nat).
  { destruct Hal2 as (_ & _ & _ & _ & Hfl2). rewrite Hfl2, Hn2. nia. }
  destruct (lookup_lt_is_Some_2 _ _ Hlt) as [b Hb]. rewrite Hb.
  destruct b; [by eexists|].
  destruct Hal2 as (Hf2' & Hm2' & Hn2' & Hd2 & Hfl2).
  assert (Hdata : Z.of_nat (length (m_data r2)) = m_maxBlockSize r).
  { rewrite Hd2, Hm2. lia. }
  rewrite Hdata.
  destruct (Z.leb_spec 0 (fragmentId * m_fragmentSize r)) as [_|?]; [|lia].
  destruct (Z.leb_spec 0 fragmentBytes) as [_|?]; [|lia].
  destruct (Z.leb_spec (fragmentId * m_fragmentSize r + fragmentBytes) (m_maxBlockSize r))
    as [_|?]; [|lia].
  destruct (Z.leb_spec fragmentBytes (Z.of_nat (length fragmentData))) as [_|?]; [|lia].
  simpl. eexists. split; [done|]. split; [|done].
  unfold allocated, store_fragment. simpl. split_and!; try done.
  - rewrite memcpy_length; [done|lia|lia| |lia]. rewrite Hd2, Hm2. lia.
  - by rewrite length_insert.
Qed.

(** X12.  Whatever a peer sends, as long as every fragment has at least one
    byte and no negative id, and [start] and [finish] stay within [int]:
    every [ProcessFragment] call returns, having read and written inside
    [m_data] and [m_receivedFragment] only. The block size, the number of
    fragments and the fragment ids are not restricted otherwise.
    [PROTOCOL_ASSERT] is taken to check nothing. *)
Theorem ProcessFragment_in_bounds (fs : list Fragment) r :
  allocated r →
  Forall (fun f => 0 <= frag_fragmentId f
                   ∧ 0 < frag_fragmentBytes f <= Z.of_nat (length (frag_fragmentData f))
                   ∧ frag_fragmentId f * m_fragmentSize r + frag_fragmentBytes f
                     <= 2147483647) fs →
  ∃ r', receive_all false fs r = Some r' ∧ allocated r'.
Proof.
  unfold receive_all. revert r. induction fs as [|f fs IH]; intros r Hal Hfs.
  { by exists r. }
  apply Forall_cons in Hfs as [(Hid & Hbytes & _) Hfs].
  change (foldl ?g ?a (f :: fs)) with (foldl g (g a f) fs). simpl.
  destruct (ProcessFragment_allocated (frag_blockSize f) (frag_numFragments f) (frag_fragmentId f)
              (frag_fragmentBytes f) (frag_fragmentData f) r Hal Hid Hbytes)
    as (r1 & -> & Hal1 & Hsize).
  apply IH; [done|]. by rewrite Hsize.
Qed.

(** X13.  A fragment without bytes at the end of the largest block: when
    [maxBlockSize] is a multiple of [fragmentSize], the fragment with the id
    [m_maxFragments], zero bytes and a fragment count above [m_maxFragments]
    passes every test of [ProcessFragment], and the call reads
    [m_receivedFragment] one past its end. *)
Theorem ProcessFragment_empty_fragment_past_end asserts (memory : list Byte.byte)
    fragmentSize maxBlockSize :
  0 < fragmentSize → 0 < maxBlockSize → maxBlockSize mod fragmentSize = 0 →
  let r := create memory fragmentSize maxBlockSize in
  m_maxFragments r = maxBlockSize / fragmentSize
  ∧ m_receivedFragment r !! Z.to_nat (m_maxFragments r) = None
  ∧ ProcessFragment asserts maxBlockSize (m_maxFragments r + 1) (m_maxFragments r) 0 [] r
    = None.
Proof.
  intros Hf Hm Hdiv r.
  assert (Hn : m_maxFragments r = maxBlockSize / fragmentSize).
  { unfold r, create, Clear. simpl. rewrite Hdiv. simpl. lia. }
  assert (Hflags : m_receivedFragment r !! Z.to_nat (m_maxFragments r) = None).
  { apply lookup_ge_None. unfold r, create, Clear. simpl. by rewrite length_replicate. }
  split_and!; [done|done|].
  pose proof (Z.div_pos maxBlockSize fragmentSize ltac:(lia) Hf) as Hpos.
  pose proof (Z.div_exact maxBlockSize fragmentSize ltac:(lia)) as [_ Hex].
  specialize (Hex Hdiv).
  assert (Hfin : m_maxFragments r * fragmentSize + 0 = maxBlockSize) by lia.
  unfold ProcessFragment.
  change (m_maxBlockSize r) with maxBlockSize. rewrite Z.ltb_irrefl.
  change (m_error r) with 0. change (m_blockSize r) with 0. cbn [Z.eqb negb].
  change (m_blockSize (set_blockSize maxBlockSize r)) with maxBlockSize.
  rewrite Z.eqb_refl. cbn [negb].
  change (m_maxFragments (set_blockSize maxBlockSize r)) with (m_maxFragments r).
  change (m_numFragments (set_blockSize maxBlockSize r)) with 0.
  destruct (Z.ltb_spec (m_maxFragments r) 0) as [?|_]; [lia|]. cbn [Z.eqb].
  set (r2 := set_numFragments (m_maxFragments r + 1) (set_blockSize maxBlockSize r)).
  change (m_numFragments r2) with (m_maxFragments r + 1).
  change (m_fragmentSize r2) with fragmentSize. change (m_blockSize r2) with maxBlockSize.
  rewrite Z.eqb_refl. cbn [negb].
  destruct (Z.leb_spec (m_maxFragments r + 1) (m_maxFragments r)) as [?|_]; [lia|].
  rewrite Hfin, Z.leb_refl, Z.ltb_irrefl. cbn [negb]. rewrite andb_false_r.
  destruct (Z.leb_spec 0 (m_maxFragments r)) as [_|?]; [|lia].
  change (m_receivedFragment (SendAck (m_maxFragments r) r2)) with (m_receivedFragment r).
  by rewrite Hflags.
Qed.

Lemma set_error_twice e r : set_error e (set_error e r) = set_error e r.
Proof. done. Qed.

(** In the error state a fragment changes nothing. *)
Lemma ProcessFragment_error asserts blockSize numFragments fragmentId fragmentBytes
    (fragmentData : list Byte.byte) r :
  m_error r = DATA_BLOCK_RECEIVER_ERROR_BLOCK_TOO_LARGE →
  ProcessFragment asserts blockSize numFragments fragmentId fragmentBytes fragmentData r
  = Some r.
Proof.
  intros He. unfold ProcessFragment. rewrite He. simpl.
  destruct (m_maxBlockSize r <? blockSize); [|done].
  f_equal. destruct r; simpl in *. by rewrite He.
Qed.

(** X14.  A fragment of a block larger than [m_maxBlockSize] puts the
    receiver into the error [DATA_BLOCK_RECEIVER_ERROR_BLOCK_TOO_LARGE], and
    there it stays: whatever fragments follow, every call returns and the
    receiver is left as the first one left it, with no ack sent and no byte
    stored, and [GetBlock()] answers as before. [Clear()] ends the error. *)
Theorem block_too_large_is_sticky asserts (f : Fragment) (fs : list Fragment) r :
  m_maxBlockSize r < frag_blockSize f →
  receive_all asserts (f :: fs) r
  = Some (set_error DATA_BLOCK_RECEIVER_ERROR_BLOCK_TOO_LARGE r)
  ∧ m_acks (set_error DATA_BLOCK_RECEIVER_ERROR_BLOCK_TOO_LARGE r) = m_acks r
  ∧ m_data (set_error DATA_BLOCK_RECEIVER_ERROR_BLOCK_TOO_LARGE r) = m_data r
  ∧ GetBlock (set_error DATA_BLOCK_RECEIVER_ERROR_BLOCK_TOO_LARGE r) = GetBlock r
  ∧ m_error (Clear (set_error DATA_BLOCK_RECEIVER_ERROR_BLOCK_TOO_LARGE r)) = 0.
Proof.
  intros Hbig. split; [|done].
  unfold receive_all. change (foldl ?g ?a (f :: fs)) with (foldl g (g a f) fs). simpl.
  unfold ProcessFragment at 1.
  destruct (Z.ltb_spec (m_maxBlockSize r) (frag_blockSize f)) as [_|?]; [|lia].
  generalize (eq_refl : m_error (set_error DATA_BLOCK_RECEIVER_ERROR_BLOCK_TOO_LARGE r)
                        = DATA_BLOCK_RECEIVER_ERROR_BLOCK_TOO_LARGE).
  generalize (set_error DATA_BLOCK_RECEIVER_ERROR_BLOCK_TOO_LARGE r). clear.
  induction fs as [|f fs IH]; intros r He; [done|].
  change (foldl ?g ?a (f :: fs)) with (foldl g (g a f) fs). simpl.
  rewrite ProcessFragment_error by done. by apply IH.
Qed.

(** After [Clear()] the receiver is as a new one, whatever it went
    through. *)
Lemma assembling_Clear (block : list Byte.byte) r :
  allocated r →
  assembling (m_fragmentSize r) (m_maxBlockSize r) block (m_acks r) [] (Clear r).
Proof.
  intros (Hf & Hm & Hn & Hd & Hfl). unfold assembling, Clear. simpl.
  split_and!; try done.
  - by rewrite length_replicate.
  - intros k Hk. split.
    + intros [[=] _]%lookup_replicate.
    + by intros ?%elem_of_nil.
  - exists []. split_and!; try done. constructor.
  - intros k j ?%elem_of_nil. done.
  - by rewrite app_nil_r.
Qed.

(** X15.  [Clear()] starts over. Whatever the receiver went through
    (fragments of another block, an error), after [Clear()] the fragments of
    a block are received as by a new receiver: every call returns and is
    acked, and [GetBlock()] gives the block. *)
Theorem Clear_starts_over asserts (block : list Byte.byte) (ids : list Z) r :
  allocated r →
  0 < Z.of_nat (length block) <= m_maxBlockSize r →
  (∀ k, k ∈ ids → 0 <= k < num_fragments_of (m_fragmentSize r) (Z.of_nat (length block))) →
  (∀ k, 0 <= k < num_fragments_of (m_fragmentSize r) (Z.of_nat (length block)) → k ∈ ids) →
  ∃ r',
    deliver_all asserts (m_fragmentSize r) block ids (Clear r) = Some r'
    ∧ GetBlock r' = Some block
    ∧ m_acks r' = m_acks r ++ ids.
Proof.
  intros Hal Hbs Hids Hall. pose proof Hal as (Hf & _).
  destruct (deliver_all_spec asserts (m_fragmentSize r) (m_maxBlockSize r) block (m_acks r) ids []
              (Clear r) Hf Hbs) as (r' & Hrun & Hinv).
  - by apply assembling_Clear.
  - by intros x ?%elem_of_nil.
  - done.
  - exists r'. simpl in Hinv. split_and!; [done| |apply Hinv].
    by eapply GetBlock_assembled.
Qed.

(** While a fragment is missing there is no block. *)
Lemma GetBlock_assembling fragmentSize maxBlockSize block acks0 seen r k :
  0 < fragmentSize →
  0 < Z.of_nat (length block) <= maxBlockSize →
  assembling fragmentSize maxBlockSize block acks0 seen r →
  (∀ x, x ∈ seen → 0 <= x < num_fragments_of fragmentSize (Z.of_nat (length block))) →
  0 <= k < num_fragments_of fragmentSize (Z.of_nat (length block)) →
  k ∉ seen →
  GetBlock r = None.
Proof.
  intros Hf Hbs Hinv Hseen Hk Hmiss.
  destruct Hinv as (_ & _ & _ & _ & _ & _ & Hnil & Hcons & _ & HL & _).
  destruct HL as (L & Hnd & HLseen & Hcount).
  unfold GetBlock, ReceiveCompleted.
  destruct seen as [|x seen].
  { destruct (Hnil eq_refl) as [-> _]. by rewrite andb_false_r. }
  destruct (Hcons ltac:(done)) as [_ Hnf]. rewrite Hcount, Hnf.
  assert (Z.of_nat (length (k :: L)) <= num_fragments_of fragmentSize (Z.of_nat (length block))).
  { apply NoDup_below_length; [lia| |].
    - constructor; [by rewrite HLseen|done].
    - intros y [->|Hy]%elem_of_cons; [done|]. apply Hseen. by apply HLseen. }
  simpl length in *.
  destruct (Z.eqb_spec (Z.of_nat (length L))
              (num_fragments_of fragmentSize (Z.of_nat (length block)))); [lia|done].
Qed.

(** X16.  No block before its last fragment. On a new receiver, after any
    sequence of fragments of a block that leaves one fragment out, every
    call was acked and [GetBlock()] returns null. *)
Theorem GetBlock_waits_for_every_fragment asserts fragmentSize maxBlockSize
    (memory block : list Byte.byte) (ids : list Z) k :
  0 < fragmentSize →
  0 < Z.of_nat (length block) <= maxBlockSize →
  length memory = Z.to_nat maxBlockSize →
  (∀ x, x ∈ ids → 0 <= x < num_fragments_of fragmentSize (Z.of_nat (length block))) →
  0 <= k < num_fragments_of fragmentSize (Z.of_nat (length block)) →
  k ∉ ids →
  ∃ r,
    deliver_all asserts fragmentSize block ids (create memory fragmentSize maxBlockSize)
    = Some r
    ∧ GetBlock r = None
    ∧ m_acks r = ids.
Proof.
  intros Hf Hbs Hmem Hids Hk Hmiss.
  destruct (deliver_all_spec asserts fragmentSize maxBlockSize block [] ids []
              (create memory fragmentSize maxBlockSize) Hf Hbs) as (r & Hrun & Hinv).
  - by apply assembling_create.
  - by intros x ?%elem_of_nil.
  - done.
  - exists r. simpl in Hinv. split_and!; [done| |apply Hinv].
    by eapply (GetBlock_assembling _ _ _ _ ids r k).
Qed.

(** *** The properties on the scenarios *)

Import Scenarios.

Lemma allocated_new : allocated (create memory 2 8).
Proof. by apply allocated_create. Qed.

Lemma ProcessFragment_in_bounds_witness :
  allocated (create memory 2 8)
  ∧ (∃ r', receive_all false [last_fragment; overlong; stray; first_fragment; last_fragment]
             (create memory 2 8) = Some r'
           ∧ allocated r')
  ∧ m_numReceivedFragments
      <$> receive_all false [last_fragment; overlong; stray; first_fragment; last_fragment]
            (create memory 2 8) = Some 2
  ∧ m_data
      <$> receive_all false [last_fragment; overlong; stray; first_fragment; last_fragment]
            (create memory 2 8)
    = Some [Byte.x01; Byte.x02; Byte.x00; Byte.x00; Byte.x05; Byte.x00; Byte.x00; Byte.x00]
  ∧ m_acks
      <$> receive_all false [last_fragment; overlong; stray; first_fragment; last_fragment]
            (create memory 2 8) = Some [2; 0; 2].
Proof.
  split; [apply allocated_new|]. split; [|split_and!; vm_compute; reflexivity].
  apply (ProcessFragment_in_bounds [last_fragment; overlong; stray; first_fragment; last_fragment]
           (create memory 2 8) allocated_new).
  repeat constructor; simpl; lia.
Defined.

Lemma ProcessFragment_empty_fragment_past_end_witness :
  m_maxFragments (create memory 2 8) = 4
  ∧ ProcessFragment false 8 5 4 0 [] (create memory 2 8) = None.
Proof.
  destruct (ProcessFragment_empty_fragment_past_end false memory 2 8) as (Hn & _ & Hcall);
    [lia|lia|done|].
  split; [exact Hn|exact Hcall].
Defined.

Lemma block_too_large_is_sticky_witness :
  m_maxBlockSize (create memory 2 8) < frag_blockSize oversized
  ∧ receive_all true [oversized; last_fragment; last_fragment] (create memory 2 8)
    = Some (set_error DATA_BLOCK_RECEIVER_ERROR_BLOCK_TOO_LARGE (create memory 2 8)).
Proof.
  assert (H : m_maxBlockSize (create memory 2 8) < frag_blockSize oversized) by (simpl; lia).
  split; [exact H|].
  apply (block_too_large_is_sticky true oversized [last_fragment; last_fragment]
           (create memory 2 8) H).
Defined.

Lemma allocated_used : allocated used.
Proof.
  unfold allocated. change (m_fragmentSize used) with 2. change (m_maxBlockSize used) with 8.
  change (m_maxFragments used) with 4. split_and!; try done; lia.
Qed.

Lemma Clear_starts_over_witness :
  allocated used
  ∧ m_numReceivedFragments used = 1
  ∧ ∃ r', deliver_all true 2 block arrival (Clear used) = Some r'
          ∧ GetBlock r' = Some block
          ∧ m_acks r' = [2] ++ arrival.
Proof.
  split; [apply allocated_used|]. split; [done|].
  apply (Clear_starts_over true block arrival used allocated_used).
  - simpl. lia.
  - intros k Hk. change (num_fragments_of (m_fragmentSize used) (Z.of_nat (length block))) with 3.
    unfold arrival in Hk.
    repeat (apply elem_of_cons in Hk as [->|Hk]); try lia. by apply elem_of_nil in Hk.
  - change (num_fragments_of (m_fragmentSize used) (Z.of_nat (length block))) with 3.
    intros k Hk.
    assert (k = 0 ∨ k = 1 ∨ k = 2) as [->|[->| ->]] by lia; unfold arrival.
    + right. by left.
    + do 2 right. by left.
    + by left.
Defined.

Lemma GetBlock_waits_for_every_fragment_witness :
  ∃ r, deliver_all true 2 block [2; 0; 2] (create memory 2 8) = Some r
       ∧ GetBlock r = None
       ∧ m_acks r = [2; 0; 2].
Proof.
  apply (GetBlock_waits_for_every_fragment true 2 8 memory block [2; 0; 2] 1).
  - lia.
  - simpl. lia.
  - done.
  - intros x Hx. change (num_fragments_of 2 (Z.of_nat (length block))) with 3.
    repeat (apply elem_of_cons in Hx as [->|Hx]); try lia. by apply elem_of_nil in Hx.
  - change (num_fragments_of 2 (Z.of_nat (length block))) with 3. lia.
  - intros Hx. repeat (apply elem_of_cons in Hx as [?|Hx]); try lia. by apply elem_of_nil in Hx.
Defined.

End ReceiverStates.

(** ** The DNS resolver *)

Module ResolverFacts.
Import DNSResolver.

Ltac dns_simpl := cbn [fst snd heap next map in_progress status result callbacks] in *.

Lemma resolver_ok_create : resolver_ok create.
Proof. unfold resolver_ok, create. dns_simpl. split_and!; intros *; by rewrite ?lookup_empty. Qed.

Lemma Resolve_ok name callback r : resolver_ok r → resolver_ok (Resolve name callback r).1.
Proof.
  intros (H1 & H2 & H3 & H4 & H5). unfold Resolve.
  destruct (map r !! name) as [p|] eqn:Hm.
  - destruct (heap r !! p) as [entry|] eqn:Hh; [|done].
    destruct (status entry) eqn:Hst; destruct callback as [cb|]; try done.
    unfold resolver_ok. dns_simpl. split_and!; try done.
    + intros name' p' e' Hm' He' Hs'. destruct (decide (p = p')) as [<-|Hne].
      * rewrite lookup_insert_eq in He'. injection He' as <-. eapply H4; eauto.
      * rewrite lookup_insert_ne in He' by done. eapply H4; eauto.
    + intros name' p' Hm'. rewrite lookup_insert. case_decide; [by eexists|by eapply H5].
  - assert (Hin : in_progress r !! name = None).
    { destruct (in_progress r !! name) as [p|] eqn:Hp; [|done]. apply H1 in Hp. congruence. }
    unfold resolver_ok. dns_simpl. split_and!.
    + intros name' p. rewrite !lookup_insert. case_decide; [done|]. apply H1.
    + intros name' p. rewrite lookup_insert. case_decide.
      * intros [= <-]. lia.
      * intros Hp%H2. lia.
    + intros n1 n2 p. rewrite !lookup_insert. repeat case_decide; try congruence.
      * intros [= <-] Hp%H2. lia.
      * intros Hp%H2 [= <-]. lia.
      * apply H3.
    + intros name' p e. destruct (decide (name = name')) as [<-|Hn].
      * by rewrite !lookup_insert_eq.
      * rewrite !(lookup_insert_ne _ name name') by done.
        intros Hp. pose proof (H2 _ _ Hp). rewrite lookup_insert_ne by lia. by apply H4.
    + intros name' p. destruct (decide (name = name')) as [<-|Hn].
      * rewrite lookup_insert_eq. intros [= <-]. rewrite lookup_insert_eq. by eexists.
      * rewrite lookup_insert_ne by done.
        intros Hp. pose proof (H2 _ _ Hp). rewrite lookup_insert_ne by lia. by eapply H5.
Qed.

(** While [Resolve] does not find the lookup completed, it calls nothing. *)
Lemma Resolve_silent name callback r :
  (∀ e, ¬ completed name e r) → (Resolve name callback r).2 = [].
Proof.
  intros Hnot. unfold Resolve.
  destruct (map r !! name) as [p|] eqn:Hm; [|done].
  destruct (heap r !! p) as [entry|] eqn:Hh; [|done].
  destruct (status entry) eqn:Hst; destruct callback; try done.
  - exfalso. apply (Hnot entry). unfold completed, GetEntry. rewrite Hm, Hh, Hst. done.
  - exfalso. apply (Hnot entry). unfold completed, GetEntry. rewrite Hm, Hh, Hst. done.
Qed.

Lemma Resolve_queued name cb r :
  resolver_ok r → (∀ e, ¬ completed name e r) →
  queued name cb (Resolve name (Some cb) r).1.
Proof.
  intros (H1 & H2 & H3 & H4 & H5) Hnot. unfold Resolve.
  destruct (map r !! name) as [p|] eqn:Hm.
  - destruct (H5 _ _ Hm) as [entry Hh]. rewrite Hh.
    destruct (status entry) eqn:Hst.
    + exists p. eexists. dns_simpl. rewrite lookup_insert_eq.
      split_and!; [by eapply H4|done|done|]. dns_simpl.
      apply elem_of_app. right. by left.
    + exfalso. apply (Hnot entry). unfold completed, GetEntry. rewrite Hm, Hh, Hst. done.
    + exfalso. apply (Hnot entry). unfold completed, GetEntry. rewrite Hm, Hh, Hst. done.
  - exists (next r). eexists. dns_simpl. rewrite !lookup_insert_eq.
    split_and!; try done. dns_simpl. by left.
Qed.

(** A completed lookup: [Resolve] calls the callback on the spot, with
    the result of the entry, and leaves the resolver as it is. *)
Lemma Resolve_completed name cb e r :
  completed name e r →
  Resolve name (Some cb) r
  = (r, [{| inv_callback := cb; inv_name := name; inv_result := result e |}]).
Proof.
  intros [Hget Hst]. unfold GetEntry in Hget. unfold Resolve.
  destruct (map r !! name) as [p|]; [|done]. rewrite Hget.
  by destruct (status e).
Qed.

Lemma update_entry_ok ready r invoked name p :
  resolver_ok r → in_progress r !! name = Some p →
  resolver_ok (update_entry ready (r, invoked) (name, p)).1.
Proof.
  intros (H1 & H2 & H3 & H4 & H5) Hin. unfold update_entry.
  destruct (heap r !! p) as [entry|] eqn:Hh; [|by split_and!].
  destruct (ready name) as [res|]; [|by split_and!].
  unfold resolver_ok. dns_simpl. split_and!; try done.
  - intros name' p' [_ Hp]%lookup_delete_Some. by apply H1.
  - intros name' p' e Hm He Hst. destruct (decide (p = p')) as [<-|Hne].
    + rewrite lookup_insert_eq in He. injection He as <-. by destruct res.
    + rewrite lookup_insert_ne in He by done.
      apply lookup_delete_Some. split; [|by eapply H4].
      intros <-. apply H1 in Hin. congruence.
  - intros name' p' Hm. rewrite lookup_insert. case_decide; [by eexists|by eapply H5].
Qed.

(** [Update] over the entries in progress: the resolver stays well
    formed, the calls made are those of entries whose lookup is ready, and
    every callback of such an entry is called. *)
Lemma update_fold ready l : ∀ r invoked,
  resolver_ok r →
  NoDup l.*1 →
  (∀ name p, (name, p) ∈ l → in_progress r !! name = Some p) →
  resolver_ok (foldl (update_entry ready) (r, invoked) l).1
  ∧ (∃ more, (foldl (update_entry ready) (r, invoked) l).2 = invoked ++ more
       ∧ ∀ inv, inv ∈ more → ready (inv_name inv) = Some (inv_result inv))
  ∧ (∀ name p e cb res,
       (name, p) ∈ l → heap r !! p = Some e → cb ∈ callbacks e → ready name = Some res →
       {| inv_callback := cb; inv_name := name; inv_result := res |}
       ∈ (foldl (update_entry ready) (r, invoked) l).2).
Proof.
  induction l as [|[name0 p0] l IH]; intros r invoked Hok Hnd Hl.
  { split_and!; [done| |by intros ? ? ? ? ? ?%elem_of_nil].
    exists []. rewrite app_nil_r. split; [done|]. by intros ? ?%elem_of_nil. }
  change (foldl ?f ?a ((name0, p0) :: l)) with (foldl f (f a (name0, p0)) l).
  rewrite fmap_cons in Hnd. apply NoDup_cons in Hnd as [Hnotin Hnd]. simpl in Hnotin.
  assert (Hin0 : in_progress r !! name0 = Some p0) by (apply Hl; by left).
  pose proof (update_entry_ok ready r invoked name0 p0 Hok Hin0) as Hok1.
  destruct (update_entry ready (r, invoked) (name0, p0)) as [r1 invoked1] eqn:Hstep.
  assert (Hl1 : ∀ name p, (name, p) ∈ l → in_progress r1 !! name = Some p).
  { intros name p Hp. assert (name ≠ name0).
    { intros ->. apply Hnotin. apply list_elem_of_fmap. by exists (name0, p). }
    unfold update_entry in Hstep.
    destruct (heap r !! p0), (ready name0); injection Hstep as <- <-; dns_simpl;
      rewrite ?lookup_delete_ne by done; apply Hl; by right. }
  destruct (IH r1 invoked1 Hok1 Hnd Hl1) as (Hokf & (more & Hmore & Hready) & Hfire).
  assert (Hstep1 : ∃ more1, invoked1 = invoked ++ more1
            ∧ (∀ inv, inv ∈ more1 → ready (inv_name inv) = Some (inv_result inv))
            ∧ (∀ e res, heap r !! p0 = Some e → ready name0 = Some res →
                 more1 = (fun cb => {| inv_callback := cb; inv_name := name0;
                                       inv_result := res |}) <$> callbacks e)).
  { unfold update_entry in Hstep.
    destruct (heap r !! p0) as [e0|] eqn:Hh0; [destruct (ready name0) as [res0|] eqn:Hr0|];
      injection Hstep as <- <-.
    - eexists. split; [done|]. split.
      + intros inv (cb & -> & _)%list_elem_of_fmap. done.
      + by intros e res [= <-] [= <-].
    - exists []. rewrite app_nil_r. split_and!; [done|by intros ? ?%elem_of_nil|done].
    - exists []. rewrite app_nil_r. split_and!; [done|by intros ? ?%elem_of_nil|done]. }
  destruct Hstep1 as (more1 & -> & Hready1 & Hcalls1).
  split_and!; [done| |].
  - exists (more1 ++ more). rewrite Hmore, app_assoc. split; [done|].
    intros inv [?|?]%elem_of_app; auto.
  - intros name p e cb res [[= -> ->]|Hp]%elem_of_cons He Hcb Hres.
    + rewrite Hmore, (Hcalls1 e res He Hres).
      apply elem_of_app. left. apply elem_of_app. right.
      apply list_elem_of_fmap. by exists cb.
    + apply (Hfire name p e cb res Hp); [|done..].
      assert (p ≠ p0).
      { intros ->. destruct Hok as (H1 & _ & H3 & _).
        assert (name = name0).
        { eapply H3; apply H1; [apply Hl; by right|done]. }
        subst name. apply Hnotin. apply list_elem_of_fmap. by exists (name0, p0). }
      unfold update_entry in Hstep.
      destruct (heap r !! p0), (ready name0); injection Hstep as <- _; dns_simpl;
        rewrite ?lookup_insert_ne by done; done.
Qed.

Lemma Update_spec ready r :
  resolver_ok r →
  resolver_ok (Update ready r).1
  ∧ (∀ inv, inv ∈ (Update ready r).2 → ready (inv_name inv) = Some (inv_result inv))
  ∧ (∀ name cb res, queued name cb r → ready name = Some res →
       {| inv_callback := cb; inv_name := name; inv_result := res |} ∈ (Update ready r).2).
Proof.
  intros Hok. unfold Update.
  destruct (update_fold ready (map_to_list (in_progress r)) r [] Hok)
    as (Hokf & (more & Hmore & Hready) & Hfire).
  - apply NoDup_fst_map_to_list.
  - intros name p. apply elem_of_map_to_list.
  - split_and!; [done| |].
    + rewrite Hmore. simpl. done.
    + intros name cb res (p & e & Hin & Hh & _ & Hcb) Hres.
      eapply Hfire; eauto. by apply elem_of_map_to_list.
Qed.

Lemma run_ok ops : ∀ r, resolver_ok r → resolver_ok (run ops r).
Proof.
  unfold run. induction ops as [|op ops IH]; intros r Hok; [done|].
  simpl. apply IH. destruct op as [name callback|ready]; simpl.
  - by apply Resolve_ok.
  - by apply Update_spec.
Qed.

(** *** The property on the scenario *)

Import Scenarios.

(** C10 as it stands fails on a name whose lookup has completed: the
    first [Resolve] calls nothing, [Update] calls the first callback once
    the lookup is ready, and the second [Resolve] of the same name calls its
    callback itself, during the call. *)
Lemma Resolve_calls_back_when_completed :
  (Resolve "localhost" (Some 1%nat) create).2 = []
  ∧ (Update all_ready (Resolve "localhost" (Some 1%nat) create).1).2
    = [{| inv_callback := 1%nat; inv_name := "localhost";
          inv_result := Some {| addresses := [1] |} |}]
  ∧ (Resolve "localhost" (Some 2%nat) resolved).2
    = [{| inv_callback := 2%nat; inv_name := "localhost";
          inv_result := Some {| addresses := [1] |} |}].
Proof. split_and!; vm_compute; reflexivity. Qed.

End ResolverFacts.

(** ** The lookups of the resolver *)

Module ResolverLookups.
Import DNSResolver ResolverFacts.

Lemma update_entry_callbacks ready r invoked item p :
  callbacks <$> heap (update_entry ready (r, invoked) item).1 !! p = callbacks <$> heap r !! p.
Proof.
  destruct item as [name q]. unfold update_entry.
  destruct (heap r !! q) as [entry|] eqn:Hq; [|done].
  destruct (ready name) as [res|]; [|done]. dns_simpl.
  destruct (decide (q = p)) as [->|Hne].
  - rewrite lookup_insert_eq, Hq. done.
  - by rewrite lookup_insert_ne.
Qed.

Lemma update_entry_calls ready r invoked item :
  (update_entry ready (r, invoked) item).2 = invoked ++ calls ready r item.
Proof.
  destruct item as [name q]. unfold update_entry, calls. simpl.
  destruct (heap r !! q) as [entry|]; [|by rewrite app_nil_r].
  destruct (ready name) as [res|]; [done|by rewrite app_nil_r].
Qed.

Lemma calls_callbacks ready r r' item :
  callbacks <$> heap r' !! item.2 = callbacks <$> heap r !! item.2 →
  calls ready r' item = calls ready r item.
Proof.
  unfold calls. destruct (heap r' !! item.2) as [e'|], (heap r !! item.2) as [e|]; simpl; try done.
  by intros [= ->].
Qed.

(** The calls of [Update], entry by entry. *)
Lemma update_fold_calls ready l : ∀ r invoked,
  (foldl (update_entry ready) (r, invoked) l).2 = invoked ++ concat (calls ready r <$> l).
Proof.
  induction l as [|item l IH]; intros r invoked.
  { simpl. by rewrite app_nil_r. }
  change (foldl ?f ?a (item :: l)) with (foldl f (f a item) l).
  pose proof (update_entry_calls ready r invoked item) as Hc.
  pose proof (update_entry_callbacks ready r invoked item) as Hcb.
  destruct (update_entry ready (r, invoked) item) as [r1 invoked1]. simpl in Hc, Hcb.
  rewrite IH, Hc, fmap_cons. simpl. rewrite <- app_assoc. do 3 f_equal.
  apply list_fmap_ext. intros _ item' _. by apply calls_callbacks.
Qed.

Lemma Update_calls ready r :
  (Update ready r).2 = concat (calls ready r <$> map_to_list (in_progress r)).
Proof. unfold Update. by rewrite update_fold_calls. Qed.

Lemma calls_for_app name l1 l2 : calls_for name (l1 ++ l2) = calls_for name l1 ++ calls_for name l2.
Proof. apply filter_app. Qed.

Lemma calls_for_calls ready r name item :
  calls_for name (calls ready r item) = if decide (item.1 = name) then calls ready r item else [].
Proof.
  unfold calls. destruct (heap r !! item.2) as [e|]; [|by case_decide].
  destruct (ready item.1) as [res|]; [|by case_decide].
  unfold calls_for. induction (callbacks e) as [|cb cbs IH]; [by case_decide|].
  rewrite fmap_cons. case_decide as Hd.
  - rewrite filter_cons_True by done. by rewrite IH.
  - rewrite filter_cons_False by done. done.
Qed.

(** Of a list of entries with one entry per name, the calls for a name
    are those of its entry. *)
Lemma calls_for_concat ready r name l :
  NoDup l.*1 →
  calls_for name (concat (calls ready r <$> l))
  = match list_find (fun item => item.1 = name) l with
    | Some (_, item) => calls ready r item
    | None => []
    end.
Proof.
  induction l as [|item l IH]; intros Hnd; [done|].
  rewrite fmap_cons in Hnd. apply NoDup_cons in Hnd as [Hnotin Hnd].
  rewrite fmap_cons. simpl concat. rewrite calls_for_app, calls_for_calls, IH by done.
  simpl. case_decide as Hd.
  - destruct (list_find _ l) as [[i item']|] eqn:Hf; simpl; [|by rewrite app_nil_r].
    apply list_find_Some in Hf as (Hi & Hn & _). exfalso. apply Hnotin.
    rewrite Hd, <- Hn. apply list_elem_of_fmap. exists item'. split; [done|].
    by eapply list_elem_of_lookup_2.
  - by destruct (list_find _ l) as [[i item']|].
Qed.

Lemma Update_calls_for ready r name :
  calls_for name (Update ready r).2
  = match in_progress r !! name with
    | Some p => calls ready r (name, p)
    | None => []
    end.
Proof.
  rewrite Update_calls, calls_for_concat by apply NoDup_fst_map_to_list.
  destruct (list_find _ _) as [[i [name' p]]|] eqn:Hf.
  - apply list_find_Some in Hf as (Hi & Hn & _). simpl in Hn. subst name'.
    apply list_elem_of_lookup_2, elem_of_map_to_list in Hi. by rewrite Hi.
  - destruct (in_progress r !! name) as [p|] eqn:Hp; [|done].
    apply elem_of_map_to_list in Hp. eapply list_find_None in Hf.
    rewrite Forall_forall in Hf. by specialize (Hf _ Hp).
Qed.

(** [Update] takes nothing into [in_progress]. *)
Lemma update_fold_in_progress ready l : ∀ r invoked name p,
  in_progress (foldl (update_entry ready) (r, invoked) l).1 !! name = Some p →
  in_progress r !! name = Some p.
Proof.
  induction l as [|[name0 p0] l IH]; intros r invoked name p; [done|].
  change (foldl ?f ?a ((name0, p0) :: l)) with (foldl f (f a (name0, p0)) l).
  destruct (update_entry ready (r, invoked) (name0, p0)) as [r1 invoked1] eqn:Hstep.
  intros Hp%IH. unfold update_entry in Hstep.
  destruct (heap r !! p0), (ready name0); injection Hstep as <- <-; dns_simpl; try done.
  by apply lookup_delete_Some in Hp as [_ ?].
Qed.

(** The entry of a lookup that is ready leaves [in_progress]. *)
Lemma update_fold_erased ready l : ∀ r invoked name p,
  (name, p) ∈ l → is_Some (heap r !! p) → is_Some (ready name) →
  in_progress (foldl (update_entry ready) (r, invoked) l).1 !! name = None.
Proof.
  induction l as [|[name0 p0] l IH]; intros r invoked name p Hin Hh Hr.
  { by apply elem_of_nil in Hin. }
  change (foldl ?f ?a ((name0, p0) :: l)) with (foldl f (f a (name0, p0)) l).
  pose proof (update_entry_callbacks ready r invoked (name0, p0) p) as Hcb.
  destruct (update_entry ready (r, invoked) (name0, p0)) as [r1 invoked1] eqn:Hstep.
  simpl in Hcb.
  apply elem_of_cons in Hin as [[= -> ->]|Hin].
  - destruct (in_progress (foldl _ _ _).1 !! name0) as [q|] eqn:Hq; [|done].
    apply update_fold_in_progress in Hq. unfold update_entry in Hstep.
    destruct Hh as [e He], Hr as [res Hres]. rewrite He, Hres in Hstep.
    injection Hstep as <- <-. dns_simpl. by rewrite lookup_delete_eq in Hq.
  - eapply IH; [done| |done]. destruct Hh as [e He]. rewrite He in Hcb.
    destruct (heap r1 !! p); [by eexists|done].
Qed.

(** The entries that [Update] does not visit stay as they are, and an
    entry it visits once, with its lookup ready, is completed. *)
Lemma update_fold_heap_other ready l : ∀ r invoked p,
  p ∉ l.*2 → heap (foldl (update_entry ready) (r, invoked) l).1 !! p = heap r !! p.
Proof.
  induction l as [|[name0 p0] l IH]; intros r invoked p Hp; [done|].
  change (foldl ?f ?a ((name0, p0) :: l)) with (foldl f (f a (name0, p0)) l).
  rewrite fmap_cons in Hp. apply not_elem_of_cons in Hp as [Hne Hp]. simpl in Hne.
  destruct (update_entry ready (r, invoked) (name0, p0)) as [r1 invoked1] eqn:Hstep.
  rewrite IH by done. unfold update_entry in Hstep.
  destruct (heap r !! p0), (ready name0); injection Hstep as <- <-; dns_simpl; try done.
  by rewrite lookup_insert_ne.
Qed.

Lemma update_fold_heap ready l : ∀ r invoked name p e res,
  NoDup l.*2 → (name, p) ∈ l → heap r !! p = Some e → ready name = Some res →
  heap (foldl (update_entry ready) (r, invoked) l).1 !! p = Some (completed_with res e).
Proof.
  induction l as [|[name0 p0] l IH]; intros r invoked name p e res Hnd Hin He Hres.
  { by apply elem_of_nil in Hin. }
  change (foldl ?f ?a ((name0, p0) :: l)) with (foldl f (f a (name0, p0)) l).
  rewrite fmap_cons in Hnd. apply NoDup_cons in Hnd as [Hnotin Hnd]. simpl in Hnotin.
  destruct (update_entry ready (r, invoked) (name0, p0)) as [r1 invoked1] eqn:Hstep.
  apply elem_of_cons in Hin as [[= -> ->]|Hin].
  - rewrite update_fold_heap_other by done. unfold update_entry in Hstep.
    rewrite He, Hres in Hstep. injection Hstep as <- <-. dns_simpl.
    by rewrite lookup_insert_eq.
  - eapply IH; [done|done| |done].
    assert (p ≠ p0).
    { intros ->. apply Hnotin. apply list_elem_of_fmap. by exists (name, p0). }
    unfold update_entry in Hstep.
    destruct (heap r !! p0), (ready name0); injection Hstep as <- <-; dns_simpl; try done.
    by rewrite lookup_insert_ne.
Qed.

(** [Update] leaves [map] as it is. *)
Lemma update_fold_map ready l : ∀ r invoked,
  map (foldl (update_entry ready) (r, invoked) l).1 = map r.
Proof.
  induction l as [|[name0 p0] l IH]; intros r invoked; [done|].
  change (foldl ?f ?a ((name0, p0) :: l)) with (foldl f (f a (name0, p0)) l).
  destruct (update_entry ready (r, invoked) (name0, p0)) as [r1 invoked1] eqn:Hstep.
  rewrite IH. unfold update_entry in Hstep.
  by destruct (heap r !! p0), (ready name0); injection Hstep as <- <-.
Qed.

(** The entries of [in_progress] are those of different names, each with
    an entry of its own. *)
Lemma in_progress_pointers r : resolver_ok r → NoDup (map_to_list (in_progress r)).*2.
Proof.
  intros (H1 & _ & H3 & _).
  apply NoDup_fmap_2_strong; [|apply NoDup_map_to_list].
  intros [n1 p1] [n2 p2] Hi1%elem_of_map_to_list Hi2%elem_of_map_to_list Hp.
  simpl in Hp. subst p2. f_equal. eapply H3; by apply H1.
Qed.

(** *** The entries agree with their status *)

Lemma heap_settled_create : heap_settled create.
Proof. split; intros *; unfold create; dns_simpl; by rewrite lookup_empty. Qed.

Lemma Resolve_settled name callback r :
  resolver_ok r → heap_settled r → heap_settled (Resolve name callback r).1.
Proof.
  intros (H1 & H2 & H3 & H4 & H5) [S1 S2]. unfold Resolve.
  destruct (map r !! name) as [p|] eqn:Hm.
  - destruct (heap r !! p) as [entry|] eqn:Hh; [|done].
    destruct (status entry) eqn:Hst; destruct callback as [cb|]; try done.
    split; dns_simpl.
    + intros p' e'. rewrite lookup_insert. case_decide as Hd.
      * intros [= <-]. dns_simpl. subst p'. rewrite <- Hst. by apply (S1 p).
      * apply S1.
    + intros name' p' e' Hin. rewrite lookup_insert. case_decide as Hd.
      * intros [= <-]. done.
      * by apply (S2 name').
  - split; dns_simpl.
    + intros p' e'. rewrite lookup_insert. case_decide as Hd.
      * intros [= <-]. dns_simpl. split; [done|]. by intros [? ?].
      * apply S1.
    + intros name' p' e'. rewrite !lookup_insert. case_decide as Hd.
      * intros [= <-]. rewrite decide_True by done. by intros [= <-].
      * intros Hp. pose proof (H2 _ _ (H1 _ _ Hp)). rewrite decide_False by lia.
        by apply (S2 name').
Qed.

Lemma update_entry_settled ready r invoked name p :
  resolver_ok r → heap_settled r → in_progress r !! name = Some p →
  heap_settled (update_entry ready (r, invoked) (name, p)).1.
Proof.
  intros (H1 & H2 & H3 & H4 & H5) [S1 S2] Hin. unfold update_entry.
  destruct (heap r !! p) as [entry|] eqn:Hh; [|done].
  destruct (ready name) as [res|]; [|done].
  split; dns_simpl.
  - intros p' e'. rewrite lookup_insert. case_decide as Hd; [|apply S1].
    intros [= <-]. dns_simpl. destruct res; split; try done; by eexists.
  - intros name' p' e' [Hne Hp]%lookup_delete_Some. rewrite lookup_insert.
    case_decide as Hd; [|by apply (S2 name')]. subst p'. exfalso. apply Hne.
    eapply H3; by apply H1.
Qed.

Lemma update_fold_settled ready l : ∀ r invoked,
  resolver_ok r → heap_settled r →
  NoDup l.*1 →
  (∀ name p, (name, p) ∈ l → in_progress r !! name = Some p) →
  heap_settled (foldl (update_entry ready) (r, invoked) l).1.
Proof.
  induction l as [|[name0 p0] l IH]; intros r invoked Hok Hs Hnd Hl; [done|].
  change (foldl ?f ?a ((name0, p0) :: l)) with (foldl f (f a (name0, p0)) l).
  rewrite fmap_cons in Hnd. apply NoDup_cons in Hnd as [Hnotin Hnd]. simpl in Hnotin.
  assert (Hin0 : in_progress r !! name0 = Some p0) by (apply Hl; by left).
  pose proof (update_entry_ok ready r invoked name0 p0 Hok Hin0) as Hok1.
  pose proof (update_entry_settled ready r invoked name0 p0 Hok Hs Hin0) as Hs1.
  destruct (update_entry ready (r, invoked) (name0, p0)) as [r1 invoked1] eqn:Hstep.
  apply IH; try done.
  intros name p Hp. assert (name ≠ name0).
  { intros ->. apply Hnotin. apply list_elem_of_fmap. by exists (name0, p). }
  unfold update_entry in Hstep.
  destruct (heap r !! p0), (ready name0); injection Hstep as <- <-; dns_simpl;
    rewrite ?lookup_delete_ne by done; apply Hl; by right.
Qed.

Lemma Update_settled ready r :
  resolver_ok r → heap_settled r → heap_settled (Update ready r).1.
Proof.
  intros Hok Hs. unfold Update. apply update_fold_settled; try done.
  - apply NoDup_fst_map_to_list.
  - intros name p. apply elem_of_map_to_list.
Qed.

Lemma run_settled ops : ∀ r, resolver_ok r → heap_settled r → heap_settled (run ops r).
Proof.
  unfold run. induction ops as [|op ops IH]; intros r Hok Hs; [done|].
  simpl. destruct op as [name callback|ready]; simpl; apply IH.
  - by apply Resolve_ok.
  - by apply Resolve_settled.
  - by apply Update_spec.
  - by apply Update_settled.
Qed.

Lemma resolver_wf_create : resolver_wf create.
Proof. unfold resolver_wf, create. dns_simpl. split_and!; intros *; by rewrite ?lookup_empty. Qed.

Lemma Clear_wf r : resolver_wf r → resolver_wf (Clear r).
Proof.
  intros (W1 & W2 & W3 & W4 & W5). unfold resolver_wf, Clear. dns_simpl.
  split_and!; try done; intros *; by rewrite lookup_empty.
Qed.

Lemma Resolve_wf name callback r : resolver_wf r → resolver_wf (Resolve name callback r).1.
Proof.
  intros (W1 & W2 & W3 & W4 & W5). unfold Resolve.
  destruct (map r !! name) as [p|] eqn:Hm.
  - destruct (heap r !! p) as [entry|] eqn:Hh; [|done].
    destruct (status entry) eqn:Hst; destruct callback as [cb|]; try done.
    unfold resolver_wf. dns_simpl. split_and!; try done.
    + intros name' p' e' Hm' He' Hs'. destruct (decide (p = p')) as [<-|Hne].
      * rewrite lookup_insert_eq in He'. injection He' as <-. eapply W4; eauto.
      * rewrite lookup_insert_ne in He' by done. eapply W4; eauto.
    + intros name' p' Hm'. rewrite lookup_insert. case_decide; [by eexists|by eapply W5].
  - unfold resolver_wf. dns_simpl. split_and!.
    + intros name' p. rewrite lookup_insert. case_decide.
      * intros [= <-]. lia.
      * intros Hp%W1. lia.
    + intros name' p. rewrite lookup_insert. case_decide.
      * intros [= <-]. lia.
      * intros Hp%W2. lia.
    + intros n1 n2 p. rewrite !lookup_insert. repeat case_decide; try congruence.
      * intros [= <-] Hp%W2. lia.
      * intros Hp%W2 [= <-]. lia.
      * apply W3.
    + intros name' p e. destruct (decide (name = name')) as [<-|Hn].
      * by rewrite !lookup_insert_eq.
      * rewrite !(lookup_insert_ne _ name name') by done.
        intros Hp. pose proof (W1 _ _ Hp). rewrite lookup_insert_ne by lia. by apply W4.
    + intros name' p. destruct (decide (name = name')) as [<-|Hn].
      * rewrite lookup_insert_eq. intros [= <-]. rewrite lookup_insert_eq. by eexists.
      * rewrite lookup_insert_ne by done.
        intros Hp. pose proof (W1 _ _ Hp). rewrite lookup_insert_ne by lia. by eapply W5.
Qed.

Lemma update_entry_wf ready r invoked name p :
  resolver_wf r → in_progress r !! name = Some p →
  resolver_wf (update_entry ready (r, invoked) (name, p)).1.
Proof.
  intros (W1 & W2 & W3 & W4 & W5) Hin. unfold update_entry.
  destruct (heap r !! p) as [entry|] eqn:Hh; [|by split_and!].
  destruct (ready name) as [res|]; [|by split_and!].
  unfold resolver_wf. dns_simpl. split_and!; try done.
  - intros name' p' [_ Hp]%lookup_delete_Some. by eapply W2.
  - intros n1 n2 p' [_ Hp1]%lookup_delete_Some [_ Hp2]%lookup_delete_Some. by eapply W3.
  - intros name' p' e Hm He Hst. destruct (decide (p = p')) as [<-|Hne].
    + rewrite lookup_insert_eq in He. injection He as <-. by destruct res.
    + rewrite lookup_insert_ne in He by done.
      apply lookup_delete_Some. split; [|by eapply W4].
      intros <-. assert (in_progress r !! name = Some p') by by eapply W4. congruence.
  - intros name' p' Hm. rewrite lookup_insert. case_decide; [by eexists|by eapply W5].
Qed.

Lemma update_fold_wf ready l : ∀ r invoked,
  resolver_wf r →
  NoDup l.*1 →
  (∀ name p, (name, p) ∈ l → in_progress r !! name = Some p) →
  resolver_wf (foldl (update_entry ready) (r, invoked) l).1.
Proof.
  induction l as [|[name0 p0] l IH]; intros r invoked Hok Hnd Hl; [done|].
  change (foldl ?f ?a ((name0, p0) :: l)) with (foldl f (f a (name0, p0)) l).
  rewrite fmap_cons in Hnd. apply NoDup_cons in Hnd as [Hnotin Hnd]. simpl in Hnotin.
  assert (Hin0 : in_progress r !! name0 = Some p0) by (apply Hl; by left).
  pose proof (update_entry_wf ready r invoked name0 p0 Hok Hin0) as Hok1.
  destruct (update_entry ready (r, invoked) (name0, p0)) as [r1 invoked1] eqn:Hstep.
  apply IH; try done.
  intros name p Hp. assert (name ≠ name0).
  { intros ->. apply Hnotin. apply list_elem_of_fmap. by exists (name0, p). }
  unfold update_entry in Hstep.
  destruct (heap r !! p0), (ready name0); injection Hstep as <- <-; dns_simpl;
    rewrite ?lookup_delete_ne by done; apply Hl; by right.
Qed.

Lemma Update_wf ready r : resolver_wf r → resolver_wf (Update ready r).1.
Proof.
  intros Hok. unfold Update. apply update_fold_wf; try done.
  - apply NoDup_fst_map_to_list.
  - intros name p. apply elem_of_map_to_list.
Qed.

Lemma call_wf op r : resolver_wf r → resolver_wf (call op r).1.
Proof. destruct op; simpl; [apply Resolve_wf|apply Update_wf]. Qed.

Lemma reached_wf r : reached r → resolver_wf r.
Proof.
  induction 1 as [|op r _ IH|r _ IH];
    [apply resolver_wf_create|by apply call_wf|by apply Clear_wf].
Qed.

Lemma run_wf ops : ∀ r, resolver_wf r → resolver_wf (run ops r).
Proof.
  unfold run. induction ops as [|op ops IH]; intros r Hok; [done|].
  simpl. by apply IH, call_wf.
Qed.

(** [Update] leaves the name and its entry as they are while the lookup of
    the name is not ready. *)
Lemma update_fold_kept ready name l : ∀ r invoked,
  ready name = None →
  in_progress (foldl (update_entry ready) (r, invoked) l).1 !! name = in_progress r !! name.
Proof.
  induction l as [|[name0 p0] l IH]; intros r invoked Hnot; [done|].
  change (foldl ?f ?a ((name0, p0) :: l)) with (foldl f (f a (name0, p0)) l).
  destruct (update_entry ready (r, invoked) (name0, p0)) as [r1 invoked1] eqn:Hstep.
  rewrite IH by done. unfold update_entry in Hstep.
  destruct (heap r !! p0), (ready name0) eqn:Hr0; injection Hstep as <- <-; dns_simpl; try done.
  apply lookup_delete_ne. congruence.
Qed.

Lemma update_fold_heap_waiting ready p l : ∀ r invoked,
  (∀ name0, (name0, p) ∈ l → ready name0 = None) →
  heap (foldl (update_entry ready) (r, invoked) l).1 !! p = heap r !! p.
Proof.
  induction l as [|[name0 p0] l IH]; intros r invoked Hnot; [done|].
  change (foldl ?f ?a ((name0, p0) :: l)) with (foldl f (f a (name0, p0)) l).
  destruct (update_entry ready (r, invoked) (name0, p0)) as [r1 invoked1] eqn:Hstep.
  rewrite IH by (intros n Hn; apply Hnot; by right). unfold update_entry in Hstep.
  destruct (heap r !! p0), (ready name0) eqn:Hr0; injection Hstep as <- <-; dns_simpl; try done.
  apply lookup_insert_ne. intros ->.
  rewrite (Hnot name0) in Hr0; [done|by left].
Qed.

(** [Resolve] of a name whose lookup has not completed queues the
    callback in the entry of the name. *)
Lemma Resolve_pending name cb r :
  resolver_wf r → (∀ e, ¬ completed name e r) →
  pending name cb (Resolve name (Some cb) r).1.
Proof.
  intros (W1 & W2 & W3 & W4 & W5) Hnot. unfold Resolve.
  destruct (map r !! name) as [p|] eqn:Hm.
  - destruct (W5 _ _ Hm) as [entry Hh]. rewrite Hh.
    destruct (status entry) eqn:Hst.
    + exists p. eexists. dns_simpl. rewrite lookup_insert_eq.
      split_and!; [done|by eapply W4|done|done|]. dns_simpl.
      apply elem_of_app. right. by left.
    + exfalso. apply (Hnot entry). unfold completed, GetEntry. rewrite Hm, Hh, Hst. done.
    + exfalso. apply (Hnot entry). unfold completed, GetEntry. rewrite Hm, Hh, Hst. done.
  - exists (next r). eexists. dns_simpl. rewrite !lookup_insert_eq.
    split_and!; try done. dns_simpl. by left.
Qed.

Lemma pending_queued name cb r : pending name cb r → queued name cb r.
Proof. intros (p & e & _ & ? & ? & ? & ?). by exists p, e. Qed.

(** A callback that waits goes on waiting, and nothing is called for its
    name, until an [Update] finds the lookup of the name ready. *)
Lemma Resolve_waits name cb name' callback r :
  resolver_wf r → pending name cb r →
  pending name cb (Resolve name' callback r).1
  ∧ calls_for name (Resolve name' callback r).2 = [].
Proof.
  intros (W1 & W2 & W3 & W4 & W5) (p & e & Hm & Hin & Hh & Hst & Hcb). unfold Resolve.
  destruct (map r !! name') as [p'|] eqn:Hm'.
  - destruct (heap r !! p') as [entry|] eqn:Hh'; [|split; [by exists p, e|done]].
    destruct (status entry) eqn:Hst'; destruct callback as [cb'|];
      try (split; [by exists p, e|done]).
    + split; [|done]. exists p. dns_simpl. destruct (decide (p' = p)) as [->|Hne].
      * eexists. rewrite lookup_insert_eq. split_and!; try done.
        dns_simpl. rewrite Hh in Hh'. injection Hh' as <-.
        apply elem_of_app. by left.
      * exists e. rewrite lookup_insert_ne by done. done.
    + split; [by exists p, e|]. simpl. unfold calls_for. rewrite filter_cons_False; [done|].
      simpl. intros <-. rewrite Hm in Hm'. injection Hm' as <-.
      rewrite Hh in Hh'. injection Hh' as <-. congruence.
    + split; [by exists p, e|]. simpl. unfold calls_for. rewrite filter_cons_False; [done|].
      simpl. intros <-. rewrite Hm in Hm'. injection Hm' as <-.
      rewrite Hh in Hh'. injection Hh' as <-. congruence.
  - split; [|done]. assert (name' ≠ name) by congruence.
    pose proof (W1 _ _ Hm). exists p, e. dns_simpl.
    rewrite !lookup_insert_ne by first [done|lia]. done.
Qed.

Lemma Update_waits name cb ready r :
  resolver_wf r → pending name cb r → ready name = None →
  pending name cb (Update ready r).1
  ∧ calls_for name (Update ready r).2 = [].
Proof.
  intros (W1 & W2 & W3 & W4 & W5) (p & e & Hm & Hin & Hh & Hst & Hcb) Hnot. split.
  - exists p, e. unfold Update. rewrite update_fold_map, update_fold_kept by done.
    split_and!; try done. rewrite update_fold_heap_waiting; [done|].
    intros name0 Hin0%elem_of_map_to_list.
    by rewrite (W3 name0 name p Hin0 Hin).
  - rewrite Update_calls_for, Hin. unfold calls. simpl. by rewrite Hh, Hnot.
Qed.

Lemma run_cons op ops r : run (op :: ops) r = run ops (call op r).1.
Proof. done. Qed.

Lemma run_waits name cb later : ∀ r,
  resolver_wf r → pending name cb r → Forall (waits name) later →
  pending name cb (run later r) ∧ calls_for name (invocations later r) = [].
Proof.
  induction later as [|op later IH]; intros r Hok Hp Hw; [done|].
  apply Forall_cons in Hw as [Hop Hw]. rewrite run_cons. simpl invocations.
  rewrite calls_for_app.
  assert (Hstep : pending name cb (call op r).1 ∧ calls_for name (call op r).2 = []).
  { destruct op as [name' callback|ready]; simpl in *.
    - by apply Resolve_waits.
    - by apply Update_waits. }
  destruct Hstep as [Hp1 ->].
  destruct (IH (call op r).1) as [Hp2 ->]; [by apply call_wf|done..].
Qed.

(** The [Update] that finds the lookup ready calls the callbacks that
    wait for the name. *)
Lemma Update_fires name cb ready res r :
  pending name cb r → ready name = Some res →
  {| inv_callback := cb; inv_name := name; inv_result := res |} ∈ (Update ready r).2.
Proof.
  intros (p & e & Hm & Hin & Hh & Hst & Hcb) Hres.
  assert (Hc : {| inv_callback := cb; inv_name := name; inv_result := res |}
               ∈ calls_for name (Update ready r).2).
  { rewrite Update_calls_for, Hin. unfold calls. simpl. rewrite Hh, Hres.
    apply list_elem_of_fmap. by exists cb. }
  unfold calls_for in Hc. by apply list_elem_of_filter in Hc as [_ ?].
Qed.

Lemma Update_ready_only ready r inv :
  inv ∈ (Update ready r).2 → ready (inv_name inv) = Some (inv_result inv).
Proof.
  rewrite Update_calls. intros Hj%list_elem_of_In. apply in_concat in Hj as (l & Hl%list_elem_of_In & Hinv%list_elem_of_In).
  apply list_elem_of_fmap in Hl as ([name p] & -> & _). unfold calls in Hinv. simpl in Hinv.
  destruct (heap r !! p) as [e|]; [|by apply elem_of_nil in Hinv].
  destruct (ready name) as [res|] eqn:Hr; [|by apply elem_of_nil in Hinv].
  by apply list_elem_of_fmap in Hinv as (cb & -> & _).
Qed.

Lemma run_settled_name name later : ∀ r,
  in_progress r !! name = None → is_Some (map r !! name) →
  in_progress (run later r) !! name = None.
Proof.
  induction later as [|op later IH]; intros r Hin Hm; [done|].
  rewrite run_cons.
  assert (Hstep : in_progress (call op r).1 !! name = None ∧ is_Some (map (call op r).1 !! name)).
  { destruct op as [name' callback|ready]; simpl.
    - unfold Resolve. destruct (map r !! name') as [p'|] eqn:Hm'.
      + destruct (heap r !! p') as [entry|]; [|done].
        by destruct (status entry), callback.
      + assert (name' ≠ name) by (intros ->; rewrite Hm' in Hm; by destruct Hm).
        dns_simpl. by rewrite !lookup_insert_ne.
    - unfold Update. rewrite update_fold_map. split; [|done].
      destruct (in_progress (foldl _ _ _).1 !! name) as [q|] eqn:Hq; [|done].
      apply update_fold_in_progress in Hq. congruence. }
  destruct Hstep. by apply IH.
Qed.

(** X17.  In every resolver that a sequence of [Resolve] and [Update] calls
    leads to, the entry [GetEntry( name )] returns is in progress exactly
    while the name waits in [in_progress], and it holds a result exactly
    when its status is [RESOLVE_SUCCEEDED]: a failed lookup has a null
    result, and so has a lookup in progress. *)
Theorem GetEntry_status (ops : list Op) name e :
  let r := run ops create in
  GetEntry name r = Some e →
  (status e = RESOLVE_IN_PROGRESS ↔ is_Some (in_progress r !! name))
  ∧ (status e = RESOLVE_SUCCEEDED ↔ is_Some (result e))
  ∧ (status e = RESOLVE_FAILED → result e = None).
Proof.
  intros r Hget.
  assert (Hok : resolver_ok r) by apply run_ok, resolver_ok_create.
  assert (Hs : heap_settled r).
  { apply run_settled; [apply resolver_ok_create|apply heap_settled_create]. }
  destruct Hok as (H1 & H2 & H3 & H4 & H5), Hs as [S1 S2].
  unfold GetEntry in Hget. destruct (map r !! name) as [p|] eqn:Hm; [|done].
  split_and!.
  - split.
    + intros Hst. exists p. by eapply H4.
    + intros [p' Hp']. pose proof (H1 _ _ Hp') as Hm'. rewrite Hm in Hm'.
      injection Hm' as <-. by eapply S2.
  - by eapply S1.
  - intros Hst. destruct (result e) as [res|] eqn:Hres; [|done].
    assert (status e = RESOLVE_SUCCEEDED) by (eapply S1; [done|]; by rewrite Hres).
    congruence.
Qed.

(** X18.  In every resolver that a sequence of [Resolve] and [Update] calls
    leads to, take a name whose entry is in progress. The [Update] at which
    its lookup is ready calls the callbacks queued for the name, each once
    per [Resolve] that queued it and in that order, with the name and the
    result; the entry is completed with this result; and the name has left
    [in_progress]: whatever [Resolve] and [Update] calls follow, no later
    [Update] calls back for it. *)
Theorem Update_calls_once (ops : list Op) name e ready res :
  let r := run ops create in
  GetEntry name r = Some e →
  status e = RESOLVE_IN_PROGRESS →
  ready name = Some res →
  calls_for name (Update ready r).2
  = (fun cb => {| inv_callback := cb; inv_name := name; inv_result := res |}) <$> callbacks e
  ∧ GetEntry name (Update ready r).1 = Some (completed_with res e)
  ∧ in_progress (Update ready r).1 !! name = None
  ∧ ∀ later ready',
      calls_for name (Update ready' (run later (Update ready r).1)).2 = [].
Proof.
  intros r Hget Hst Hres.
  assert (Hok : resolver_ok r) by apply run_ok, resolver_ok_create.
  pose proof Hok as (H1 & H2 & H3 & H4 & H5).
  unfold GetEntry in Hget. destruct (map r !! name) as [p|] eqn:Hm; [|done].
  assert (Hin : in_progress r !! name = Some p) by by eapply H4.
  assert (Hgone : in_progress (Update ready r).1 !! name = None).
  { unfold Update. eapply update_fold_erased; [by apply elem_of_map_to_list|by eexists..]. }
  split_and!.
  - rewrite Update_calls_for, Hin. unfold calls. simpl. by rewrite Hget, Hres.
  - unfold GetEntry.
    unfold Update. rewrite update_fold_map, Hm.
    eapply update_fold_heap; [by apply in_progress_pointers| |done..].
    by apply elem_of_map_to_list.
  - done.
  - intros later ready'. rewrite Update_calls_for, run_settled_name; [done|done|].
    unfold Update. rewrite update_fold_map, Hm. by eexists.
Qed.

(** X19.  [Clear()] empties the cache and nothing else. Afterwards every
    name is unknown: [GetEntry] returns null and [Resolve] starts over,
    without calling back, also for a name whose lookup had completed. The
    lookups in progress go on: the next [Update] makes the calls it would
    have made without the [Clear()]. *)
Theorem Clear_keeps_lookups r :
  (∀ name, GetEntry name (Clear r) = None)
  ∧ (∀ name callback,
       (Resolve name callback (Clear r)).2 = []
       ∧ ∃ e, GetEntry name (Resolve name callback (Clear r)).1 = Some e
              ∧ status e = RESOLVE_IN_PROGRESS)
  ∧ (∀ ready, (Update ready (Clear r)).2 = (Update ready r).2).
Proof.
  split_and!.
  - intros name. unfold GetEntry, Clear. dns_simpl. by rewrite lookup_empty.
  - intros name callback. unfold Resolve, GetEntry, Clear. dns_simpl.
    rewrite lookup_empty. dns_simpl. split; [done|].
    rewrite !lookup_insert_eq. by eexists.
  - intros ready. by rewrite !Update_calls.
Qed.

(** X20.  A [Resolve] after [Clear()] takes the place of the lookup in
    progress for its name: the [Update] at which the lookup is ready calls
    the new callback once, and none of the callbacks queued for the name
    before the [Clear()]. *)
Theorem Resolve_after_Clear_replaces r name cb ready res :
  ready name = Some res →
  calls_for name (Update ready (Resolve name (Some cb) (Clear r)).1).2
  = [{| inv_callback := cb; inv_name := name; inv_result := res |}].
Proof.
  intros Hres. rewrite Update_calls_for. unfold Resolve, Clear. dns_simpl.
  rewrite lookup_empty. dns_simpl. rewrite lookup_insert_eq.
  unfold calls. dns_simpl. by rewrite lookup_insert_eq, Hres.
Qed.

(** C10, amended.  In every resolver that [Resolve], [Update] and
    [Clear()] calls lead to: while the lookup of the name has not completed
    (no entry, or an entry in progress), [Resolve( name, callback )] calls
    no callback and queues its own.  Whatever [Resolve] and [Update] calls
    follow, as long as no [Update] among them finds the lookup of the name
    ready and [Clear()] is not called, they call nothing for the name, and
    the [Update] that then finds the lookup ready calls the callback with
    the result.  An [Update] calls callbacks of lookups that are ready
    only.  Once the lookup has completed, [Resolve( name, callback )]
    calls the callback itself, with the result of the entry, before it
    returns. *)
Theorem Resolve_defers_until_completed r name cb :
  reached r →
  ((∀ e, ¬ completed name e r) →
   (Resolve name (Some cb) r).2 = []
   ∧ queued name cb (Resolve name (Some cb) r).1
   ∧ ∀ later ready res,
       Forall (waits name) later → ready name = Some res →
       calls_for name (invocations later (Resolve name (Some cb) r).1) = []
       ∧ {| inv_callback := cb; inv_name := name; inv_result := res |}
         ∈ (Update ready (run later (Resolve name (Some cb) r).1)).2)
  ∧ (∀ ready inv, inv ∈ (Update ready r).2 → ready (inv_name inv) = Some (inv_result inv))
  ∧ (∀ e, completed name e r →
       Resolve name (Some cb) r
       = (r, [{| inv_callback := cb; inv_name := name; inv_result := result e |}])).
Proof.
  intros Hr. pose proof (reached_wf r Hr) as Hok.
  split_and!.
  - intros Hnot.
    pose proof (Resolve_pending name cb r Hok Hnot) as Hp.
    split_and!.
    + by apply Resolve_silent.
    + by apply pending_queued.
    + intros later ready res Hw Hres.
      destruct (run_waits name cb later (Resolve name (Some cb) r).1) as [Hp' Hnone];
        [by apply Resolve_wf|done..|].
      split; [done|]. by apply Update_fires.
  - intros ready inv. apply Update_ready_only.
  - intros e. apply Resolve_completed.
Qed.

(** *** DNSResolve_Blocking *)

Lemma split_port_colon host digits :
  ":"%char ∉ String.list_ascii_of_string host →
  split_port (host +:+ String ":" digits) = (host, Some digits).
Proof.
  induction host as [|c host IH]; simpl; intros Hno; [done|].
  apply not_elem_of_cons in Hno as [Hc Hno].
  rewrite decide_False by done. by rewrite IH.
Qed.

Lemma split_port_plain name :
  ":"%char ∉ String.list_ascii_of_string name → split_port name = (name, None).
Proof.
  induction name as [|c name IH]; simpl; intros Hno; [done|].
  apply not_elem_of_cons in Hno as [Hc Hno].
  rewrite decide_False by done. by rewrite IH.
Qed.

Lemma split_port_hostname name :
  ":"%char ∉ String.list_ascii_of_string (split_port name).1.
Proof.
  induction name as [|c name IH]; simpl.
  { apply not_elem_of_nil. }
  case_decide as Hc; simpl; [apply not_elem_of_nil|].
  destruct (split_port name) as [hostname digits]. simpl in *.
  by apply not_elem_of_cons.
Qed.

Lemma c_str_chars s c :
  c ∈ String.list_ascii_of_string (c_str s) →
  c ∈ String.list_ascii_of_string s ∧ c ≠ Ascii.zero.
Proof.
  induction s as [|c' s IH]; simpl; [by intros ?%elem_of_nil|].
  case_decide as Hz; simpl; [by intros ?%elem_of_nil|].
  intros [->|Hin]%elem_of_cons.
  - split; [by left|done].
  - destruct (IH Hin). split; [by right|done].
Qed.

Lemma omap_cons {A B} (f : A → option B) x l :
  omap f (x :: l) = match f x with Some y => y :: omap f l | None => omap f l end.
Proof. done. Qed.

Section Blocking.
Context {addrinfo : Type}.
Variable getaddrinfo : string → Z → Z → option (list addrinfo).
Variable atoi : string → Z.
Variable Address_of : addrinfo → Address.
Variable IsValid : Address → bool.
Variable SetPort : Z → Address → Address.

Local Abbreviation resolve := (DNSResolve_Blocking addrinfo getaddrinfo atoi Address_of IsValid SetPort).

(** X21.  [DNSResolve_Blocking] gives up exactly when [getaddrinfo] fails or
    none of the addresses it found is valid. Otherwise the result is not
    empty: it holds the valid addresses, in the order of [getaddrinfo], each
    with the port of the name when that is not 0. The host name it looks up
    holds no [':'] and no NUL. *)
Theorem DNSResolve_Blocking_result name family socktype :
  let found := getaddrinfo (hostname_of name) family socktype in
  let port := port_of atoi name in
  (match resolve name family socktype with
   | None =>
       found = None
       ∨ ∃ res, found = Some res ∧ Forall (fun p => IsValid (Address_of p) = false) res
   | Some r =>
       addresses r ≠ []
       ∧ ∃ res, found = Some res
           ∧ addresses r
             = (fun a => if port =? 0 then a else SetPort port a)
                 <$> filter (fun a => IsValid a = true) (Address_of <$> res)
   end)
  ∧ (":"%char ∉ String.list_ascii_of_string (hostname_of name))
  ∧ (Ascii.zero ∉ String.list_ascii_of_string (hostname_of name)).
Proof.
  intros found port. split_and!.
  - unfold DNSResolve_Blocking. fold port. fold found.
    destruct found as [res|]; [|by left].
    set (keep := fun p : addrinfo =>
                   if IsValid (Address_of p)
                   then Some (if port =? 0 then Address_of p else SetPort port (Address_of p))
                   else None).
    assert (Hkeep : omap keep res
                    = (fun a => if port =? 0 then a else SetPort port a)
                        <$> filter (fun a => IsValid a = true) (Address_of <$> res)).
    { induction res as [|p res IH]; [done|]. rewrite fmap_cons, omap_cons. unfold keep at 1.
      destruct (IsValid (Address_of p)) eqn:Hv.
      - rewrite filter_cons_True by done. by rewrite fmap_cons, IH.
      - rewrite filter_cons_False by congruence. done. }
    destruct (Z.eqb_spec (Z.of_nat (length (omap keep res))) 0) as [Hz|Hnz].
    + right. exists res. split; [done|].
      assert (Hnil : omap keep res = []) by (apply nil_length_inv; lia).
      clear Hz Hkeep. induction res as [|p res IH]; [done|]. rewrite omap_cons in Hnil.
      unfold keep at 1 in Hnil. destruct (IsValid (Address_of p)) eqn:Hv; [done|].
      constructor; [done|]. by apply IH.
    + simpl. split.
      * intros Hnil. by rewrite Hnil in Hnz.
      * by exists res.
  - intros Hin%c_str_chars. by apply (split_port_hostname name), Hin.
  - intros Hin%c_str_chars. by destruct Hin.
Qed.

(** X22.  The name [host:digits] resolves to the addresses of [host], each
    with the port that [atoi] reads from the digits (kept to 16 bits) unless
    that is 0; the first [':'] of the name ends the host. *)
Theorem DNSResolve_Blocking_port host digits family socktype :
  ":"%char ∉ String.list_ascii_of_string host →
  let port := wrap16 (atoi (c_str digits)) in
  resolve (host +:+ String ":" digits) family socktype
  = (fun r => {| addresses := (fun a => if port =? 0 then a else SetPort port a)
                                <$> addresses r |})
      <$> resolve host family socktype.
Proof.
  intros Hno port. unfold DNSResolve_Blocking, hostname_of, port_of.
  rewrite split_port_colon, split_port_plain by done. cbn [fst snd]. fold port. cbv zeta.
  destruct (getaddrinfo (c_str host) family socktype) as [res|]; [|done].
  set (keep := fun q (p : addrinfo) =>
                 if IsValid (Address_of p)
                 then Some (if q =? 0 then Address_of p else SetPort q (Address_of p))
                 else None).
  change (omap _ res) with (omap (keep port) res) at 1 2.
  change (omap _ res) with (omap (keep 0) res) at 3 4.
  assert (Hkeep : omap (keep port) res
                  = (fun a => if port =? 0 then a else SetPort port a) <$> omap (keep 0) res).
  { induction res as [|p res IH]; [done|]. rewrite !omap_cons. unfold keep in *.
    destruct (IsValid (Address_of p)); [|exact IH]. rewrite fmap_cons. f_equal. exact IH. }
  rewrite Hkeep, length_fmap.
  by destruct (Z.of_nat (length (omap (keep 0) res)) =? 0).
Qed.

End Blocking.

(** *** The properties on the scenarios *)

Import Scenarios.

Lemma GetEntry_status_witness :
  GetEntry "localhost" resolved
  = Some {| status := RESOLVE_SUCCEEDED; result := Some {| addresses := [1] |};
            callbacks := [1%nat] |}
  ∧ in_progress resolved !! "localhost" = None.
Proof.
  assert (Hget : GetEntry "localhost" resolved
                 = Some {| status := RESOLVE_SUCCEEDED; result := Some {| addresses := [1] |};
                           callbacks := [1%nat] |}) by (vm_compute; reflexivity).
  split; [exact Hget|].
  destruct (GetEntry_status
              [CallResolve "localhost" (Some 1%nat); CallUpdate all_ready] "localhost" _ Hget)
    as ([_ Hin] & _).
  destruct (in_progress resolved !! "localhost") as [p|] eqn:Hp; [|done].
  cbn [status] in Hin. fold resolved in Hin.
  assert (RESOLVE_SUCCEEDED = RESOLVE_IN_PROGRESS); [|done].
  apply Hin. by rewrite Hp.
Defined.

Lemma Update_calls_once_witness :
  calls_for "localhost" (Update all_ready (run asked_twice create)).2
  = [{| inv_callback := 1%nat; inv_name := "localhost";
        inv_result := Some {| addresses := [1] |} |};
     {| inv_callback := 2%nat; inv_name := "localhost";
        inv_result := Some {| addresses := [1] |} |}]
  ∧ ∀ later ready,
      calls_for "localhost"
        (Update ready (run later (Update all_ready (run asked_twice create)).1)).2 = [].
Proof.
  destruct (Update_calls_once asked_twice "localhost"
              {| status := RESOLVE_IN_PROGRESS; result := None; callbacks := [1%nat; 2%nat] |}
              all_ready (Some {| addresses := [1] |})) as (Hcalls & _ & _ & Hlater).
  - vm_compute. reflexivity.
  - reflexivity.
  - reflexivity.
  - split; [exact Hcalls|exact Hlater].
Defined.

Lemma Resolve_after_Clear_replaces_witness :
  calls_for "localhost"
    (Update all_ready (Resolve "localhost" (Some 3%nat) (Clear (run asked_twice create))).1).2
  = [{| inv_callback := 3%nat; inv_name := "localhost";
        inv_result := Some {| addresses := [1] |} |}].
Proof.
  apply (Resolve_after_Clear_replaces (run asked_twice create) "localhost" 3%nat all_ready).
  reflexivity.
Defined.

Lemma Resolve_defers_until_completed_witness :
  reached cleared
  ∧ (Resolve "localhost" (Some 2%nat) cleared).2 = []
  ∧ calls_for "localhost"
      (invocations [CallResolve "localhost" (Some 3%nat); CallUpdate none_ready]
         (Resolve "localhost" (Some 2%nat) cleared).1) = []
  ∧ {| inv_callback := 2%nat; inv_name := "localhost";
       inv_result := Some {| addresses := [1] |} |}
    ∈ (Update all_ready
         (run [CallResolve "localhost" (Some 3%nat); CallUpdate none_ready]
            (Resolve "localhost" (Some 2%nat) cleared).1)).2.
Proof.
  assert (Hr : reached cleared).
  { apply reached_Clear. apply (reached_call (CallResolve "localhost" (Some 1%nat))).
    apply reached_create. }
  destruct (Resolve_defers_until_completed cleared "localhost" 2%nat Hr) as [Hwait _].
  destruct Hwait as (Hsilent & _ & Hlater).
  { intros e [Hget _]. vm_compute in Hget. done. }
  destruct (Hlater [CallResolve "localhost" (Some 3%nat); CallUpdate none_ready]
              all_ready (Some {| addresses := [1] |})) as [Hnone Hfire].
  { repeat constructor. }
  { done. }
  split_and!; [exact Hr|exact Hsilent|exact Hnone|exact Hfire].
Defined.

Lemma DNSResolve_Blocking_port_witness :
  DNSResolve_Blocking Z known_host reads_8080 id valid_address with_port "localhost:8080" 2 1
  = Some {| addresses := [1 + 256 * 8080; 2 + 256 * 8080] |}.
Proof.
  assert (Hno : ":"%char ∉ String.list_ascii_of_string "localhost").
  { apply (bool_decide_unpack _). vm_compute. reflexivity. }
  pose proof (DNSResolve_Blocking_port known_host reads_8080 id valid_address with_port
                "localhost" "8080" 2 1 Hno) as H.
  exact H.
Defined.

End ResolverLookups.
